(** * SQL Server connection string translator: the translation core in Rocq

    A shallow embedding of the TypeScript sources
    [utils/escaping.ts], [data/keywords.ts], [data/synonyms.ts],
    [data/defaults.ts], [drivers/python.ts], [drivers/rust.ts],
    [translator/types.ts], [translator/detector.ts], [translator/parser.ts],
    [translator/mapper.ts], [translator/generator.ts],
    [translator/index.ts] and [translator/validator.ts], followed by the
    properties of the specification and by further properties of the code.

    Conventions of the embedding.
    - A JavaScript string is a [string]: the sequence of the bytes of the
      text.  [String.length] is therefore the length in bytes that
      [new TextEncoder().encode(input).length] measures.  Case folding,
      [trim], [\s], [\w], [\d] and the line terminators that the dot of a
      regular expression refuses are embedded on the ASCII range, where
      they are those of JavaScript.  Beyond ASCII JavaScript knows further
      white space (U+00A0, U+FEFF, U+2028, U+2029, ...), further line
      terminators (U+2028, U+2029) and further case pairs, which the
      embedding leaves alone: a property that depends on them is stated
      for ASCII text ([JS.isAscii]).
    - A [Map] is an association list in insertion order; [Map.set] on a key
      already present replaces the value in place.
    - Numbers are [nat] (offsets, scores), [N] (ports, numeric defaults)
      or [Z] (results of [indexOf] and of comparators).  A JavaScript
      number is a double: [parseInt] of a run of digits and [String] of
      an integer are the exact integer and its decimal digits up to
      [Number.MAX_SAFE_INTEGER], and the embedding is theirs on that
      range ([JS.isSafeInteger]); above it [parseInt] rounds and, from
      1e21 on, [String] prints an exponent.
    - [undefined]/[null] results are [option]; a lookup in an object
      literal sees its own properties.
    - [String.prototype.localeCompare] belongs to the host: the mapper and
      the orchestrator take it as a section variable. *)

From Stdlib Require Import String Ascii List Bool Arith NArith ZArith Lia.
From Stdlib Require Import DecimalString.
Import ListNotations.

Local Open Scope list_scope.
Local Open Scope string_scope.

(* ------------------------------------------------------------------ *)
(** ** JavaScript string primitives *)

Module JS.

(** The double quote character, and the one-character string made of it. *)
Definition DQ : ascii := ascii_of_N 34.
Definition dq : string := String DQ EmptyString.

(** The ASCII white space: tab, line feed, vertical tab, form feed,
    carriage return and space.  On ASCII text this is [\s] and what [trim]
    strips; JavaScript's class has U+00A0, U+FEFF, U+2028, U+2029 and the
    space separators of Unicode besides. *)
Definition is_space (c : ascii) : bool :=
  let n := N_of_ascii c in
  ((9 <=? n) && (n <=? 13) || (n =? 32))%N.

Definition is_digit (c : ascii) : bool :=
  let n := N_of_ascii c in ((48 <=? n) && (n <=? 57))%N.

Definition is_upper (c : ascii) : bool :=
  let n := N_of_ascii c in ((65 <=? n) && (n <=? 90))%N.

Definition is_lower (c : ascii) : bool :=
  let n := N_of_ascii c in ((97 <=? n) && (n <=? 122))%N.

(** [\w] of a regular expression without the [u] flag. *)
Definition is_word (c : ascii) : bool :=
  is_upper c || is_lower c || is_digit c || Ascii.eqb c "_".

(** [\n] and [\r]: the ASCII characters the regular expression [.]
    refuses.  Beyond ASCII it refuses U+2028 and U+2029 as well. *)
Definition is_line_terminator (c : ascii) : bool :=
  let n := N_of_ascii c in ((n =? 10) || (n =? 13))%N.

Definition lower (c : ascii) : ascii :=
  if is_upper c then ascii_of_N (N_of_ascii c + 32) else c.

(** [s.toLowerCase()] on ASCII text: the letters A to Z are folded.
    JavaScript folds the capital letters beyond ASCII too (U+212A, the
    Kelvin sign, becomes [k]). *)
Fixpoint toLowerCase (s : string) : string :=
  match s with
  | EmptyString => EmptyString
  | String c s' => String (lower c) (toLowerCase s')
  end.

Fixpoint trimStart (s : string) : string :=
  match s with
  | EmptyString => EmptyString
  | String c s' => if is_space c then trimStart s' else s
  end.

Fixpoint trimEnd (s : string) : string :=
  match s with
  | EmptyString => EmptyString
  | String c s' =>
      match trimEnd s' with
      | EmptyString => if is_space c then EmptyString else String c EmptyString
      | t => String c t
      end
  end.

Definition trim (s : string) : string := trimEnd (trimStart s).

(** A string is falsy exactly when it is empty. *)
Definition truthy (s : string) : bool :=
  match s with EmptyString => false | _ => true end.

Definition startsWith (p s : string) : bool := String.prefix p s.

Fixpoint last_char (s : string) : option ascii :=
  match s with
  | EmptyString => None
  | String c EmptyString => Some c
  | String _ s' => last_char s'
  end.

(** [s.endsWith(c)] for a one-character [c]. *)
Definition endsWithChar (c : ascii) (s : string) : bool :=
  match last_char s with Some d => Ascii.eqb c d | None => false end.

Definition startsWithChar (c : ascii) (s : string) : bool :=
  match s with String d _ => Ascii.eqb c d | EmptyString => false end.

Fixpoint includes (sub s : string) : bool :=
  String.prefix sub s ||
  match s with
  | EmptyString => false
  | String _ s' => includes sub s'
  end.

Fixpoint includesChar (c : ascii) (s : string) : bool :=
  match s with
  | EmptyString => false
  | String d s' => Ascii.eqb c d || includesChar c s'
  end.

(** [s.replace(/\s+/g, '')]. *)
Fixpoint removeSpaces (s : string) : string :=
  match s with
  | EmptyString => EmptyString
  | String c s' => if is_space c then removeSpaces s' else String c (removeSpaces s')
  end.

(** [s.replace(/c/g, r)] for a one-character pattern [c]. *)
Fixpoint replaceChar (c : ascii) (r : string) (s : string) : string :=
  match s with
  | EmptyString => EmptyString
  | String d s' =>
      if Ascii.eqb c d then r ++ replaceChar c r s' else String d (replaceChar c r s')
  end.

(** [s.replace(/cc/g, 'c')]: the matches are found from the left and do
    not overlap. *)
Fixpoint replaceDoubled (c : ascii) (s : string) : string :=
  match s with
  | EmptyString => EmptyString
  | String d s' =>
      match s' with
      | String e s'' =>
          if Ascii.eqb c d && Ascii.eqb c e
          then String c (replaceDoubled c s'')
          else String d (replaceDoubled c s')
      | EmptyString => String d EmptyString
      end
  end.

Fixpoint removeLast (s : string) : string :=
  match s with
  | EmptyString => EmptyString
  | String _ EmptyString => EmptyString
  | String c s' => String c (removeLast s')
  end.

(** [s.slice(1, -1)]. *)
Definition slice_1_m1 (s : string) : string :=
  match s with
  | EmptyString => EmptyString
  | String _ s' => removeLast s'
  end.

(** [Number.isSafeInteger(n)] for a non-negative integer: the integers
    up to [Number.MAX_SAFE_INTEGER], 2^53 - 1, which a double holds
    exactly. *)
Definition isSafeInteger (n : N) : bool := (n <=? 9007199254740991)%N.

(** [String(n)] for a non-negative integer: its decimal digits.  This is
    what JavaScript prints for a safe integer; from 1e21 on it prints an
    exponent ([1e+23]). *)
Definition ofN (n : N) : string := NilEmpty.string_of_uint (N.to_uint n).

Definition ofNat (n : nat) : string := ofN (N.of_nat n).

Definition ofBool (b : bool) : string := if b then "true" else "false".

(** [parseInt(s, 10)] for a string of decimal digits: the integer the
    digits denote.  This is JavaScript's result when the integer is safe;
    above 2^53 [parseInt] gives the nearest double. *)
Definition digit_val (c : ascii) : N := (N_of_ascii c - 48)%N.

Definition parseDigits (s : string) : N :=
  fold_left (fun acc c => (acc * 10 + digit_val c)%N) (list_ascii_of_string s) 0%N.

Fixpoint all_chars (p : ascii -> bool) (s : string) : bool :=
  match s with
  | EmptyString => true
  | String c s' => p c && all_chars p s'
  end.

(** The ASCII strings: every character is below 128.  On them the
    white space, the line terminators and the case folding above are
    those of JavaScript. *)
Definition isAscii (s : string) : bool :=
  all_chars (fun c => (N_of_ascii c <? 128)%N) s.

(** [Array.prototype.join]. *)
Definition join (sep : string) (l : list string) : string := String.concat sep l.

(** [Array.prototype.includes] on an array of strings. *)
Definition mem (x : string) (l : list string) : bool :=
  existsb (String.eqb x) l.

End JS.

(* ------------------------------------------------------------------ *)
(** ** translator/types.ts *)

Inductive DriverType :=
  | sqlclient | odbc | oledb | jdbc | php | python | rust.

Definition DriverType_eqb (a b : DriverType) : bool :=
  match a, b with
  | sqlclient, sqlclient | odbc, odbc | oledb, oledb | jdbc, jdbc
  | php, php | python, python | rust, rust => true
  | _, _ => false
  end.

Definition ALL_DRIVERS : list DriverType :=
  [sqlclient; odbc; oledb; jdbc; php; python; rust].

(** The string tag of a driver, as it appears in a template string. *)
Definition driverTag (d : DriverType) : string :=
  match d with
  | sqlclient => "sqlclient" | odbc => "odbc" | oledb => "oledb"
  | jdbc => "jdbc" | php => "php" | python => "python" | rust => "rust"
  end.

Definition MAX_CONNECTION_STRING_SIZE : nat := 32 * 1024.

(* ------------------------------------------------------------------ *)
(** ** utils/escaping.ts *)

Module Escaping.

Definition SPECIAL_CHARS : list ascii :=
  [";"; "="; "{"; "}"; JS.DQ; "'"]%char.

Definition needsEscaping (value : string) : bool :=
  existsb (fun c => JS.includesChar c value) SPECIAL_CHARS.

Definition escapeValue (value : string) (driver : DriverType) : string :=
  if negb (needsEscaping value) then value
  else
    match driver with
    | sqlclient | oledb | php | python =>
        JS.dq ++ JS.replaceChar JS.DQ (JS.dq ++ JS.dq) value ++ JS.dq
    | odbc | jdbc =>
        "{" ++ JS.replaceChar "}" "}}" value ++ "}"
    | rust =>
        JS.dq ++ JS.replaceChar JS.DQ ("\" ++ JS.dq) (JS.replaceChar "\" "\\" value) ++ JS.dq
    end.

Definition unescapeValue (value : string) : string :=
  if negb (JS.truthy value) then value
  else
    let trimmed := JS.trim value in
    if JS.startsWithChar JS.DQ trimmed && JS.endsWithChar JS.DQ trimmed then
      JS.replaceDoubled JS.DQ (JS.slice_1_m1 trimmed)
    else if JS.startsWithChar "'" trimmed && JS.endsWithChar "'" trimmed then
      JS.replaceDoubled "'" (JS.slice_1_m1 trimmed)
    else if JS.startsWithChar "{" trimmed && JS.endsWithChar "}" trimmed then
      JS.replaceDoubled "}" (JS.slice_1_m1 trimmed)
    else value.

Definition isQuotedOrBraced (value : string) : bool :=
  let trimmed := JS.trim value in
  (JS.startsWithChar JS.DQ trimmed && JS.endsWithChar JS.DQ trimmed)
  || (JS.startsWithChar "'" trimmed && JS.endsWithChar "'" trimmed)
  || (JS.startsWithChar "{" trimmed && JS.endsWithChar "}" trimmed).


Definition stripQuotes (value : string) : string :=
  let trimmed := JS.trim value in
  if (JS.startsWithChar JS.DQ trimmed && JS.endsWithChar JS.DQ trimmed)
     || (JS.startsWithChar "'" trimmed && JS.endsWithChar "'" trimmed)
     || (JS.startsWithChar "{" trimmed && JS.endsWithChar "}" trimmed)
  then JS.slice_1_m1 trimmed
  else value.

Definition escapeForJdbc (value : string) : string :=
  if negb (needsEscaping value) then value
  else "{" ++ JS.replaceChar "}" "}}" value ++ "}".

Definition escapeForRust (value : string) : string :=
  JS.replaceChar (ascii_of_N 9) "\t"
    (JS.replaceChar (ascii_of_N 13) "\r"
      (JS.replaceChar (ascii_of_N 10) "\n"
        (JS.replaceChar JS.DQ ("\" ++ JS.dq)
          (JS.replaceChar "\" "\\" value)))).

End Escaping.

(* ------------------------------------------------------------------ *)
(** ** A JavaScript [Map] keyed by strings *)

Module JSMap.

Section Ops.
Context {V : Type}.

Definition t := list (string * V).

Fixpoint get (k : string) (m : t) : option V :=
  match m with
  | [] => None
  | (k', v) :: m' => if String.eqb k k' then Some v else get k m'
  end.

Definition has (k : string) (m : t) : bool :=
  match get k m with Some _ => true | None => false end.

(** [Map.set]: a new key goes to the end, a known key keeps its place. *)
Fixpoint set (k : string) (v : V) (m : t) : t :=
  match m with
  | [] => [(k, v)]
  | (k', v') :: m' =>
      if String.eqb k k' then (k, v) :: m' else (k', v') :: set k v m'
  end.

End Ops.

Arguments t : clear implicits.

End JSMap.

(* ------------------------------------------------------------------ *)
(** ** translator/types.ts: the keyword types *)

Inductive KeywordCategory :=
  | cat_connection | cat_auth | cat_security | cat_timeout | cat_appInfo
  | cat_hadr | cat_network | cat_features | cat_database | cat_pooling
  | cat_resiliency | cat_driver | cat_behavior | cat_keyVault | cat_azureAd
  | cat_tracing | cat_other.

Inductive KeywordValueType := TString | TBoolean | TInteger | TEnum.

(** A value of type [string | boolean | number]. *)
Inductive JSValue :=
  | VStr (s : string)
  | VBool (b : bool)
  | VNum (n : N).

(** [DriverKeyword]: the fields [name], [synonyms], [type], [defaultValue],
    [required], [deprecated] and [enumValues], in this order.  An absent
    [synonyms] or [enumValues] is the empty list, an absent [required] or
    [deprecated] is [false]; [notes] is documentation. *)
Record DriverKeyword := DK {
  dk_name : option string;
  dk_synonyms : list string;
  dk_type : KeywordValueType;
  dk_defaultValue : option JSValue;
  dk_required : bool;
  dk_deprecated : bool;
  dk_enumValues : list string
}.

(** [Keyword]: [id], [displayName], [category] and [drivers]; the entries of
    [drivers] are kept in the order [Object.entries] yields them. *)
Record Keyword := KW {
  kw_id : string;
  kw_displayName : string;
  kw_category : KeywordCategory;
  kw_drivers : list (DriverType * DriverKeyword)
}.

(** [keyword.drivers[driver]]. *)
Fixpoint driversGet (d : DriverType) (l : list (DriverType * DriverKeyword))
  : option DriverKeyword :=
  match l with
  | [] => None
  | (d', c) :: l' => if DriverType_eqb d d' then Some c else driversGet d l'
  end.

(* ------------------------------------------------------------------ *)
(** ** data/keywords.ts *)

Module Keywords.

Definition keywords : list Keyword :=
[ KW "server" "Server/Host" cat_connection
    [ (sqlclient, DK (Some "Server") ["Data Source"; "Address"; "Addr"; "Network Address"] TString None true false []);
       (odbc, DK (Some "Server") [] TString None true false []);
       (oledb, DK (Some "Data Source") [] TString None true false []);
       (jdbc, DK None [] TString None true false []);
       (php, DK (Some "Server") [] TString None true false []);
       (python, DK (Some "Server") [] TString None true false []);
       (rust, DK (Some "transport_context.host") [] TString None true false []) ];
  KW "database" "Database" cat_connection
    [ (sqlclient, DK (Some "Database") ["Initial Catalog"] TString None false false []);
       (odbc, DK (Some "Database") [] TString None false false []);
       (oledb, DK (Some "Initial Catalog") [] TString None false false []);
       (jdbc, DK (Some "databaseName") ["database"] TString None false false []);
       (php, DK (Some "Database") [] TString None false false []);
       (python, DK (Some "Database") [] TString None false false []);
       (rust, DK (Some "database") [] TString None false false []) ];
  KW "port" "Port" cat_connection
    [ (sqlclient, DK None [] TInteger (Some (VNum 1433)) false false []);
       (odbc, DK None [] TInteger (Some (VNum 1433)) false false []);
       (oledb, DK None [] TInteger (Some (VNum 1433)) false false []);
       (jdbc, DK None [] TInteger (Some (VNum 1433)) false false []);
       (php, DK None [] TInteger (Some (VNum 1433)) false false []);
       (python, DK (Some "Port") [] TInteger (Some (VNum 1433)) false false []);
       (rust, DK (Some "transport_context.port") [] TInteger (Some (VNum 1433)) false false []) ];
  KW "instancename" "Instance Name" cat_connection
    [ (sqlclient, DK None [] TString None false false []);
       (odbc, DK None [] TString None false false []);
       (oledb, DK None [] TString None false false []);
       (jdbc, DK (Some "instanceName") [] TString None false false []);
       (php, DK None [] TString None false false []);
       (python, DK None [] TString None false false []);
       (rust, DK None [] TString None false false []) ];
  KW "userid" "User ID" cat_auth
    [ (sqlclient, DK (Some "User ID") ["User"; "UID"] TString None false false []);
       (odbc, DK (Some "UID") ["User ID"] TString None false false []);
       (oledb, DK (Some "User ID") [] TString None false false []);
       (jdbc, DK (Some "user") [] TString None false false []);
       (php, DK (Some "UID") [] TString None false false []);
       (python, DK (Some "User") ["UID"] TString None false false []);
       (rust, DK (Some "auth.user") [] TString None false false []) ];
  KW "password" "Password" cat_auth
    [ (sqlclient, DK (Some "Password") ["PWD"] TString None false false []);
       (odbc, DK (Some "PWD") ["Password"] TString None false false []);
       (oledb, DK (Some "Password") [] TString None false false []);
       (jdbc, DK (Some "password") [] TString None false false []);
       (php, DK (Some "PWD") [] TString None false false []);
       (python, DK (Some "Password") ["PWD"] TString None false false []);
       (rust, DK (Some "auth.password") [] TString None false false []) ];
  KW "integratedsecurity" "Integrated Security" cat_auth
    [ (sqlclient, DK (Some "Integrated Security") ["Trusted_Connection"] TBoolean (Some (VBool false)) false false []);
       (odbc, DK (Some "Trusted_Connection") [] TBoolean (Some (VBool false)) false false ["Yes"; "No"]);
       (oledb, DK (Some "Integrated Security") [] TEnum None false false ["SSPI"]);
       (jdbc, DK (Some "integratedSecurity") [] TBoolean (Some (VBool false)) false false []);
       (php, DK None [] TBoolean None false false []);
       (python, DK (Some "Trusted_Connection") [] TBoolean (Some (VBool false)) false false []);
       (rust, DK (Some "auth.integrated_security") [] TBoolean (Some (VBool false)) false false []) ];
  KW "authentication" "Authentication" cat_auth
    [ (sqlclient, DK (Some "Authentication") [] TEnum None false false ["SqlPassword"; "ActiveDirectoryPassword"; "ActiveDirectoryIntegrated"; "ActiveDirectoryInteractive"; "ActiveDirectoryServicePrincipal"; "ActiveDirectoryManagedIdentity"; "ActiveDirectoryDefault"]);
       (odbc, DK (Some "Authentication") [] TEnum None false false ["SqlPassword"; "ActiveDirectoryPassword"; "ActiveDirectoryIntegrated"; "ActiveDirectoryInteractive"; "ActiveDirectoryMsi"]);
       (oledb, DK None [] TEnum None false false []);
       (jdbc, DK (Some "authentication") [] TEnum None false false ["SqlPassword"; "ActiveDirectoryPassword"; "ActiveDirectoryIntegrated"; "ActiveDirectoryInteractive"; "ActiveDirectoryServicePrincipal"; "ActiveDirectoryManagedIdentity"]);
       (php, DK (Some "Authentication") [] TEnum None false false ["SqlPassword"; "ActiveDirectoryPassword"; "ActiveDirectoryIntegrated"; "ActiveDirectoryMsi"]);
       (python, DK (Some "Authentication") [] TEnum None false false []);
       (rust, DK (Some "auth.authentication_method") [] TEnum None false false []) ];
  KW "encrypt" "Encrypt" cat_security
    [ (sqlclient, DK (Some "Encrypt") [] TEnum (Some (VStr "True")) false false ["True"; "False"; "Strict"; "Optional"; "Mandatory"]);
       (odbc, DK (Some "Encrypt") [] TEnum (Some (VStr "yes")) false false ["yes"; "no"; "strict"; "true"; "false"]);
       (oledb, DK (Some "Use Encryption for Data") [] TBoolean (Some (VBool false)) false false []);
       (jdbc, DK (Some "encrypt") [] TEnum (Some (VStr "true")) false false ["true"; "false"; "strict"]);
       (php, DK (Some "Encrypt") [] TBoolean (Some (VBool false)) false false []);
       (python, DK (Some "Encrypt") [] TBoolean (Some (VBool false)) false false []);
       (rust, DK (Some "encryption_options.mode") [] TEnum None false false ["Off"; "On"; "Required"]) ];
  KW "trustservercertificate" "Trust Server Certificate" cat_security
    [ (sqlclient, DK (Some "TrustServerCertificate") [] TBoolean (Some (VBool false)) false false []);
       (odbc, DK (Some "TrustServerCertificate") [] TBoolean (Some (VBool false)) false false ["yes"; "no"]);
       (oledb, DK (Some "Trust Server Certificate") [] TBoolean (Some (VBool false)) false false []);
       (jdbc, DK (Some "trustServerCertificate") [] TBoolean (Some (VBool false)) false false []);
       (php, DK (Some "TrustServerCertificate") [] TBoolean (Some (VBool false)) false false []);
       (python, DK (Some "TrustServerCertificate") [] TBoolean (Some (VBool false)) false false []);
       (rust, DK (Some "encryption_options.trust_server_certificate") [] TBoolean (Some (VBool false)) false false []) ];
  KW "hostnameincertificate" "Host Name In Certificate" cat_security
    [ (sqlclient, DK (Some "HostNameInCertificate") [] TString None false false []);
       (odbc, DK (Some "HostNameInCertificate") [] TString None false false []);
       (oledb, DK None [] TString None false false []);
       (jdbc, DK (Some "hostNameInCertificate") [] TString None false false []);
       (php, DK None [] TString None false false []);
       (python, DK None [] TString None false false []);
       (rust, DK (Some "encryption_options.host_name_in_cert") [] TString None false false []) ];
  KW "columnencryption" "Column Encryption Setting" cat_security
    [ (sqlclient, DK (Some "Column Encryption Setting") [] TEnum None false false ["Enabled"; "Disabled"]);
       (odbc, DK (Some "ColumnEncryption") [] TEnum None false false ["Enabled"; "Disabled"]);
       (oledb, DK None [] TEnum None false false []);
       (jdbc, DK (Some "columnEncryptionSetting") [] TEnum None false false ["Enabled"; "Disabled"]);
       (php, DK (Some "ColumnEncryption") [] TEnum None false false ["Enabled"; "Disabled"]);
       (python, DK None [] TEnum None false false []);
       (rust, DK None [] TEnum None false false []) ];
  KW "connecttimeout" "Connection Timeout" cat_timeout
    [ (sqlclient, DK (Some "Connect Timeout") ["Connection Timeout"; "Timeout"] TInteger (Some (VNum 15)) false false []);
       (odbc, DK (Some "Connection Timeout") [] TInteger (Some (VNum 15)) false false []);
       (oledb, DK (Some "Connect Timeout") [] TInteger (Some (VNum 15)) false false []);
       (jdbc, DK (Some "loginTimeout") [] TInteger (Some (VNum 15)) false false []);
       (php, DK (Some "LoginTimeout") [] TInteger (Some (VNum 15)) false false []);
       (python, DK (Some "Connection Timeout") [] TInteger (Some (VNum 15)) false false []);
       (rust, DK (Some "connect_timeout") [] TInteger (Some (VNum 15)) false false []) ];
  KW "commandtimeout" "Command Timeout" cat_timeout
    [ (sqlclient, DK (Some "Command Timeout") [] TInteger (Some (VNum 30)) false false []);
       (odbc, DK None [] TInteger None false false []);
       (oledb, DK None [] TInteger None false false []);
       (jdbc, DK (Some "queryTimeout") [] TInteger (Some (VNum 0)) false false []);
       (php, DK None [] TInteger None false false []);
       (python, DK None [] TInteger None false false []);
       (rust, DK (Some "command_timeout") [] TInteger None false false []) ];
  KW "applicationname" "Application Name" cat_appInfo
    [ (sqlclient, DK (Some "Application Name") ["App"] TString None false false []);
       (odbc, DK (Some "APP") [] TString None false false []);
       (oledb, DK (Some "Application Name") [] TString None false false []);
       (jdbc, DK (Some "applicationName") [] TString None false false []);
       (php, DK (Some "APP") [] TString None false false []);
       (python, DK (Some "Application Name") [] TString None false false []);
       (rust, DK (Some "application_name") [] TString None false false []) ];
  KW "workstationid" "Workstation ID" cat_appInfo
    [ (sqlclient, DK (Some "Workstation ID") ["WSID"] TString None false false []);
       (odbc, DK (Some "WSID") [] TString None false false []);
       (oledb, DK (Some "Workstation ID") [] TString None false false []);
       (jdbc, DK (Some "workstationID") [] TString None false false []);
       (php, DK (Some "WSID") [] TString None false false []);
       (python, DK None [] TString None false false []);
       (rust, DK None [] TString None false false []) ];
  KW "packetsize" "Packet Size" cat_network
    [ (sqlclient, DK (Some "Packet Size") [] TInteger (Some (VNum 8000)) false false []);
       (odbc, DK None [] TInteger None false false []);
       (oledb, DK (Some "Packet Size") [] TInteger (Some (VNum 4096)) false false []);
       (jdbc, DK (Some "packetSize") [] TInteger (Some (VNum 8000)) false false []);
       (php, DK None [] TInteger None false false []);
       (python, DK None [] TInteger None false false []);
       (rust, DK None [] TInteger None false false []) ];
  KW "multisubnetfailover" "MultiSubnetFailover" cat_hadr
    [ (sqlclient, DK (Some "MultiSubnetFailover") [] TBoolean (Some (VBool false)) false false []);
       (odbc, DK (Some "MultiSubnetFailover") [] TBoolean (Some (VBool false)) false false ["Yes"; "No"]);
       (oledb, DK (Some "MultiSubnetFailover") [] TBoolean (Some (VBool false)) false false []);
       (jdbc, DK (Some "multiSubnetFailover") [] TBoolean (Some (VBool false)) false false []);
       (php, DK (Some "MultiSubnetFailover") [] TBoolean (Some (VBool false)) false false []);
       (python, DK None [] TBoolean None false false []);
       (rust, DK None [] TBoolean None false false []) ];
  KW "failoverpartner" "Failover Partner" cat_hadr
    [ (sqlclient, DK (Some "Failover Partner") [] TString None false false []);
       (odbc, DK (Some "Failover_Partner") [] TString None false false []);
       (oledb, DK (Some "Failover Partner") [] TString None false false []);
       (jdbc, DK (Some "failoverPartner") [] TString None false false []);
       (php, DK (Some "Failover_Partner") [] TString None false false []);
       (python, DK None [] TString None false false []);
       (rust, DK None [] TString None false false []) ];
  KW "applicationintent" "Application Intent" cat_hadr
    [ (sqlclient, DK (Some "ApplicationIntent") [] TEnum None false false ["ReadWrite"; "ReadOnly"]);
       (odbc, DK (Some "ApplicationIntent") [] TEnum None false false ["ReadWrite"; "ReadOnly"]);
       (oledb, DK (Some "Application Intent") [] TEnum None false false ["ReadWrite"; "ReadOnly"]);
       (jdbc, DK (Some "applicationIntent") [] TEnum None false false ["ReadWrite"; "ReadOnly"]);
       (php, DK (Some "ApplicationIntent") [] TEnum None false false ["ReadWrite"; "ReadOnly"]);
       (python, DK None [] TEnum None false false []);
       (rust, DK None [] TEnum None false false []) ];
  KW "pooling" "Pooling" cat_pooling
    [ (sqlclient, DK (Some "Pooling") [] TBoolean (Some (VBool true)) false false []);
       (odbc, DK None [] TBoolean None false false []);
       (oledb, DK (Some "OLE DB Services") [] TInteger None false false []);
       (jdbc, DK None [] TBoolean None false false []);
       (php, DK (Some "ConnectionPooling") [] TBoolean (Some (VBool true)) false false []);
       (python, DK None [] TBoolean None false false []);
       (rust, DK None [] TBoolean None false false []) ];
  KW "minpoolsize" "Min Pool Size" cat_pooling
    [ (sqlclient, DK (Some "Min Pool Size") [] TInteger (Some (VNum 0)) false false []);
       (odbc, DK None [] TInteger None false false []);
       (oledb, DK None [] TInteger None false false []);
       (jdbc, DK None [] TInteger None false false []);
       (php, DK None [] TInteger None false false []);
       (python, DK None [] TInteger None false false []);
       (rust, DK None [] TInteger None false false []) ];
  KW "maxpoolsize" "Max Pool Size" cat_pooling
    [ (sqlclient, DK (Some "Max Pool Size") [] TInteger (Some (VNum 100)) false false []);
       (odbc, DK None [] TInteger None false false []);
       (oledb, DK None [] TInteger None false false []);
       (jdbc, DK None [] TInteger None false false []);
       (php, DK None [] TInteger None false false []);
       (python, DK None [] TInteger None false false []);
       (rust, DK None [] TInteger None false false []) ];
  KW "connectionlifetime" "Connection Lifetime" cat_pooling
    [ (sqlclient, DK (Some "Connection Lifetime") ["Load Balance Timeout"] TInteger (Some (VNum 0)) false false []);
       (odbc, DK None [] TInteger None false false []);
       (oledb, DK None [] TInteger None false false []);
       (jdbc, DK None [] TInteger None false false []);
       (php, DK None [] TInteger None false false []);
       (python, DK None [] TInteger None false false []);
       (rust, DK None [] TInteger None false false []) ];
  KW "mars" "Multiple Active Result Sets" cat_features
    [ (sqlclient, DK (Some "MultipleActiveResultSets") [] TBoolean (Some (VBool false)) false false []);
       (odbc, DK (Some "MARS_Connection") [] TBoolean (Some (VBool false)) false false ["Yes"; "No"]);
       (oledb, DK (Some "MARS Connection") [] TBoolean (Some (VBool false)) false false []);
       (jdbc, DK None [] TBoolean None false false []);
       (php, DK (Some "MultipleActiveResultSets") [] TBoolean (Some (VBool false)) false false []);
       (python, DK None [] TBoolean None false false []);
       (rust, DK None [] TBoolean None false false []) ];
  KW "attachdbfilename" "AttachDBFilename" cat_database
    [ (sqlclient, DK (Some "AttachDBFilename") ["Extended Properties"; "Initial File Name"] TString None false false []);
       (odbc, DK (Some "AttachDBFilename") [] TString None false false []);
       (oledb, DK (Some "AttachDBFilename") [] TString None false false []);
       (jdbc, DK None [] TString None false false []);
       (php, DK (Some "AttachDBFilename") [] TString None false false []);
       (python, DK None [] TString None false false []);
       (rust, DK None [] TString None false false []) ];
  KW "language" "Current Language" cat_database
    [ (sqlclient, DK (Some "Current Language") ["Language"] TString None false false []);
       (odbc, DK (Some "Language") [] TString None false false []);
       (oledb, DK (Some "Current Language") [] TString None false false []);
       (jdbc, DK None [] TString None false false []);
       (php, DK (Some "Language") [] TString None false false []);
       (python, DK None [] TString None false false []);
       (rust, DK None [] TString None false false []) ];
  KW "replication" "Replication" cat_features
    [ (sqlclient, DK (Some "Replication") [] TBoolean (Some (VBool false)) false false []);
       (odbc, DK None [] TBoolean None false false []);
       (oledb, DK None [] TBoolean None false false []);
       (jdbc, DK None [] TBoolean None false false []);
       (php, DK None [] TBoolean None false false []);
       (python, DK None [] TBoolean None false false []);
       (rust, DK None [] TBoolean None false false []) ];
  KW "driver" "Driver" cat_driver
    [ (sqlclient, DK None [] TString None false false []);
       (odbc, DK (Some "Driver") [] TString None true false []);
       (oledb, DK None [] TString None false false []);
       (jdbc, DK None [] TString None false false []);
       (php, DK None [] TString None false false []);
       (python, DK (Some "Driver") [] TString None false false []);
       (rust, DK None [] TString None false false []) ];
  KW "provider" "Provider" cat_driver
    [ (sqlclient, DK None [] TString None false false []);
       (odbc, DK None [] TString None false false []);
       (oledb, DK (Some "Provider") [] TString None true false []);
       (jdbc, DK None [] TString None false false []);
       (php, DK None [] TString None false false []);
       (python, DK None [] TString None false false []);
       (rust, DK None [] TString None false false []) ];
  KW "typesystemversion" "Type System Version" cat_driver
    [ (sqlclient, DK (Some "Type System Version") [] TEnum None false false ["SQL Server 2000"; "SQL Server 2005"; "SQL Server 2008"; "SQL Server 2012"; "Latest"]);
       (odbc, DK None [] TEnum None false false []);
       (oledb, DK None [] TEnum None false false []);
       (jdbc, DK None [] TEnum None false false []);
       (php, DK None [] TEnum None false false []);
       (python, DK None [] TEnum None false false []);
       (rust, DK None [] TEnum None false false []) ];
  KW "connectretrycount" "Connect Retry Count" cat_resiliency
    [ (sqlclient, DK (Some "ConnectRetryCount") [] TInteger (Some (VNum 1)) false false []);
       (odbc, DK (Some "ConnectRetryCount") [] TInteger (Some (VNum 1)) false false []);
       (oledb, DK None [] TInteger None false false []);
       (jdbc, DK (Some "connectRetryCount") [] TInteger (Some (VNum 1)) false false []);
       (php, DK (Some "ConnectRetryCount") [] TInteger (Some (VNum 1)) false false []);
       (python, DK None [] TInteger None false false []);
       (rust, DK None [] TInteger None false false []) ];
  KW "connectretryinterval" "Connect Retry Interval" cat_resiliency
    [ (sqlclient, DK (Some "ConnectRetryInterval") [] TInteger (Some (VNum 10)) false false []);
       (odbc, DK (Some "ConnectRetryInterval") [] TInteger (Some (VNum 10)) false false []);
       (oledb, DK None [] TInteger None false false []);
       (jdbc, DK (Some "connectRetryInterval") [] TInteger (Some (VNum 10)) false false []);
       (php, DK (Some "ConnectRetryInterval") [] TInteger (Some (VNum 10)) false false []);
       (python, DK None [] TInteger None false false []);
       (rust, DK None [] TInteger None false false []) ];
  KW "persistsecurityinfo" "Persist Security Info" cat_security
    [ (sqlclient, DK (Some "Persist Security Info") ["PersistSecurityInfo"] TBoolean (Some (VBool false)) false false []);
       (odbc, DK None [] TBoolean None false false []);
       (oledb, DK (Some "Persist Security Info") [] TBoolean (Some (VBool false)) false false []);
       (jdbc, DK None [] TBoolean None false false []);
       (php, DK None [] TBoolean None false false []);
       (python, DK None [] TBoolean None false false []);
       (rust, DK None [] TBoolean None false false []) ];
  KW "enlist" "Enlist" cat_behavior
    [ (sqlclient, DK (Some "Enlist") [] TBoolean (Some (VBool true)) false false []);
       (odbc, DK None [] TBoolean None false false []);
       (oledb, DK None [] TBoolean None false false []);
       (jdbc, DK None [] TBoolean None false false []);
       (php, DK None [] TBoolean None false false []);
       (python, DK None [] TBoolean None false false []);
       (rust, DK None [] TBoolean None false false []) ];
  KW "ipaddresspreference" "IP Address Preference" cat_connection
    [ (sqlclient, DK (Some "IPAddressPreference") ["IP Address Preference"] TEnum (Some (VStr "IPv4First")) false false ["IPv4First"; "IPv6First"; "UsePlatformDefault"]);
       (odbc, DK None [] TEnum None false false []);
       (oledb, DK None [] TEnum None false false []);
       (jdbc, DK None [] TEnum None false false []);
       (php, DK None [] TEnum None false false []);
       (python, DK None [] TEnum None false false []);
       (rust, DK None [] TEnum None false false []) ];
  KW "poolblockingperiod" "Pool Blocking Period" cat_pooling
    [ (sqlclient, DK (Some "PoolBlockingPeriod") ["Pool Blocking Period"] TEnum (Some (VStr "Auto")) false false ["Auto"; "AlwaysBlock"; "NeverBlock"]);
       (odbc, DK None [] TEnum None false false []);
       (oledb, DK None [] TEnum None false false []);
       (jdbc, DK None [] TEnum None false false []);
       (php, DK None [] TEnum None false false []);
       (python, DK None [] TEnum None false false []);
       (rust, DK None [] TEnum None false false []) ];
  KW "attestationprotocol" "Attestation Protocol" cat_security
    [ (sqlclient, DK (Some "Attestation Protocol") [] TEnum (Some (VStr "NotSpecified")) false false ["NotSpecified"; "AAS"; "HGS"; "None"]);
       (odbc, DK None [] TEnum None false false []);
       (oledb, DK None [] TEnum None false false []);
       (jdbc, DK (Some "enclaveAttestationProtocol") [] TEnum None false false ["HGS"; "AAS"; "NONE"]);
       (php, DK None [] TEnum None false false []);
       (python, DK None [] TEnum None false false []);
       (rust, DK None [] TEnum None false false []) ];
  KW "enclaveattestationurl" "Enclave Attestation URL" cat_security
    [ (sqlclient, DK (Some "Enclave Attestation Url") [] TString None false false []);
       (odbc, DK None [] TString None false false []);
       (oledb, DK None [] TString None false false []);
       (jdbc, DK (Some "enclaveAttestationUrl") [] TString None false false []);
       (php, DK None [] TString None false false []);
       (python, DK None [] TString None false false []);
       (rust, DK None [] TString None false false []) ];
  KW "servercertificate" "Server Certificate" cat_security
    [ (sqlclient, DK (Some "ServerCertificate") ["Server Certificate"] TString None false false []);
       (odbc, DK None [] TString None false false []);
       (oledb, DK None [] TString None false false []);
       (jdbc, DK None [] TString None false false []);
       (php, DK None [] TString None false false []);
       (python, DK None [] TString None false false []);
       (rust, DK None [] TString None false false []) ];
  KW "serverspn" "Server SPN" cat_auth
    [ (sqlclient, DK (Some "ServerSPN") ["Server SPN"] TString None false false []);
       (odbc, DK (Some "ServerSPN") [] TString None false false []);
       (oledb, DK None [] TString None false false []);
       (jdbc, DK (Some "serverSpn") [] TString None false false []);
       (php, DK None [] TString None false false []);
       (python, DK None [] TString None false false []);
       (rust, DK None [] TString None false false []) ];
  KW "failoverpartnerspn" "Failover Partner SPN" cat_hadr
    [ (sqlclient, DK (Some "FailoverPartnerSPN") ["Failover Partner SPN"] TString None false false []);
       (odbc, DK (Some "FailoverPartnerServerSPN") [] TString None false false []);
       (oledb, DK None [] TString None false false []);
       (jdbc, DK (Some "failoverPartnerSpn") [] TString None false false []);
       (php, DK None [] TString None false false []);
       (python, DK None [] TString None false false []);
       (rust, DK None [] TString None false false []) ];
  KW "userinstance" "User Instance" cat_connection
    [ (sqlclient, DK (Some "User Instance") [] TBoolean (Some (VBool false)) false false []);
       (odbc, DK None [] TBoolean None false false []);
       (oledb, DK None [] TBoolean None false false []);
       (jdbc, DK None [] TBoolean None false false []);
       (php, DK None [] TBoolean None false false []);
       (python, DK None [] TBoolean None false false []);
       (rust, DK None [] TBoolean None false false []) ];
  KW "transactionbinding" "Transaction Binding" cat_behavior
    [ (sqlclient, DK (Some "Transaction Binding") [] TEnum (Some (VStr "Implicit Unbind")) false false ["Implicit Unbind"; "Explicit Unbind"]);
       (odbc, DK None [] TEnum None false false []);
       (oledb, DK None [] TEnum None false false []);
       (jdbc, DK None [] TEnum None false false []);
       (php, DK None [] TEnum None false false []);
       (python, DK None [] TEnum None false false []);
       (rust, DK None [] TEnum None false false []) ];
  KW "transparentnetworkipresolution" "Transparent Network IP Resolution" cat_connection
    [ (sqlclient, DK (Some "TransparentNetworkIPResolution") ["Transparent Network IP Resolution"] TBoolean (Some (VBool true)) false false []);
       (odbc, DK (Some "TransparentNetworkIPResolution") [] TBoolean None false false []);
       (oledb, DK None [] TBoolean None false false []);
       (jdbc, DK None [] TBoolean None false false []);
       (php, DK (Some "TransparentNetworkIPResolution") [] TBoolean None false false []);
       (python, DK None [] TBoolean None false false []);
       (rust, DK None [] TBoolean None false false []) ];
  KW "networklibrary" "Network Library" cat_connection
    [ (sqlclient, DK (Some "Network Library") ["Network"; "Net"] TString None false false []);
       (odbc, DK (Some "Network") [] TString None false false []);
       (oledb, DK (Some "Network Library") [] TString None false false []);
       (jdbc, DK None [] TString None false false []);
       (php, DK None [] TString None false false []);
       (python, DK None [] TString None false false []);
       (rust, DK None [] TString None false false []) ] ].

Definition getKeywordById (id : string) : option Keyword :=
  find (fun k => String.eqb (kw_id k) (JS.toLowerCase id)) keywords.

End Keywords.

(* ------------------------------------------------------------------ *)
(** ** data/synonyms.ts *)

Module Synonyms.

Definition SynonymMap := JSMap.t string.

(** The module state: [globalSynonyms] and [driverSynonyms]. *)
Record SynonymMaps := {
  globalSynonyms : SynonymMap;
  driverSynonyms : list (DriverType * SynonymMap)
}.

Fixpoint driverMapGet (d : DriverType) (l : list (DriverType * SynonymMap)) : SynonymMap :=
  match l with
  | [] => []
  | (d', m) :: l' => if DriverType_eqb d d' then m else driverMapGet d l'
  end.

Fixpoint driverMapUpdate (d : DriverType) (f : SynonymMap -> SynonymMap)
  (l : list (DriverType * SynonymMap)) : list (DriverType * SynonymMap) :=
  match l with
  | [] => []
  | (d', m) :: l' =>
      if DriverType_eqb d d' then (d', f m) :: l' else (d', m) :: driverMapUpdate d f l'
  end.

Definition emptyMaps : SynonymMaps :=
  {| globalSynonyms := [];
     driverSynonyms := map (fun d => (d, [])) ALL_DRIVERS |}.

(** [driverMap.set(k, id); globalSynonyms.set(k, id)]. *)
Definition setBoth (d : DriverType) (k id : string) (st : SynonymMaps) : SynonymMaps :=
  {| globalSynonyms := JSMap.set k id (globalSynonyms st);
     driverSynonyms := driverMapUpdate d (JSMap.set k id) (driverSynonyms st) |}.

(** A spelling is entered twice: lowercased without blanks, and lowercased. *)
Definition addSpelling (d : DriverType) (id : string) (st : SynonymMaps) (spelling : string)
  : SynonymMaps :=
  let st1 := setBoth d (JS.removeSpaces (JS.toLowerCase spelling)) id st in
  setBoth d (JS.toLowerCase spelling) id st1.

Definition addDriverKeyword (id : string) (st : SynonymMaps)
  (entry : DriverType * DriverKeyword) : SynonymMaps :=
  let '(d, dkw) := entry in
  let st1 :=
    match dk_name dkw with
    | Some n => if JS.truthy n then addSpelling d id st n else st
    | None => st
    end in
  fold_left (addSpelling d id) (dk_synonyms dkw) st1.

Definition buildSynonymMaps : SynonymMaps :=
  fold_left (fun st k => fold_left (addDriverKeyword (kw_id k)) (kw_drivers k) st)
            Keywords.keywords emptyMaps.

(** The maps as the module holds them once [buildSynonymMaps()] has run at
    load time. *)
Definition synonymMaps : SynonymMaps := Eval vm_compute in buildSynonymMaps.

Definition resolveKeyword (keywordName : string) (driver : option DriverType) : option string :=
  let normalized := JS.removeSpaces (JS.toLowerCase keywordName) in
  match driver with
  | Some d =>
      if JSMap.has normalized (driverMapGet d (driverSynonyms synonymMaps))
      then JSMap.get normalized (driverMapGet d (driverSynonyms synonymMaps))
      else JSMap.get normalized (globalSynonyms synonymMaps)
  | None => JSMap.get normalized (globalSynonyms synonymMaps)
  end.

Definition isKnownKeyword (keywordName : string) (driver : option DriverType) : bool :=
  match resolveKeyword keywordName driver with Some _ => true | None => false end.


(** [[...new Set(l)]]: the first occurrence of each element, in order. *)
Fixpoint dedupe (seen : list string) (l : list string) : list string :=
  match l with
  | [] => []
  | x :: l' => if JS.mem x seen then dedupe seen l' else x :: dedupe (x :: seen) l'
  end.

(** The spellings one driver entry contributes: its name when truthy, then
    its synonyms. *)
Definition spellingsOf (driverKeyword : DriverKeyword) : list string :=
  List.app
    (match dk_name driverKeyword with
     | Some n => if JS.truthy n then [n] else []
     | None => []
     end)
    (dk_synonyms driverKeyword).

Definition getSynonymsForKeyword (canonicalId : string) (driver : option DriverType)
  : list string :=
  match find (fun k => String.eqb (kw_id k) canonicalId) Keywords.keywords with
  | None => []
  | Some keyword =>
      let synonyms :=
        match driver with
        | Some d =>
            match driversGet d (kw_drivers keyword) with
            | Some driverKeyword => spellingsOf driverKeyword
            | None => []
            end
        | None => flat_map (fun e => spellingsOf (snd e)) (kw_drivers keyword)
        end in
      dedupe [] synonyms
  end.

End Synonyms.

(* ------------------------------------------------------------------ *)
(** ** data/defaults.ts *)

Module Defaults.

Definition DefaultsMap := JSMap.t JSValue.

Fixpoint defaultsGet (d : DriverType) (l : list (DriverType * DefaultsMap)) : DefaultsMap :=
  match l with
  | [] => []
  | (d', m) :: l' => if DriverType_eqb d d' then m else defaultsGet d l'
  end.

Fixpoint defaultsUpdate (d : DriverType) (f : DefaultsMap -> DefaultsMap)
  (l : list (DriverType * DefaultsMap)) : list (DriverType * DefaultsMap) :=
  match l with
  | [] => []
  | (d', m) :: l' =>
      if DriverType_eqb d d' then (d', f m) :: l' else (d', m) :: defaultsUpdate d f l'
  end.

Definition buildDefaultMaps : list (DriverType * DefaultsMap) :=
  fold_left
    (fun st k =>
       fold_left
         (fun st' (entry : DriverType * DriverKeyword) =>
            match dk_defaultValue (snd entry) with
            | None => st'
            | Some v => defaultsUpdate (fst entry) (JSMap.set (kw_id k) v) st'
            end)
         (kw_drivers k) st)
    Keywords.keywords
    (map (fun d => (d, [])) ALL_DRIVERS).

(** The maps as the module holds them once [buildDefaultMaps()] has run at
    load time. *)
Definition driverDefaults : list (DriverType * DefaultsMap) :=
  Eval vm_compute in buildDefaultMaps.

Definition getDefaultValue (keywordId : string) (driver : DriverType) : option JSValue :=
  JSMap.get keywordId (defaultsGet driver driverDefaults).

(** [String(value)]. *)
Definition toStr (v : JSValue) : string :=
  match v with
  | VStr s => s
  | VBool b => JS.ofBool b
  | VNum n => JS.ofN n
  end.

Definition normalizeBooleanValue (value : JSValue) : option bool :=
  match value with
  | VBool b => Some b
  | VNum n => Some (negb (N.eqb n 0))
  | VStr s =>
      let lower := JS.trim (JS.toLowerCase s) in
      if JS.mem lower ["true"; "yes"; "1"; "on"; "sspi"] then Some true
      else if JS.mem lower ["false"; "no"; "0"; "off"] then Some false
      else None
  end.

Definition formatBooleanForDriver (value : bool) (driver : DriverType) : string :=
  match driver with
  | sqlclient => if value then "True" else "False"
  | odbc => if value then "Yes" else "No"
  | oledb => if value then "True" else "False"
  | jdbc => if value then "true" else "false"
  | php => if value then "true" else "false"
  | python => if value then "True" else "False"
  | rust => if value then "true" else "false"
  end.

(** [value1 === value2]. *)
Definition strictEq (a b : JSValue) : bool :=
  match a, b with
  | VStr x, VStr y => String.eqb x y
  | VBool x, VBool y => Bool.eqb x y
  | VNum x, VNum y => N.eqb x y
  | _, _ => false
  end.

Definition areValuesFunctionallyEqual (value1 value2 : JSValue) : bool :=
  if strictEq value1 value2 then true
  else
    match value1, value2 with
    | VBool a, VBool b => Bool.eqb a b
    | VNum a, VNum b => N.eqb a b
    | _, _ =>
        let str1 := JS.trim (JS.toLowerCase (toStr value1)) in
        let str2 := JS.trim (JS.toLowerCase (toStr value2)) in
        if String.eqb str1 str2 then true
        else
          let unspecifiedValues := ["undefined"; "notspecified"; "none"; ""] in
          if JS.mem str1 unspecifiedValues && JS.mem str2 unspecifiedValues then true
          else
            let zeroEquivValues := ["0"; "undefined"; ""] in
            if JS.mem str1 zeroEquivValues && JS.mem str2 zeroEquivValues then true
            else
              let falseEquivValues := ["false"; "no"; "0"; "off"; "undefined"; ""] in
              if JS.mem str1 falseEquivValues && JS.mem str2 falseEquivValues then true
              else
                match normalizeBooleanValue (VStr str1), normalizeBooleanValue (VStr str2) with
                | Some bool1, Some bool2 => Bool.eqb bool1 bool2
                | _, _ => String.eqb str1 str2
                end
    end.

Definition doDefaultsDiffer (keywordId : string) (sourceDriver targetDriver : DriverType) : bool :=
  let sourceDefault := getDefaultValue keywordId sourceDriver in
  let targetDefault := getDefaultValue keywordId targetDriver in
  match sourceDefault, targetDefault with
  | None, None => false
  | Some s, Some t => negb (areValuesFunctionallyEqual s t)
  | _, _ =>
      let val1 := match sourceDefault with None => "undefined" | Some s => toStr s end in
      let val2 := match targetDefault with None => "undefined" | Some t => toStr t end in
      negb (areValuesFunctionallyEqual (VStr val1) (VStr val2))
  end.

End Defaults.

(* ------------------------------------------------------------------ *)
(** ** drivers/python.ts and drivers/rust.ts *)

Module Python.

Definition PYTHON_BLOCKED_KEYWORDS : list string :=
  [ "attachdbfilename"; "autotranslate"; "contextconnection"; "currentlanguage";
    "enlist"; "extendedansitype"; "failoverpartner"; "initialcatalog";
    "loadbalancetimeout"; "minpoolsize"; "maxpoolsize"; "multipleactiveresultsets";
    "multisubnetfailover"; "networkaddress"; "packetsize"; "persistsecurityinfo";
    "pooling"; "replication"; "transactionbinding"; "typeystemversion";
    "userinstance"; "workstationid" ].

Definition isPythonBlockedKeyword (keyword : string) : bool :=
  JS.mem (JS.removeSpaces (JS.toLowerCase keyword)) PYTHON_BLOCKED_KEYWORDS.

End Python.

Module Rust.

Definition RUST_FIELD_MAPPINGS : JSMap.t string :=
  [ ("server", "transport_context.host");
    ("port", "transport_context.port");
    ("database", "database");
    ("user", "auth.user");
    ("password", "auth.password");
    ("encrypt", "encryption_options.mode");
    ("trustservercertificate", "encryption_options.trust_server_certificate");
    ("hostnameincertificate", "encryption_options.host_name_in_cert");
    ("integratedsecurity", "auth.integrated_security");
    ("authentication", "auth.authentication_method");
    ("connecttimeout", "connect_timeout");
    ("commandtimeout", "command_timeout");
    ("applicationname", "application_name");
    ("trustservercertificateca", "encryption_options.trust_cert_ca") ].

Definition getRustFieldPath (keywordId : string) : option string :=
  JSMap.get (JS.removeSpaces (JS.toLowerCase keywordId)) RUST_FIELD_MAPPINGS.

End Rust.

(* ------------------------------------------------------------------ *)
(** ** Regular expressions, as far as [RegExp.prototype.test] needs them

    [test] only asks whether some match exists, so a pattern is read as a
    language and matched with derivatives.  A pattern is a body, optionally
    anchored at the start ([^]) or preceded by a word boundary ([\b]). *)

Module Regex.

Inductive re :=
  | Void
  | Eps
  | Cls (p : ascii -> bool)
  | Cat (a b : re)
  | Alt (a b : re)
  | Star (a : re).

Fixpoint nullable (r : re) : bool :=
  match r with
  | Void => false
  | Eps => true
  | Cls _ => false
  | Cat a b => nullable a && nullable b
  | Alt a b => nullable a || nullable b
  | Star _ => true
  end.

Definition cat (a b : re) : re :=
  match a with Void => Void | _ => Cat a b end.

Definition alt (a b : re) : re :=
  match a, b with
  | Void, _ => b
  | _, Void => a
  | _, _ => Alt a b
  end.

Fixpoint deriv (c : ascii) (r : re) : re :=
  match r with
  | Void => Void
  | Eps => Void
  | Cls p => if p c then Eps else Void
  | Cat a b =>
      if nullable a then alt (cat (deriv c a) b) (deriv c b) else cat (deriv c a) b
  | Alt a b => alt (deriv c a) (deriv c b)
  | Star a => cat (deriv c a) (Star a)
  end.

(** Some prefix of [s] belongs to the language of [r]. *)
Fixpoint matchesPrefix (r : re) (s : string) : bool :=
  nullable r ||
  match s with
  | EmptyString => false
  | String c s' => matchesPrefix (deriv c r) s'
  end.

Definition isWordOpt (c : option ascii) : bool :=
  match c with Some x => JS.is_word x | None => false end.

Definition headChar (s : string) : option ascii :=
  match s with String c _ => Some c | EmptyString => None end.

(** [\b] between the character [prev] and the text [s] that follows it. *)
Definition boundaryAt (prev : option ascii) (s : string) : bool :=
  xorb (isWordOpt prev) (isWordOpt (headChar s)).

Record pattern := {
  anchored : bool;
  boundary : bool;
  body : re
}.

Fixpoint searchFrom (p : pattern) (prev : option ascii) (s : string) : bool :=
  ((negb (boundary p) || boundaryAt prev s) && matchesPrefix (body p) s) ||
  match s with
  | EmptyString => false
  | String c s' => searchFrom p (Some c) s'
  end.

Definition test (p : pattern) (s : string) : bool :=
  if anchored p then matchesPrefix (body p) s else searchFrom p None s.

(** Combinators for the bodies. *)
Definition chr (c : ascii) : re := Cls (Ascii.eqb c).
Definition ichr (c : ascii) : re := Cls (fun x => Ascii.eqb (JS.lower x) (JS.lower c)).
Definition notc (c : ascii) : re := Cls (fun x => negb (Ascii.eqb x c)).
Definition ws : re := Star (Cls JS.is_space).
Definition digits1 : re := Cat (Cls JS.is_digit) (Star (Cls JS.is_digit)).
Definition opt (r : re) : re := Alt Eps r.

(** A literal, matched as it is written. *)
Fixpoint lit (s : string) : re :=
  match s with
  | EmptyString => Eps
  | String c s' => Cat (chr c) (lit s')
  end.

(** A literal under the [i] flag. *)
Fixpoint ilit (s : string) : re :=
  match s with
  | EmptyString => Eps
  | String c s' => Cat (ichr c) (ilit s')
  end.

Fixpoint seq (l : list re) : re :=
  match l with
  | [] => Eps
  | r :: l' => Cat r (seq l')
  end.

(** [/^body/], [/\bbody/] and [/body/]. *)
Definition atStart (r : re) : pattern := {| anchored := true; boundary := false; body := r |}.
Definition atWord (r : re) : pattern := {| anchored := false; boundary := true; body := r |}.
Definition anywhere (r : re) : pattern := {| anchored := false; boundary := false; body := r |}.

End Regex.

(* ------------------------------------------------------------------ *)
(** ** translator/detector.ts *)

Inductive DetectionConfidence := high | medium | low | manual.

Module Detector.

Import Regex.

Record DetectionResult := {
  driver : DriverType;
  confidence : DetectionConfidence;
  matchedPattern : option string
}.

Record DetectionPattern := {
  dp_pattern : pattern;
  dp_driver : DriverType;
  dp_confidence : DetectionConfidence;
  dp_description : string
}.

Definition DP (p : pattern) (d : DriverType) (c : DetectionConfidence) (s : string) :=
  {| dp_pattern := p; dp_driver := d; dp_confidence := c; dp_description := s |}.

Definition DETECTION_PATTERNS : list DetectionPattern :=
  [ (* /^jdbc:sqlserver:\/\//i *)
    DP (atStart (ilit "jdbc:sqlserver://")) jdbc high "JDBC URL prefix";
    (* /\bDriver\s*=\s*\{[^}]*SQL\s*Server[^}]*\}/i *)
    DP (atWord (seq [ilit "Driver"; ws; chr "="; ws; chr "{"; Star (notc "}");
                     ilit "SQL"; ws; ilit "Server"; Star (notc "}"); chr "}"]))
       odbc high "ODBC Driver specification";
    (* /\bDriver\s*=\s*\{?ODBC\s*Driver\s*\d+/i *)
    DP (atWord (seq [ilit "Driver"; ws; chr "="; ws; opt (chr "{");
                     ilit "ODBC"; ws; ilit "Driver"; ws; digits1]))
       odbc high "ODBC Driver version";
    (* /\bDriver\s*=\s*\{?SQL\s*Server\s*Native\s*Client/i *)
    DP (atWord (seq [ilit "Driver"; ws; chr "="; ws; opt (chr "{");
                     ilit "SQL"; ws; ilit "Server"; ws; ilit "Native"; ws; ilit "Client"]))
       odbc high "SQL Server Native Client";
    (* /\bProvider\s*=\s*MSOLEDBSQL/i *)
    DP (atWord (seq [ilit "Provider"; ws; chr "="; ws; ilit "MSOLEDBSQL"]))
       oledb high "MSOLEDBSQL Provider";
    (* /\bProvider\s*=\s*SQLOLEDB/i *)
    DP (atWord (seq [ilit "Provider"; ws; chr "="; ws; ilit "SQLOLEDB"]))
       oledb high "SQLOLEDB Provider";
    (* /\bProvider\s*=\s*SQLNCLI/i *)
    DP (atWord (seq [ilit "Provider"; ws; chr "="; ws; ilit "SQLNCLI"]))
       oledb high "SQL Native Client Provider";
    (* /ClientContext\s*\{/ *)
    DP (anywhere (seq [lit "ClientContext"; ws; chr "{"]))
       rust high "Rust ClientContext struct";
    (* /transport_context\s*:/ *)
    DP (anywhere (seq [lit "transport_context"; ws; chr ":"]))
       rust high "Rust transport_context field";
    (* /mssql\+pyodbc:\/\//i *)
    DP (anywhere (ilit "mssql+pyodbc://"))
       python high "Python mssql+pyodbc URL";
    (* /\bIntegrated\s*Security\s*=/i *)
    DP (atWord (seq [ilit "Integrated"; ws; ilit "Security"; ws; chr "="]))
       sqlclient high "SqlClient Integrated Security";
    (* /\bTrust\s*Server\s*Certificate\s*=/i *)
    DP (atWord (seq [ilit "Trust"; ws; ilit "Server"; ws; ilit "Certificate"; ws; chr "="]))
       sqlclient medium "TrustServerCertificate keyword";
    (* /\bMultipleActiveResultSets\s*=/i *)
    DP (atWord (seq [ilit "MultipleActiveResultSets"; ws; chr "="]))
       sqlclient high "SqlClient MARS keyword";
    (* /\bApplication\s*Name\s*=/i *)
    DP (atWord (seq [ilit "Application"; ws; ilit "Name"; ws; chr "="]))
       sqlclient medium "Application Name keyword";
    (* /\bLoginTimeout\s*=/i *)
    DP (atWord (seq [ilit "LoginTimeout"; ws; chr "="]))
       php medium "PHP LoginTimeout keyword";
    (* /\bConnectionPooling\s*=/i *)
    DP (atWord (seq [ilit "ConnectionPooling"; ws; chr "="]))
       php medium "PHP ConnectionPooling keyword";
    (* /\bTrusted_Connection\s*=/i *)
    DP (atWord (seq [ilit "Trusted_Connection"; ws; chr "="]))
       odbc medium "ODBC Trusted_Connection";
    (* /\bMARS_Connection\s*=/i *)
    DP (atWord (seq [ilit "MARS_Connection"; ws; chr "="]))
       odbc medium "ODBC MARS_Connection" ].

(** The [indicators] object: one score per driver, in the order of its keys. *)
Definition Indicators := list (DriverType * nat).

Fixpoint addScore (d : DriverType) (n : nat) (ind : Indicators) : Indicators :=
  match ind with
  | [] => []
  | (d', s) :: ind' =>
      if DriverType_eqb d d' then (d', s + n) :: ind' else (d', s) :: addScore d n ind'
  end.

Definition bump (cond : bool) (d : DriverType) (n : nat) (ind : Indicators) : Indicators :=
  if cond then addScore d n ind else ind.

Definition countIndicators (input : string) : Indicators :=
  let lower := JS.toLowerCase input in
  let i0 := map (fun d => (d, 0)) ALL_DRIVERS in
  (* SqlClient indicators *)
  let i1 := bump (test (atWord (seq [ilit "user"; ws; ilit "id"; ws; chr "="])) input) sqlclient 2 i0 in
  let i2 := bump (test (atWord (seq [ilit "data"; ws; ilit "source"; ws; chr "="])) input) sqlclient 1 i1 in
  let i3 := bump (test (atWord (seq [ilit "initial"; ws; ilit "catalog"; ws; chr "="])) input) sqlclient 1 i2 in
  let i4 := bump (test (atWord (seq [ilit "persist"; ws; ilit "security"; ws; ilit "info"; ws; chr "="])) input)
                 sqlclient 2 i3 in
  (* ODBC indicators *)
  let i5 := bump (test (atWord (seq [ilit "uid"; ws; chr "="])) input) odbc 1 i4 in
  let i6 := bump (test (atWord (seq [ilit "pwd"; ws; chr "="])) input) odbc 1 i5 in
  let i7 := bump (test (atWord (seq [ilit "dsn"; ws; chr "="])) input) odbc 3 i6 in
  (* OLEDB indicators *)
  let i8 := bump (test (atWord (seq [ilit "ole"; ws; ilit "db"; ws; ilit "services"; ws; chr "="])) input)
                 oledb 3 i7 in
  (* JDBC indicators *)
  let i9 := bump (JS.includes "databasename=" lower) jdbc 2 i8 in
  let i10 := bump (JS.includes "logintimeout=" lower) jdbc 1 i9 in
  (* PHP indicators *)
  let i11 := bump (JS.includes "returnvaluesonnulls=" lower) php 2 i10 in
  let i12 := bump (JS.includes "scrollablecursor=" lower) php 2 i11 in
  (* Python indicators *)
  let i13 := bump (JS.includes "mssql+pyodbc" lower) python 3 i12 in
  (* Rust indicators *)
  bump (JS.includes "to_string()" lower) rust 3 i13.

(** The loop that finds the highest score: a later driver replaces the
    current one only with a strictly greater score. *)
Definition pickHighest (ind : Indicators) : nat * DriverType :=
  fold_left
    (fun (acc : nat * DriverType) (e : DriverType * nat) =>
       if (fst acc <? snd e)%nat then (snd e, fst e) else acc)
    ind (0, sqlclient).

Definition confidenceOf (maxScore : nat) : DetectionConfidence :=
  let c1 := if (3 <=? maxScore)%nat then medium else low in
  if (5 <=? maxScore)%nat then high else c1.

Definition analyzeKeywords (input : string) : DetectionResult :=
  let indicators := countIndicators input in
  let '(maxScore, detected) := pickHighest indicators in
  {| driver := detected;
     confidence := confidenceOf maxScore;
     matchedPattern :=
       Some (if (0 <? maxScore)%nat then "Keyword analysis" else "Default (no patterns matched)") |}.

Definition detect (input : string) : DetectionResult :=
  let trimmed := JS.trim input in
  match find (fun p => test (dp_pattern p) trimmed) DETECTION_PATTERNS with
  | Some p =>
      {| driver := dp_driver p;
         confidence := dp_confidence p;
         matchedPattern := Some (dp_description p) |}
  | None => analyzeKeywords trimmed
  end.


Definition isDriverFormat (input : string) (d : DriverType) : bool :=
  let result := detect input in
  DriverType_eqb (driver result) d
  && negb (match confidence result with low => true | _ => false end).

End Detector.

(* ------------------------------------------------------------------ *)
(** ** translator/types.ts: the parsing types *)

Record Position := { p_start : nat; p_end : nat }.

Record ParsedValue := {
  raw : string;
  normalized : string;
  position : Position;
  wasQuoted : bool;
  originalKeyword : option string
}.

Record JdbcUrlComponents := {
  host : string;
  port : N;
  instanceName : option string;
  properties : JSMap.t string
}.

Inductive ParseErrorCode :=
  | UNMATCHED_QUOTE | UNMATCHED_BRACE | INVALID_SYNTAX | EMPTY_INPUT
  | UNRECOGNIZED_FORMAT | INPUT_TOO_LARGE.

Record ParseError := {
  pe_code : ParseErrorCode;
  pe_message : string;
  pe_position : option Position;
  pe_suggestion : option string
}.

Inductive ParseWarningCode :=
  | UNKNOWN_KEYWORD | DUPLICATE_KEYWORD | MISSING_REQUIRED
  | DEPRECATED_KEYWORD | CONFLICTING_KEYWORDS.

Record ParseWarning := {
  pw_code : ParseWarningCode;
  pw_message : string;
  pw_keyword : option string;
  pw_position : option Position
}.

Record ParsedConnectionString := {
  pcs_driver : DriverType;
  pcs_confidence : DetectionConfidence;
  pcs_pairs : JSMap.t ParsedValue;
  pcs_originalInput : string;
  pcs_errors : list ParseError;
  pcs_warnings : list ParseWarning;
  pcs_jdbcUrl : option JdbcUrlComponents
}.

(* ------------------------------------------------------------------ *)
(** ** translator/parser.ts *)

Module Parser.

Inductive ParserState := KEY | VALUE | QUOTED | BRACED | DONE.

(** One entry of [parseKeyValuePairs(...).pairs]: key, value, position. *)
Definition Token := (string * string * Position)%type.

Definition tokKey (t : Token) : string := fst (fst t).
Definition tokValue (t : Token) : string := snd (fst t).
Definition tokPos (t : Token) : Position := snd t.

Definition str1 (c : ascii) : string := String c EmptyString.

(** [if (currentKey) pairs.push([...])], ahead of what the rest of the scan
    produces. *)
Definition push (currentKey : string) (t : Token)
  (r : list Token * list ParseError) : list Token * list ParseError :=
  if JS.truthy currentKey then (t :: fst r, snd r) else r.

(** The iteration [i = input.length] of the loop: [char] is [;] and [isEnd]
    holds. *)
Definition finish (state : ParserState) (currentKey currentValue : string)
  (keyStart valueStart : nat) (quoteChar : string) (braceDepth : nat) (i : nat)
  : list Token * list ParseError :=
  match state with
  | KEY => ([], [])
  | VALUE =>
      push currentKey (currentKey, JS.trim currentValue, {| p_start := keyStart; p_end := i |})
           ([], [])
  | QUOTED =>
      let currentValue := currentValue ++ ";" in
      push currentKey (currentKey, currentValue, {| p_start := keyStart; p_end := i |})
           ([], [ {| pe_code := UNMATCHED_QUOTE;
                     pe_message := "Unclosed quote starting at position " ++ JS.ofNat valueStart;
                     pe_position := Some {| p_start := valueStart; p_end := i |};
                     pe_suggestion := Some ("Add closing " ++ quoteChar ++ " character") |} ])
  | BRACED =>
      let currentValue := currentValue ++ ";" in
      if (0 <? braceDepth)%nat then
        push currentKey (currentKey, currentValue, {| p_start := keyStart; p_end := i |})
             ([], [ {| pe_code := UNMATCHED_BRACE;
                       pe_message := "Unclosed brace starting at position " ++ JS.ofNat valueStart;
                       pe_position := Some {| p_start := valueStart; p_end := i |};
                       pe_suggestion := Some "Add closing } character" |} ])
      else ([], [])
  | DONE => ([], [])
  end.

(** The iterations [i < input.length]: [rest] is [input] from offset [i]. *)
Fixpoint scan (state : ParserState) (currentKey currentValue : string)
  (keyStart valueStart : nat) (quoteChar : string) (braceDepth : nat) (i : nat)
  (rest : string) {struct rest} : list Token * list ParseError :=
  match rest with
  | EmptyString =>
      finish state currentKey currentValue keyStart valueStart quoteChar braceDepth i
  | String char rest' =>
      match state with
      | KEY =>
          if Ascii.eqb char "=" then
            scan VALUE (JS.trim currentKey) currentValue keyStart (i + 1) quoteChar braceDepth
                 (S i) rest'
          else if Ascii.eqb char ";" then
            scan KEY "" currentValue keyStart valueStart quoteChar braceDepth (S i) rest'
          else
            scan KEY (currentKey ++ str1 char) currentValue
                 (if JS.truthy currentKey then keyStart else i)
                 valueStart quoteChar braceDepth (S i) rest'
      | VALUE =>
          if Ascii.eqb char JS.DQ || Ascii.eqb char "'" then
            scan QUOTED currentKey (currentValue ++ str1 char) keyStart valueStart
                 (str1 char) braceDepth (S i) rest'
          else if Ascii.eqb char "{" then
            scan BRACED currentKey (currentValue ++ str1 char) keyStart valueStart
                 quoteChar 1 (S i) rest'
          else if Ascii.eqb char ";" then
            push currentKey
                 (currentKey, JS.trim currentValue, {| p_start := keyStart; p_end := i |})
                 (scan KEY "" "" (i + 1) valueStart quoteChar braceDepth (S i) rest')
          else
            scan VALUE currentKey (currentValue ++ str1 char) keyStart valueStart
                 quoteChar braceDepth (S i) rest'
      | QUOTED =>
          let currentValue := currentValue ++ str1 char in
          if String.eqb (str1 char) quoteChar then
            match rest' with
            | String next rest'' =>
                if String.eqb (str1 next) quoteChar then
                  scan QUOTED currentKey (currentValue ++ str1 next) keyStart valueStart
                       quoteChar braceDepth (S (S i)) rest''
                else
                  scan VALUE currentKey currentValue keyStart valueStart
                       quoteChar braceDepth (S i) rest'
            | EmptyString =>
                scan VALUE currentKey currentValue keyStart valueStart
                     quoteChar braceDepth (S i) rest'
            end
          else
            scan QUOTED currentKey currentValue keyStart valueStart
                 quoteChar braceDepth (S i) rest'
      | BRACED =>
          let currentValue := currentValue ++ str1 char in
          if Ascii.eqb char "{" then
            scan BRACED currentKey currentValue keyStart valueStart
                 quoteChar (S braceDepth) (S i) rest'
          else if Ascii.eqb char "}" then
            match rest' with
            | String "}" rest'' =>
                scan BRACED currentKey (currentValue ++ "}") keyStart valueStart
                     quoteChar braceDepth (S (S i)) rest''
            | _ =>
                if (braceDepth - 1 =? 0)%nat then
                  scan VALUE currentKey currentValue keyStart valueStart
                       quoteChar (braceDepth - 1) (S i) rest'
                else
                  scan BRACED currentKey currentValue keyStart valueStart
                       quoteChar (braceDepth - 1) (S i) rest'
            end
          else
            scan BRACED currentKey currentValue keyStart valueStart
                 quoteChar braceDepth (S i) rest'
      | DONE =>
          scan DONE currentKey currentValue keyStart valueStart quoteChar braceDepth (S i) rest'
      end
  end.

Definition parseKeyValuePairs (input : string) : list Token * list ParseError :=
  scan KEY "" "" 0 0 "" 0 0 input.

Definition normalizeKeyword (keyword : string) : string :=
  JS.removeSpaces (JS.toLowerCase keyword).

Definition createEmptyResult (input : string) (errors : list ParseError)
  (warnings : list ParseWarning) : ParsedConnectionString :=
  {| pcs_driver := sqlclient;
     pcs_confidence := low;
     pcs_pairs := [];
     pcs_originalInput := input;
     pcs_errors := errors;
     pcs_warnings := warnings;
     pcs_jdbcUrl := None |}.

(** The longest prefix of [s] whose characters satisfy [p], and what
    follows it. *)
Fixpoint span (p : ascii -> bool) (s : string) : string * string :=
  match s with
  | EmptyString => (EmptyString, EmptyString)
  | String c s' =>
      if p c then let '(a, b) := span p s' in (String c a, b) else (EmptyString, s)
  end.

(** [s] without the prefix [p], compared under the [i] flag. *)
Fixpoint stripPrefixCI (p s : string) : option string :=
  match p, s with
  | EmptyString, _ => Some s
  | String a p', String b s' =>
      if Ascii.eqb (JS.lower a) (JS.lower b) then stripPrefixCI p' s' else None
  | String _ _, EmptyString => None
  end.

(** The match of [input] against the pattern of [parseJdbcUrl]: under the
    [i] flag, the prefix [jdbc:sqlserver://] at the start, group 1 a
    non-empty run of characters other than [:] and [;], optionally [:] and
    group 2 a non-empty run of digits, optionally [;] and group 3 any text
    without line terminators, then the end of the input.  The runs are the
    longest ones: no shorter choice of the host or of the port can match,
    since what follows a shorter run is a character of the run. *)
Definition matchJdbcUrl (input : string) : option (string * option string * option string) :=
  match stripPrefixCI "jdbc:sqlserver://" input with
  | None => None
  | Some r1 =>
      let '(h, r2) := span (fun c => negb (Ascii.eqb c ":" || Ascii.eqb c ";")) r1 in
      if negb (JS.truthy h) then None
      else
        let '(g2, r3) :=
          match r2 with
          | String ":" r2' =>
              let '(ds, r) := span JS.is_digit r2' in
              if JS.truthy ds then (Some ds, r) else (None, r2)
          | _ => (None, r2)
          end in
        match r3 with
        | EmptyString => Some (h, g2, None)
        | String ";" t =>
            if JS.all_chars (fun c => negb (JS.is_line_terminator c)) t
            then Some (h, g2, Some t) else None
        | _ => None
        end
  end.

Definition parseJdbcUrl (input : string)
  : JdbcUrlComponents * string * list ParseError :=
  match matchJdbcUrl input with
  | None =>
      ({| host := ""; port := 1433; instanceName := None; properties := [] |},
       input,
       [ {| pe_code := INVALID_SYNTAX;
            pe_message := "Invalid JDBC URL format";
            pe_position := None;
            pe_suggestion := Some "Use format: jdbc:sqlserver://host:port;property=value;..." |} ])
  | Some (g1, g2, g3) =>
      ({| host := g1;
          port := match g2 with Some ds => JS.parseDigits ds | None => 1433 end;
          instanceName := None;
          properties := [] |},
       match g3 with Some t => t | None => "" end,
       [])
  end.

(** The state of the loop over the parsed pairs. *)
Record LoopState := {
  seenKeys : list string;
  pairs : JSMap.t ParsedValue;
  warnings : list ParseWarning
}.

Definition canonicalOf (driver : DriverType) (rawKey : string) : string :=
  match Synonyms.resolveKeyword rawKey (Some driver) with
  | Some id => id
  | None => normalizeKeyword rawKey
  end.

Definition duplicateWarning (rawKey : string) (pos : Position) : ParseWarning :=
  {| pw_code := DUPLICATE_KEYWORD;
     pw_message := "Duplicate keyword '" ++ rawKey ++ "' ignored (first occurrence used)";
     pw_keyword := Some rawKey;
     pw_position := Some pos |}.

Definition unknownWarning (rawKey : string) (pos : Position) : ParseWarning :=
  {| pw_code := UNKNOWN_KEYWORD;
     pw_message := "Unknown keyword '" ++ rawKey ++ "' - may not translate correctly";
     pw_keyword := Some rawKey;
     pw_position := Some pos |}.

Definition parsedValueOf (rawKey rawValue : string) (pos : Position) : ParsedValue :=
  let wasQuoted := Escaping.isQuotedOrBraced rawValue in
  {| raw := rawValue;
     normalized := if wasQuoted then Escaping.unescapeValue rawValue else JS.trim rawValue;
     position := pos;
     wasQuoted := wasQuoted;
     originalKeyword := Some rawKey |}.

(** The body of [for (const [rawKey, rawValue, position] of parseResult.pairs)]. *)
Definition processPair (driver : DriverType) (st : LoopState) (t : Token) : LoopState :=
  let '(rawKey, rawValue, pos) := t in
  let canonicalId := canonicalOf driver rawKey in
  if JS.mem canonicalId (seenKeys st) then
    {| seenKeys := seenKeys st;
       pairs := pairs st;
       warnings := (warnings st ++ [duplicateWarning rawKey pos])%list |}
  else
    {| seenKeys := (seenKeys st ++ [canonicalId])%list;
       pairs := JSMap.set canonicalId (parsedValueOf rawKey rawValue pos) (pairs st);
       warnings :=
         if Synonyms.isKnownKeyword rawKey (Some driver) then warnings st
         else (warnings st ++ [unknownWarning rawKey pos])%list |}.

Definition parse (input : string) : ParsedConnectionString :=
  if (MAX_CONNECTION_STRING_SIZE <? String.length input)%nat then
    createEmptyResult input
      [ {| pe_code := INPUT_TOO_LARGE;
           pe_message := "Connection string exceeds maximum size of "
                         ++ JS.ofNat (MAX_CONNECTION_STRING_SIZE / 1024) ++ "KB";
           pe_position := None;
           pe_suggestion := Some "Reduce the connection string length" |} ]
      []
  else
    let trimmedInput := JS.trim input in
    if negb (JS.truthy trimmedInput) then
      createEmptyResult input
        [ {| pe_code := EMPTY_INPUT;
             pe_message := "Connection string is empty";
             pe_position := None;
             pe_suggestion := Some "Provide a valid connection string" |} ]
        []
    else
      let detection := Detector.detect trimmedInput in
      let isJdbc :=
        DriverType_eqb (Detector.driver detection) jdbc
        && JS.startsWith "jdbc:sqlserver://" (JS.toLowerCase trimmedInput) in
      let '(jdbcUrl, propertyString, errors1) :=
        if isJdbc then
          let '(u, ps, es) := parseJdbcUrl trimmedInput in (Some u, ps, es)
        else (None, trimmedInput, []) in
      let pairs0 : JSMap.t ParsedValue :=
        match jdbcUrl with
        | Some u =>
            if JS.truthy (host u) then
              let serverValue :=
                if negb (N.eqb (port u) 0) && negb (N.eqb (port u) 1433)
                then host u ++ "," ++ JS.ofN (port u)
                else host u in
              JSMap.set "server"
                {| raw := serverValue;
                   normalized := serverValue;
                   position := {| p_start := 17; p_end := 17 + String.length serverValue |};
                   wasQuoted := false;
                   originalKeyword := Some "server" |}
                []
            else []
        | None => []
        end in
      let parseResult := parseKeyValuePairs propertyString in
      let errors := (errors1 ++ snd parseResult)%list in
      let st :=
        fold_left (processPair (Detector.driver detection)) (fst parseResult)
          {| seenKeys := []; pairs := pairs0; warnings := [] |} in
      {| pcs_driver := Detector.driver detection;
         pcs_confidence := Detector.confidence detection;
         pcs_pairs := pairs st;
         pcs_originalInput := input;
         pcs_errors := errors;
         pcs_warnings := warnings st;
         pcs_jdbcUrl := jdbcUrl |}.

End Parser.

(* ------------------------------------------------------------------ *)
(** ** translator/types.ts: the translation types *)

Inductive Formatting := compact | readable.
Inductive KeywordOrder := order_source | order_canonical | order_alphabetical.

(** [TranslationOptions]; an absent [options] object, or an absent field,
    is the default [false] / [None]. *)
Record TranslationOptions := {
  includeDefaults : bool;
  preserveUnknown : bool;
  preferShortNames : bool;
  formatting : option Formatting;
  keywordOrder_opt : option KeywordOrder
}.

Definition noOptions : TranslationOptions :=
  {| includeDefaults := false; preserveUnknown := false; preferShortNames := false;
     formatting := None; keywordOrder_opt := None |}.

Record TranslatedKeyword := {
  sourceKeyword : string;
  sourceValue : string;
  targetKeyword : string;
  targetValue : string;
  valueTransformed : bool
}.

Inductive UntranslatableReason :=
  | NOT_SUPPORTED | DRIVER_SPECIFIC | UNKNOWN | DEPRECATED | BLOCKED_ALLOWLIST.

Record UntranslatableKeyword := {
  uk_keyword : string;
  uk_value : string;
  uk_reason : UntranslatableReason
}.

Inductive TranslationWarningCode :=
  | KEYWORD_OMITTED | VALUE_NORMALIZED | DEFAULT_DIFFERS | BEHAVIOR_DIFFERS | PYTHON_BLOCKED.

Record TranslationWarning := {
  tw_code : TranslationWarningCode;
  tw_message : string;
  tw_keyword : option string
}.

Inductive TranslationErrorCode := PARSE_FAILED | REQUIRED_MISSING | INVALID_TARGET.

Record TranslationError := {
  te_code : TranslationErrorCode;
  te_message : string
}.

Record TranslationResult := {
  success : bool;
  targetDriver : DriverType;
  connectionString : string;
  tr_translatedKeywords : list TranslatedKeyword;
  tr_untranslatableKeywords : list UntranslatableKeyword;
  tr_warnings : list TranslationWarning;
  tr_errors : list TranslationError
}.

(** [Array.prototype.sort] with a comparator: a stable sort.  [a] stays
    ahead of [b] unless the comparator is positive on them. *)
Section Sort.
Context {A : Type} (cmp : A -> A -> Z).

Fixpoint insertSorted (x : A) (l : list A) : list A :=
  match l with
  | [] => [x]
  | y :: l' => if (cmp x y <=? 0)%Z then x :: l else y :: insertSorted x l'
  end.

Definition sortBy (l : list A) : list A := fold_right insertSorted [] l.

End Sort.

(* ------------------------------------------------------------------ *)
(** ** translator/mapper.ts *)

Module Mapper.

Record MappingResult := {
  translatedKeywords : list TranslatedKeyword;
  untranslatableKeywords : list UntranslatableKeyword;
  warnings : list TranslationWarning;
  keywordOrder : list string;
  mappedPairs : JSMap.t string
}.

(** [config && config.name !== null]. *)
Definition hasName (c : DriverKeyword) : bool :=
  match dk_name c with Some _ => true | None => false end.

Definition supportedDrivers (keyword : Keyword) : list DriverType :=
  map fst (filter (fun e => hasName (snd e)) (kw_drivers keyword)).

Definition getUntranslatableReason (keyword : Keyword) (targetDriver sourceDriver : DriverType)
  : UntranslatableReason :=
  if DriverType_eqb targetDriver python && Python.isPythonBlockedKeyword (kw_id keyword)
  then BLOCKED_ALLOWLIST
  else
    let deprecated :=
      match driversGet targetDriver (kw_drivers keyword) with
      | Some c => dk_deprecated c
      | None => false
      end in
    if deprecated then DEPRECATED
    else
      match supportedDrivers keyword with
      | [d] => if DriverType_eqb d sourceDriver then DRIVER_SPECIFIC else NOT_SUPPORTED
      | _ => NOT_SUPPORTED
      end.

(** [parsedValue.originalKeyword || canonicalId]. *)
Definition keywordText (pv : ParsedValue) (canonicalId : string) : string :=
  match originalKeyword pv with
  | Some k => if JS.truthy k then k else canonicalId
  | None => canonicalId
  end.

(** The value transformation of a translatable pair: the target value and
    the [valueTransformed] flag. *)
Definition transformValue (targetConfig : DriverKeyword) (targetDriver : DriverType)
  (value : string) : string * bool :=
  match dk_type targetConfig, dk_enumValues targetConfig with
  | TEnum, first :: _ =>
      match Defaults.normalizeBooleanValue (VStr value) with
      | Some true => (first, true)
      | _ => (value, false)
      end
  | TBoolean, _ =>
      match Defaults.normalizeBooleanValue (VStr value) with
      | Some boolValue =>
          let targetValue := Defaults.formatBooleanForDriver boolValue targetDriver in
          (targetValue,
           negb (String.eqb (JS.toLowerCase targetValue) (JS.toLowerCase value)))
      | None => (value, false)
      end
  | _, _ => (value, false)
  end.

(** The body of [for (const [canonicalId, parsedValue] of parsed.pairs)]. *)
Definition mapPair (sourceDriver targetDriver : DriverType) (options : TranslationOptions)
  (acc : MappingResult) (entry : string * ParsedValue) : MappingResult :=
  let '(canonicalId, parsedValue) := entry in
  let order := (keywordOrder acc ++ [canonicalId])%list in
  match Keywords.getKeywordById canonicalId with
  | None =>
      if preserveUnknown options then
        {| translatedKeywords :=
             (translatedKeywords acc ++
              [ {| sourceKeyword := keywordText parsedValue canonicalId;
                   sourceValue := normalized parsedValue;
                   targetKeyword := canonicalId;
                   targetValue := normalized parsedValue;
                   valueTransformed := false |} ])%list;
           untranslatableKeywords := untranslatableKeywords acc;
           warnings := warnings acc;
           keywordOrder := order;
           mappedPairs := JSMap.set canonicalId (normalized parsedValue) (mappedPairs acc) |}
      else
        {| translatedKeywords := translatedKeywords acc;
           untranslatableKeywords :=
             (untranslatableKeywords acc ++
              [ {| uk_keyword := keywordText parsedValue canonicalId;
                   uk_value := normalized parsedValue;
                   uk_reason := UNKNOWN |} ])%list;
           warnings := warnings acc;
           keywordOrder := order;
           mappedPairs := mappedPairs acc |}
  | Some keyword =>
      let targetConfig := driversGet targetDriver (kw_drivers keyword) in
      let named :=
        match targetConfig with
        | Some c => match dk_name c with Some n => Some (c, n) | None => None end
        | None => None
        end in
      match named with
      | None =>
          if DriverType_eqb targetDriver jdbc && String.eqb canonicalId "server" then
            {| translatedKeywords := translatedKeywords acc;
               untranslatableKeywords := untranslatableKeywords acc;
               warnings := warnings acc;
               keywordOrder := order;
               mappedPairs := JSMap.set "server" (normalized parsedValue) (mappedPairs acc) |}
          else
            {| translatedKeywords := translatedKeywords acc;
               untranslatableKeywords :=
                 (untranslatableKeywords acc ++
                  [ {| uk_keyword := keywordText parsedValue canonicalId;
                       uk_value := normalized parsedValue;
                       uk_reason := getUntranslatableReason keyword targetDriver sourceDriver |} ])%list;
               warnings :=
                 if DriverType_eqb targetDriver python && Python.isPythonBlockedKeyword canonicalId
                 then
                   (warnings acc ++
                    [ {| tw_code := PYTHON_BLOCKED;
                         tw_message := "Keyword '" ++ kw_displayName keyword
                                       ++ "' is blocked by Python driver's restricted allowlist";
                         tw_keyword := Some canonicalId |} ])%list
                 else warnings acc;
               keywordOrder := order;
               mappedPairs := mappedPairs acc |}
      | Some (c, name) =>
          let '(targetValue, transformed) :=
            transformValue c targetDriver (normalized parsedValue) in
          {| translatedKeywords :=
               (translatedKeywords acc ++
                [ {| sourceKeyword := keywordText parsedValue canonicalId;
                     sourceValue := normalized parsedValue;
                     targetKeyword := name;
                     targetValue := targetValue;
                     valueTransformed := transformed |} ])%list;
             untranslatableKeywords := untranslatableKeywords acc;
             warnings := warnings acc;
             keywordOrder := order;
             mappedPairs := JSMap.set name targetValue (mappedPairs acc) |}
      end
  end.

Definition emptyResult : MappingResult :=
  {| translatedKeywords := []; untranslatableKeywords := []; warnings := [];
     keywordOrder := []; mappedPairs := [] |}.

(** [canonicalOrder.indexOf(x)], [-1] when [x] is absent. *)
Fixpoint indexOf (x : string) (l : list string) : Z :=
  match l with
  | [] => (-1)%Z
  | y :: l' =>
      if String.eqb x y then 0%Z
      else let r := indexOf x l' in if (r <? 0)%Z then (-1)%Z else (r + 1)%Z
  end.

Definition canonicalRank (sourceKw : string) : Z :=
  let canonical :=
    match Synonyms.resolveKeyword sourceKw None with
    | Some id => if JS.truthy id then id else sourceKw
    | None => sourceKw
    end in
  indexOf canonical (map kw_id Keywords.keywords).

(** [sourceConfig?.name !== null]. *)
Definition nameNotNull (c : option DriverKeyword) : bool :=
  match c with
  | Some c' => hasName c'
  | None => true
  end.

Definition defaultText (v : option JSValue) : string :=
  match v with
  | Some x => Defaults.toStr x
  | None => "undefined"
  end.

(** The warnings about defaults of the keywords the source did not give. *)
Definition defaultWarnings (sourceDriver targetDriver : DriverType)
  (specifiedKeywords : list string) : list TranslationWarning :=
  flat_map
    (fun keyword =>
       if JS.mem (kw_id keyword) specifiedKeywords then []
       else if Defaults.doDefaultsDiffer (kw_id keyword) sourceDriver targetDriver
               && nameNotNull (driversGet sourceDriver (kw_drivers keyword))
               && nameNotNull (driversGet targetDriver (kw_drivers keyword))
       then
         [ {| tw_code := DEFAULT_DIFFERS;
              tw_message :=
                "'" ++ kw_displayName keyword ++ "' default differs: "
                ++ driverTag sourceDriver ++ "="
                ++ defaultText (Defaults.getDefaultValue (kw_id keyword) sourceDriver)
                ++ ", " ++ driverTag targetDriver ++ "="
                ++ defaultText (Defaults.getDefaultValue (kw_id keyword) targetDriver);
              tw_keyword := Some (kw_id keyword) |} ]
       else [])
    Keywords.keywords.


Definition getSupportedKeywords (driver : DriverType) : list string :=
  map kw_id
      (filter (fun k =>
                 match driversGet driver (kw_drivers k) with
                 | Some driverConfig => hasName driverConfig
                 | None => false
                 end)
              Keywords.keywords).

Definition isKeywordSupported (keywordId : string) (driver : DriverType) : bool :=
  match Keywords.getKeywordById keywordId with
  | None => false
  | Some keyword =>
      match driversGet driver (kw_drivers keyword) with
      | Some driverConfig => hasName driverConfig
      | None => false
      end
  end.

Definition getTargetKeywordName (keywordId : string) (driver : DriverType) : option string :=
  match Keywords.getKeywordById keywordId with
  | None => None
  | Some keyword =>
      match driversGet driver (kw_drivers keyword) with
      | Some driverConfig => dk_name driverConfig
      | None => None
      end
  end.

Section WithLocale.

(** [String.prototype.localeCompare], which the host environment supplies. *)
Variable localeCompare : string -> string -> Z.

Definition applyOrder (options : TranslationOptions) (l : list TranslatedKeyword)
  : list TranslatedKeyword :=
  match keywordOrder_opt options with
  | Some order_alphabetical =>
      sortBy (fun a b => localeCompare (targetKeyword a) (targetKeyword b)) l
  | Some order_canonical =>
      sortBy (fun a b => (canonicalRank (sourceKeyword a) - canonicalRank (sourceKeyword b))%Z) l
  | _ => l
  end.

Definition mapKeywords (parsed : ParsedConnectionString) (targetDriver : DriverType)
  (options : TranslationOptions) : MappingResult :=
  let r := fold_left (mapPair (pcs_driver parsed) targetDriver options)
                     (pcs_pairs parsed) emptyResult in
  {| translatedKeywords := applyOrder options (translatedKeywords r);
     untranslatableKeywords := untranslatableKeywords r;
     warnings :=
       (warnings r ++ defaultWarnings (pcs_driver parsed) targetDriver (keywordOrder r))%list;
     keywordOrder := keywordOrder r;
     mappedPairs := mappedPairs r |}.

End WithLocale.

End Mapper.

(* ------------------------------------------------------------------ *)
(** ** translator/generator.ts *)

Module Generator.

Import Mapper.

Definition NL : string := String (ascii_of_N 10) EmptyString.
Definition BS : ascii := "\"%char.

(** [formatValue]. *)
Definition formatValue (value : string) (driver : DriverType) : string :=
  if Escaping.needsEscaping value then Escaping.escapeValue value driver else value.

(** [formatValueForJdbc]. *)
Definition formatValueForJdbc (value : string) : string :=
  if Escaping.needsEscaping value then "{" ++ JS.replaceChar "}" "}}" value ++ "}" else value.

Definition separatorOf (options : TranslationOptions) : string :=
  match formatting options with
  | Some readable => "; "
  | _ => ";"
  end.

Definition generateKeyValue (mapped : MappingResult) (driver : DriverType)
  (options : TranslationOptions) : string :=
  let parts0 :=
    if DriverType_eqb driver odbc then
      let hasDriver :=
        existsb (fun kw => String.eqb (JS.toLowerCase (targetKeyword kw)) "driver")
                (translatedKeywords mapped) in
      if negb hasDriver then ["Driver={ODBC Driver 18 for SQL Server}"] else []
    else [] in
  let prefix := if DriverType_eqb driver php then "sqlsrv:" else "" in
  let parts :=
    List.app parts0
      (map (fun kw => targetKeyword kw ++ "=" ++ formatValue (targetValue kw) driver)
           (translatedKeywords mapped)) in
  prefix ++ JS.join (separatorOf options) parts
  ++ (if (0 <? List.length parts)%nat then ";" else "").

(** The match of a server value against the instance pattern of
    [generateJdbc]: a non-empty run without backslash, a backslash, and a
    non-empty rest without line terminators. *)
Definition instanceMatch (serverValue : string) : option (string * string) :=
  let '(h, r) := Parser.span (fun c => negb (Ascii.eqb c BS)) serverValue in
  if negb (JS.truthy h) then None
  else
    match r with
    | String _ inst =>
        if JS.truthy inst && JS.all_chars (fun c => negb (JS.is_line_terminator c)) inst
        then Some (h, inst) else None
    | EmptyString => None
    end.

(** The match against the port pattern: a non-empty run without [:], [,]
    and backslash, then [,] or [:], then digits up to the end. *)
Definition portMatch (serverValue : string) : option (string * string) :=
  let '(h, r) :=
    Parser.span (fun c => negb (Ascii.eqb c ":" || Ascii.eqb c "," || Ascii.eqb c BS))
                serverValue in
  if negb (JS.truthy h) then None
  else
    match r with
    | String sep ds =>
        if (Ascii.eqb sep "," || Ascii.eqb sep ":")
           && JS.truthy ds && JS.all_chars JS.is_digit ds
        then Some (h, ds) else None
    | EmptyString => None
    end.

(** Host, port and instance name out of the server value. *)
Definition serverParts (serverValue : option string) : string * N * option string :=
  match serverValue with
  | Some sv =>
      if JS.truthy sv then
        match instanceMatch sv with
        | Some (h, inst) => (h, 1433%N, Some inst)
        | None =>
            match portMatch sv with
            | Some (h, ds) => (h, JS.parseDigits ds, None)
            | None => (sv, 1433%N, None)
            end
        end
      else ("localhost", 1433%N, None)
  | None => ("localhost", 1433%N, None)
  end.

Definition serverRelatedKeywords : list string :=
  ["server"; "datasource"; "address"; "addr"; "networkaddress"].

(** [canonicalId && serverRelatedKeywords.includes(canonicalId)]. *)
Definition isServerRelated (kw : TranslatedKeyword) : bool :=
  match Synonyms.resolveKeyword (sourceKeyword kw) None with
  | Some id => JS.truthy id && JS.mem id serverRelatedKeywords
  | None => false
  end.

Definition jdbcProps (mapped : MappingResult) (instanceName : option string) : list string :=
  let props :=
    map (fun kw => targetKeyword kw ++ "=" ++ formatValueForJdbc (targetValue kw))
        (filter (fun kw => negb (isServerRelated kw)) (translatedKeywords mapped)) in
  match instanceName with
  | Some inst => if JS.truthy inst then ("instanceName=" ++ inst) :: props else props
  | None => props
  end.

Definition generateJdbc (mapped : MappingResult) (parsed : option ParsedConnectionString)
  (options : TranslationOptions) : string :=
  let serverValue :=
    match parsed with
    | Some p => option_map normalized (JSMap.get "server" (pcs_pairs p))
    | None => None
    end in
  let '(host, port, instanceName) := serverParts serverValue in
  let propsStr := JS.join (separatorOf options) (jdbcProps mapped instanceName) in
  "jdbc:sqlserver://" ++ host ++ ":" ++ JS.ofN port ++ ";" ++ propsStr
  ++ (if JS.truthy propsStr then ";" else "").

(** [parseBooleanValue]. *)
Definition parseBooleanValue (value : string) : option bool :=
  let lower := JS.toLowerCase value in
  if JS.mem lower ["true"; "yes"; "1"; "on"; "sspi"] then Some true
  else if JS.mem lower ["false"; "no"; "0"; "off"] then Some false
  else None.

(** [getEncryptionEnumValue]: the own properties of [mapping]. *)
Definition getEncryptionEnumValue (value : string) : option string :=
  JSMap.get (JS.toLowerCase value)
    [ ("true", "EncryptionSetting::On");
      ("yes", "EncryptionSetting::On");
      ("mandatory", "EncryptionSetting::Required");
      ("strict", "EncryptionSetting::Required");
      ("false", "EncryptionSetting::Off");
      ("no", "EncryptionSetting::Off");
      ("optional", "EncryptionSetting::On");
      ("on", "EncryptionSetting::On");
      ("off", "EncryptionSetting::Off");
      ("required", "EncryptionSetting::Required") ].

Definition escapeRustString (value : string) : string :=
  JS.replaceChar (ascii_of_N 9) "\t"
    (JS.replaceChar (ascii_of_N 13) "\r"
      (JS.replaceChar (ascii_of_N 10) "\n"
        (JS.replaceChar JS.DQ (String BS JS.dq)
          (JS.replaceChar BS "\\" value)))).

Definition formatRustValue (value keyword : string) : string :=
  match parseBooleanValue value with
  | Some boolValue =>
      if JS.includes "mode" keyword then
        match getEncryptionEnumValue value with
        | Some e => e
        | None => JS.ofBool boolValue
        end
      else JS.ofBool boolValue
  | None =>
      if JS.truthy value && JS.all_chars JS.is_digit value then value
      else
        match (if JS.includes "mode" keyword then getEncryptionEnumValue value else None) with
        | Some e => e
        | None => JS.dq ++ escapeRustString value ++ JS.dq ++ ".to_string()"
        end
  end.

(** [path.split('.')]. *)
Fixpoint splitDot (cur : string) (s : string) : list string :=
  match s with
  | EmptyString => [cur]
  | String c s' =>
      if Ascii.eqb c "." then cur :: splitDot "" s' else splitDot (cur ++ String c "") s'
  end.

Definition getStructName (fieldName : string) : string :=
  match JSMap.get fieldName
          [ ("transport_context", "TransportContext::Tcp");
            ("encryption_options", "EncryptionOptions");
            ("auth", "AuthContext") ] with
  | Some n => n
  | None => "Unknown"
  end.

(** The two maps [grouped] and [simpleFields] of [generateRustStruct]. *)
Definition groupFields (fields : JSMap.t string)
  : JSMap.t (JSMap.t string) * JSMap.t string :=
  fold_left
    (fun (acc : JSMap.t (JSMap.t string) * JSMap.t string) (e : string * string) =>
       let '(grouped, simpleFields) := acc in
       match splitDot "" (fst e) with
       | topLevel :: ((_ :: _) as rest) =>
           let inner := match JSMap.get topLevel grouped with Some m => m | None => [] end in
           (JSMap.set topLevel (JSMap.set (JS.join "." rest) (snd e) inner) grouped,
            simpleFields)
       | _ => (grouped, JSMap.set (fst e) (snd e) simpleFields)
       end)
    fields ([], []).

Definition generateRustStruct (fields : JSMap.t string) (options : TranslationOptions) : string :=
  let isReadable := match formatting options with Some readable => true | _ => false end in
  let indent := if isReadable then "    " else "  " in
  let nestedIndent := if isReadable then "        " else "    " in
  let '(grouped, simpleFields) := groupFields fields in
  let simpleLines :=
    map (fun e => indent ++ fst e ++ ": " ++ snd e ++ ",") simpleFields in
  let nestedLines :=
    flat_map
      (fun g =>
         List.app [indent ++ fst g ++ ": " ++ getStructName (fst g) ++ " {"]
           (List.app
              (map (fun e => nestedIndent ++ fst e ++ ": " ++ snd e ++ ",") (snd g))
              [indent ++ "},"]))
      grouped in
  let lines :=
    List.app ["ClientContext {"]
      (List.app simpleLines
         (List.app nestedLines [indent ++ "..Default::default()"; "}"])) in
  JS.join NL lines.

Definition generateRust (mapped : MappingResult) (options : TranslationOptions) : string :=
  let fields :=
    fold_left
      (fun (fields : JSMap.t string) kw =>
         match Synonyms.resolveKeyword (sourceKeyword kw) None with
         | Some canonicalId =>
             if JS.truthy canonicalId then
               match Rust.getRustFieldPath canonicalId with
               | Some rustPath =>
                   if JS.truthy rustPath
                   then JSMap.set rustPath (formatRustValue (targetValue kw) (targetKeyword kw)) fields
                   else fields
               | None => fields
               end
             else fields
         | None => fields
         end)
      (translatedKeywords mapped) [] in
  generateRustStruct fields options.

Definition generate (mapped : MappingResult) (targetDriver : DriverType)
  (options : TranslationOptions) (parsed : option ParsedConnectionString) : string :=
  match targetDriver with
  | jdbc => generateJdbc mapped parsed options
  | rust => generateRust mapped options
  | _ => generateKeyValue mapped targetDriver options
  end.


Definition generateFormatted (mapped : MappingResult) (targetDriver : DriverType)
  (pretty : bool) (parsed : option ParsedConnectionString) : string :=
  let options :=
    {| includeDefaults := false; preserveUnknown := false; preferShortNames := false;
       formatting := Some (if pretty then readable else compact);
       keywordOrder_opt := None |} in
  generate mapped targetDriver options parsed.

(** The [Map] of [generateAll]: its keys are the seven drivers, in the
    order of insertion. *)
Definition generateAll (mapped : MappingResult) (options : TranslationOptions)
  (parsed : option ParsedConnectionString) : list (DriverType * string) :=
  map (fun driver => (driver, generate mapped driver options parsed)) ALL_DRIVERS.

End Generator.

(* ------------------------------------------------------------------ *)
(** ** translator/index.ts *)

Module Translator.

Section WithLocale.

Variable localeCompare : string -> string -> Z.

Definition translate (input : string) (targetDriver : DriverType)
  (options : TranslationOptions) : TranslationResult :=
  let parsed := Parser.parse input in
  if (0 <? List.length (pcs_errors parsed))%nat then
    {| success := false;
       targetDriver := targetDriver;
       connectionString := "";
       tr_translatedKeywords := [];
       tr_untranslatableKeywords := [];
       tr_warnings := [];
       tr_errors :=
         map (fun e => {| te_code := PARSE_FAILED; te_message := pe_message e |})
             (pcs_errors parsed) |}
  else
    let mapped := Mapper.mapKeywords localeCompare parsed targetDriver options in
    let output := Generator.generate mapped targetDriver options (Some parsed) in
    {| success := true;
       targetDriver := targetDriver;
       connectionString := output;
       tr_translatedKeywords := Mapper.translatedKeywords mapped;
       tr_untranslatableKeywords := Mapper.untranslatableKeywords mapped;
       tr_warnings := Mapper.warnings mapped;
       tr_errors := [] |}.

Definition translateAll (input : string) (options : TranslationOptions)
  : list TranslationResult :=
  map (fun driver => translate input driver options) ALL_DRIVERS.

End WithLocale.

End Translator.

(* ------------------------------------------------------------------ *)
(** ** translator/validator.ts *)

Module Validator.

Record ValidationResult := {
  isValid : bool;
  errors : list ParseError;
  warnings : list ParseWarning
}.

(** [parsed.pairs.has(k)]. *)
Definition pairsHas (parsed : ParsedConnectionString) (k : string) : bool :=
  JSMap.has k (pcs_pairs parsed).

(** [parsed.pairs.get(k)?.normalized]. *)
Definition normalizedOf (parsed : ParsedConnectionString) (k : string) : option string :=
  option_map normalized (JSMap.get k (pcs_pairs parsed)).

(** A warning without keyword and position. *)
Definition missingRequired (message : string) : ParseWarning :=
  {| pw_code := MISSING_REQUIRED; pw_message := message;
     pw_keyword := None; pw_position := None |}.

Definition conflicting (message keyword : string) : ParseWarning :=
  {| pw_code := CONFLICTING_KEYWORDS; pw_message := message;
     pw_keyword := Some keyword; pw_position := None |}.

(** The arrays [_errors] and [warnings] are passed by reference; the
    function hands back what they hold when it returns. *)
Definition validateRequiredKeywords (parsed : ParsedConnectionString)
  (_errors : list ParseError) (warnings : list ParseWarning)
  : list ParseError * list ParseWarning :=
  let hasServer :=
    pairsHas parsed "server" || pairsHas parsed "datasource"
    || match pcs_jdbcUrl parsed with
       | Some u => JS.truthy (host u)
       | None => false
       end in
  let w1 :=
    if negb hasServer
    then List.app warnings [missingRequired "Missing required parameter: Server/Data Source"]
    else warnings in
  let w2 :=
    match pcs_driver parsed with
    | odbc =>
        if negb (pairsHas parsed "driver")
        then List.app w1 [missingRequired "ODBC connections typically require a Driver specification"]
        else w1
    | oledb =>
        if negb (pairsHas parsed "provider")
        then List.app w1 [missingRequired "OLEDB connections require a Provider specification"]
        else w1
    | _ => w1
    end in
  let hasIntegratedSecurity :=
    pairsHas parsed "integratedsecurity" || pairsHas parsed "trustedconnection" in
  let hasUserId := pairsHas parsed "userid" || pairsHas parsed "user" in
  let hasPassword := pairsHas parsed "password" || pairsHas parsed "pwd" in
  let hasAuthentication := pairsHas parsed "authentication" in
  (_errors,
   if negb hasIntegratedSecurity && negb hasAuthentication
      && (negb hasUserId || negb hasPassword)
   then List.app w2
          [missingRequired
             "No authentication specified: use Integrated Security, Authentication, or User ID + Password"]
   else w2).

(** [a || b || ''] on two optional strings. *)
Definition firstTruthy (a b : option string) : string :=
  match a with
  | Some x => if JS.truthy x then x else match b with Some y => y | None => "" end
  | None => match b with Some y => y | None => "" end
  end.

Definition validateConflictingKeywords (parsed : ParsedConnectionString)
  (warnings : list ParseWarning) : list ParseWarning :=
  let hasIntegratedSecurity :=
    pairsHas parsed "integratedsecurity" || pairsHas parsed "trustedconnection" in
  let hasUserId := pairsHas parsed "userid" || pairsHas parsed "user" in
  let w1 :=
    if hasIntegratedSecurity && hasUserId then
      let intSecValue :=
        firstTruthy (normalizedOf parsed "integratedsecurity")
                    (normalizedOf parsed "trustedconnection") in
      if JS.mem (JS.toLowerCase intSecValue) ["true"; "yes"; "sspi"; "1"]
      then List.app warnings
             [conflicting "User ID is ignored when Integrated Security is enabled" "userid"]
      else warnings
    else warnings in
  let serverKeywords := ["server"; "datasource"; "address"; "addr"; "networkaddress"] in
  let foundServerKeywords := filter (pairsHas parsed) serverKeywords in
  let w2 :=
    if (1 <? List.length foundServerKeywords)%nat
    then List.app w1
           [conflicting
              ("Multiple server specifications found: " ++ JS.join ", " foundServerKeywords
               ++ ". Using first occurrence.")
              "server"]
    else w1 in
  if pairsHas parsed "encrypt" && pairsHas parsed "trustservercertificate" then
    match option_map JS.toLowerCase (normalizedOf parsed "encrypt") with
    | Some encryptValue =>
        if String.eqb encryptValue "false" || String.eqb encryptValue "no"
        then List.app w2
               [conflicting "TrustServerCertificate has no effect when Encrypt is disabled"
                            "trustservercertificate"]
        else w2
    | None => w2
    end
  else w2.

(** One warning about the pair [(canonicalId, parsedValue)]. *)
Definition about (code : ParseWarningCode) (message keyword : string)
  (parsedValue : ParsedValue) : ParseWarning :=
  {| pw_code := code; pw_message := message;
     pw_keyword := Some keyword; pw_position := Some (position parsedValue) |}.

(** No entry of the registry sets [deprecationMessage]: the message ends
    with the text written after [||]. *)
Definition validateDeprecatedKeywords (parsed : ParsedConnectionString)
  (driver : DriverType) (warnings : list ParseWarning) : list ParseWarning :=
  fold_left
    (fun (w : list ParseWarning) (e : string * ParsedValue) =>
       let '(canonicalId, parsedValue) := e in
       match Keywords.getKeywordById canonicalId with
       | None => w
       | Some keyword =>
           match driversGet driver (kw_drivers keyword) with
           | Some driverConfig =>
               if dk_deprecated driverConfig
               then List.app w
                      [about DEPRECATED_KEYWORD
                             ("Keyword '" ++ kw_displayName keyword
                              ++ "' is deprecated: Consider using an alternative")
                             canonicalId parsedValue]
               else w
           | None => w
           end
       end)
    (pcs_pairs parsed) warnings.

Definition isValidBoolean (value : string) : bool :=
  JS.mem (JS.toLowerCase value)
         ["true"; "false"; "yes"; "no"; "1"; "0"; "on"; "off"; "sspi"].

(** The warning of [validateValueTypes] about one pair, if any. *)
Definition valueTypeWarning (keyword : Keyword) (driverConfig : DriverKeyword)
  (canonicalId : string) (parsedValue : ParsedValue) : list ParseWarning :=
  let value := normalized parsedValue in
  match dk_type driverConfig with
  | TBoolean =>
      if negb (isValidBoolean value)
      then [about UNKNOWN_KEYWORD
                  ("Invalid boolean value '" ++ value ++ "' for '" ++ kw_displayName keyword
                   ++ "'. Expected: true/false, yes/no, 1/0")
                  canonicalId parsedValue]
      else []
  | TInteger =>
      if negb (JS.truthy value && JS.all_chars JS.is_digit value)
      then [about UNKNOWN_KEYWORD
                  ("Invalid integer value '" ++ value ++ "' for '" ++ kw_displayName keyword ++ "'")
                  canonicalId parsedValue]
      else []
  | TEnum =>
      match dk_enumValues driverConfig with
      | [] => []
      | enumValues =>
          if negb (existsb (fun e => String.eqb (JS.toLowerCase e) (JS.toLowerCase value))
                           enumValues)
          then [about UNKNOWN_KEYWORD
                      ("Invalid value '" ++ value ++ "' for '" ++ kw_displayName keyword
                       ++ "'. Expected: " ++ JS.join ", " enumValues)
                      canonicalId parsedValue]
          else []
      end
  | TString => []
  end.

Definition validateValueTypes (parsed : ParsedConnectionString)
  (driver : DriverType) (warnings : list ParseWarning) : list ParseWarning :=
  fold_left
    (fun (w : list ParseWarning) (e : string * ParsedValue) =>
       let '(canonicalId, parsedValue) := e in
       match Keywords.getKeywordById canonicalId with
       | None => w
       | Some keyword =>
           match driversGet driver (kw_drivers keyword) with
           | None => w
           | Some driverConfig =>
               List.app w (valueTypeWarning keyword driverConfig canonicalId parsedValue)
           end
       end)
    (pcs_pairs parsed) warnings.

(** [w.code === 'UNKNOWN_KEYWORD' && w.keyword?.toLowerCase() === canonicalId.toLowerCase()]. *)
Definition warnsAbout (canonicalId : string) (w : ParseWarning) : bool :=
  match pw_code w, pw_keyword w with
  | UNKNOWN_KEYWORD, Some k => String.eqb (JS.toLowerCase k) (JS.toLowerCase canonicalId)
  | _, _ => false
  end.

(** [parsedValue.originalKeyword || canonicalId]. *)
Definition keywordOr (parsedValue : ParsedValue) (canonicalId : string) : string :=
  match originalKeyword parsedValue with
  | Some k => if JS.truthy k then k else canonicalId
  | None => canonicalId
  end.

Definition validateUnknownKeywords (parsed : ParsedConnectionString)
  (warnings : list ParseWarning) : list ParseWarning :=
  fold_left
    (fun (w : list ParseWarning) (e : string * ParsedValue) =>
       let '(canonicalId, parsedValue) := e in
       match Keywords.getKeywordById canonicalId with
       | Some _ => w
       | None =>
           if negb (Synonyms.isKnownKeyword canonicalId None) then
             let alreadyWarned := existsb (warnsAbout canonicalId) w in
             if negb alreadyWarned
             then List.app w
                    [about UNKNOWN_KEYWORD
                           ("Unknown keyword: '" ++ keywordOr parsedValue canonicalId ++ "'")
                           (keywordOr parsedValue canonicalId) parsedValue]
             else w
           else w
       end)
    (pcs_pairs parsed) warnings.

Definition validate (parsed : ParsedConnectionString) : ValidationResult :=
  let errors := pcs_errors parsed in
  let warnings := pcs_warnings parsed in
  let '(errors, warnings) := validateRequiredKeywords parsed errors warnings in
  let warnings := validateConflictingKeywords parsed warnings in
  let warnings := validateDeprecatedKeywords parsed (pcs_driver parsed) warnings in
  let warnings := validateValueTypes parsed (pcs_driver parsed) warnings in
  let warnings := validateUnknownKeywords parsed warnings in
  {| isValid := (List.length errors =? 0)%nat;
     errors := errors;
     warnings := warnings |}.

(** The first loop of [validateSyntax]: [inQuote], [quoteChar] and
    [quoteStart] after the characters of [rest], which start at offset
    [i].  [quoteStart] is [-1] until a quote is opened. *)
Fixpoint quoteScan (inQuote : bool) (quoteChar : string) (quoteStart : Z) (i : nat)
  (rest : string) {struct rest} : bool * string * Z :=
  match rest with
  | EmptyString => (inQuote, quoteChar, quoteStart)
  | String char rest' =>
      if negb inQuote && (Ascii.eqb char JS.DQ || Ascii.eqb char "'") then
        quoteScan true (String char EmptyString) (Z.of_nat i) (S i) rest'
      else if inQuote && String.eqb (String char EmptyString) quoteChar then
        match rest' with
        | String next rest'' =>
            if String.eqb (String next EmptyString) quoteChar
            then quoteScan inQuote quoteChar quoteStart (S (S i)) rest''
            else quoteScan false quoteChar quoteStart (S i) rest'
        | EmptyString => quoteScan false quoteChar quoteStart (S i) rest'
        end
      else quoteScan inQuote quoteChar quoteStart (S i) rest'
  end.

(** The second loop: [braceDepth], which a closing brace can take below
    zero, and [braceStart]. *)
Fixpoint braceScan (braceDepth : Z) (braceStart : Z) (i : nat) (rest : string)
  {struct rest} : Z * Z :=
  match rest with
  | EmptyString => (braceDepth, braceStart)
  | String char rest' =>
      if Ascii.eqb char "{" then
        braceScan (braceDepth + 1)
                  (if (braceDepth =? 0)%Z then Z.of_nat i else braceStart) (S i) rest'
      else if Ascii.eqb char "}" then
        match rest' with
        | String "}" rest'' => braceScan braceDepth braceStart (S (S i)) rest''
        | _ => braceScan (braceDepth - 1) braceStart (S i) rest'
        end
      else braceScan braceDepth braceStart (S i) rest'
  end.

(** [String(n)] for an integer. *)
Definition ofZ (z : Z) : string :=
  if (z <? 0)%Z then "-" ++ JS.ofN (Z.to_N (- z)) else JS.ofN (Z.to_N z).

(** [quoteStart] and [braceStart] are offsets when an error is reported:
    the positions take them as such. *)
Definition validateSyntax (input : string) : ValidationResult :=
  let '(inQuote, quoteChar, quoteStart) := quoteScan false "" (-1) 0 input in
  let errors1 :=
    if inQuote then
      [ {| pe_code := UNMATCHED_QUOTE;
           pe_message :=
             "Syntax error: Unmatched "
             ++ (if String.eqb quoteChar JS.dq then "double" else "single")
             ++ " quote at position " ++ ofZ quoteStart;
           pe_position :=
             Some {| p_start := Z.to_nat quoteStart; p_end := String.length input |};
           pe_suggestion := Some ("Add closing " ++ quoteChar ++ " character") |} ]
    else [] in
  let '(braceDepth, braceStart) := braceScan 0 (-1) 0 input in
  let errors :=
    if (0 <? braceDepth)%Z then
      List.app errors1
        [ {| pe_code := UNMATCHED_BRACE;
             pe_message :=
               "Syntax error: Unmatched opening brace at position " ++ ofZ braceStart;
             pe_position :=
               Some {| p_start := Z.to_nat braceStart; p_end := String.length input |};
             pe_suggestion := Some "Add closing } character" |} ]
    else errors1 in
  {| isValid := (List.length errors =? 0)%nat;
     errors := errors;
     warnings := [] |}.

End Validator.

(* ================================================================== *)
(** * Properties of the specification *)

Import Mapper.

(** The maps the modules hold are the ones their builders compute. *)
Lemma synonymMaps_built : Synonyms.synonymMaps = Synonyms.buildSynonymMaps.
Proof. vm_compute. reflexivity. Qed.

Lemma driverDefaults_built : Defaults.driverDefaults = Defaults.buildDefaultMaps.
Proof. vm_compute. reflexivity. Qed.

(** ** Errors of the parser *)

Lemma push_snd (k : string) (t : Parser.Token) (r : list Parser.Token * list ParseError) :
  snd (Parser.push k t r) = snd r.
Proof. unfold Parser.push. destruct (JS.truthy k); reflexivity. Qed.

Definition scanErrorCode (e : ParseError) : Prop :=
  pe_code e = UNMATCHED_QUOTE \/ pe_code e = UNMATCHED_BRACE.

Lemma finish_errors st ck cv ks vs qc bd i :
  Forall scanErrorCode (snd (Parser.finish st ck cv ks vs qc bd i)).
Proof.
  destruct st; unfold Parser.finish; try (constructor; fail).
  - rewrite push_snd. constructor.
  - rewrite push_snd. constructor; [left; reflexivity | constructor].
  - destruct (0 <? bd)%nat; [rewrite push_snd|]; cbn [snd];
      [constructor; [right; reflexivity | constructor] | constructor].
Qed.

Lemma scan_errors_bounded :
  forall n rest, (String.length rest <= n)%nat ->
  forall st ck cv ks vs qc bd i,
    Forall scanErrorCode (snd (Parser.scan st ck cv ks vs qc bd i rest)).
Proof.
  induction n as [|n IH]; intros rest Hlen st ck cv ks vs qc bd i.
  - destruct rest; [apply finish_errors | simpl in Hlen; lia].
  - destruct rest as [|c rest']; [apply finish_errors|].
    simpl in Hlen.
    assert (Hr : (String.length rest' <= n)%nat) by lia.
    destruct st; cbn [Parser.scan].
    + destruct (Ascii.eqb c "="); [apply IH; exact Hr|].
      destruct (Ascii.eqb c ";"); apply IH; exact Hr.
    + destruct (Ascii.eqb c JS.DQ || Ascii.eqb c "'"); [apply IH; exact Hr|].
      destruct (Ascii.eqb c "{"); [apply IH; exact Hr|].
      destruct (Ascii.eqb c ";"); [rewrite push_snd|]; apply IH; exact Hr.
    + destruct (String.eqb (Parser.str1 c) qc); [|apply IH; exact Hr].
      destruct rest' as [|c2 rest'']; [apply IH; exact Hr|].
      destruct (String.eqb (Parser.str1 c2) qc); apply IH; simpl in *; lia.
    + destruct (Ascii.eqb c "{"); [apply IH; exact Hr|].
      destruct (Ascii.eqb c "}"); [|apply IH; exact Hr].
      destruct rest' as [|c2 rest''].
      * destruct (bd - 1 =? 0)%nat; apply IH; exact Hr.
      * destruct (Ascii.eqb c2 "}") eqn:E.
        -- apply Ascii.eqb_eq in E. subst c2. apply IH. simpl in *; lia.
        -- assert (Hgoal :
             Forall scanErrorCode
               (snd (if (bd - 1 =? 0)%nat
                     then Parser.scan Parser.VALUE ck (cv ++ Parser.str1 c) ks vs qc (bd - 1) (S i) (String c2 rest'')
                     else Parser.scan Parser.BRACED ck (cv ++ Parser.str1 c) ks vs qc (bd - 1) (S i) (String c2 rest''))))
             by (destruct (bd - 1 =? 0)%nat; apply IH; exact Hr).
           destruct c2 as [[] [] [] [] [] [] [] []]; try exact Hgoal.
           discriminate E.
    + apply IH; exact Hr.
Qed.

Lemma parseKeyValuePairs_errors (s : string) :
  Forall scanErrorCode (snd (Parser.parseKeyValuePairs s)).
Proof. apply (scan_errors_bounded (String.length s)). lia. Qed.

Lemma parseJdbcUrl_errors (s : string) :
  Forall (fun e => pe_code e = INVALID_SYNTAX) (snd (Parser.parseJdbcUrl s)).
Proof.
  unfold Parser.parseJdbcUrl.
  destruct (Parser.matchJdbcUrl s) as [[[g1 g2] g3]|]; cbn [snd];
    [constructor | constructor; [reflexivity | constructor]].
Qed.

Lemma parse_too_large (input : string) :
  (MAX_CONNECTION_STRING_SIZE < String.length input)%nat ->
  map pe_code (pcs_errors (Parser.parse input)) = [INPUT_TOO_LARGE]
  /\ pcs_pairs (Parser.parse input) = [].
Proof.
  intros H. unfold Parser.parse.
  apply Nat.ltb_lt in H. rewrite H. split; reflexivity.
Qed.

Lemma parse_within_limit (input : string) :
  (String.length input <= MAX_CONNECTION_STRING_SIZE)%nat ->
  Forall (fun e => pe_code e <> INPUT_TOO_LARGE) (pcs_errors (Parser.parse input)).
Proof.
  intros H. unfold Parser.parse.
  assert (G : (MAX_CONNECTION_STRING_SIZE <? String.length input)%nat = false)
    by (apply Nat.ltb_ge; exact H).
  rewrite G.
  destruct (negb (JS.truthy (JS.trim input))).
  - cbn [Parser.createEmptyResult pcs_errors].
    constructor; [discriminate | constructor].
  - set (d := Detector.detect (JS.trim input)).
    destruct (DriverType_eqb (Detector.driver d) jdbc
              && JS.startsWith "jdbc:sqlserver://" (JS.toLowerCase (JS.trim input))).
    + pose proof (parseJdbcUrl_errors (JS.trim input)) as HJ.
      destruct (Parser.parseJdbcUrl (JS.trim input)) as [[u ps] es].
      cbn [pcs_errors]. cbn [snd] in HJ.
      apply Forall_app. split.
      * eapply Forall_impl; [|exact HJ]. intros e He. cbv beta in He.
        rewrite He. discriminate.
      * eapply Forall_impl; [|apply parseKeyValuePairs_errors].
        intros e [He|He]; rewrite He; discriminate.
    + cbn [pcs_errors app].
      eapply Forall_impl; [|apply parseKeyValuePairs_errors].
      intros e [He|He]; rewrite He; discriminate.
Qed.

Lemma max_size_value : N.of_nat MAX_CONNECTION_STRING_SIZE = 32768%N.
Proof. vm_compute. reflexivity. Qed.

(** C6.  An input of exactly 32768 bytes is parsed without an
    [INPUT_TOO_LARGE] error; an input of 32769 bytes or more fails with
    exactly the error code [INPUT_TOO_LARGE] and an empty set of pairs. *)
Theorem parse_size_boundary (input : string) :
  (N.of_nat (String.length input) = 32768%N ->
     Forall (fun e => pe_code e <> INPUT_TOO_LARGE) (pcs_errors (Parser.parse input)))
  /\ ((32769 <= N.of_nat (String.length input))%N ->
        map pe_code (pcs_errors (Parser.parse input)) = [INPUT_TOO_LARGE]
        /\ pcs_pairs (Parser.parse input) = []).
Proof.
  pose proof max_size_value as HM.
  split; intros H.
  - apply parse_within_limit. lia.
  - apply parse_too_large. lia.
Qed.

(** A text of [n] copies of the letter x. *)
Fixpoint xs (n : nat) : string :=
  match n with
  | O => EmptyString
  | S n' => String "x" (xs n')
  end.

Lemma xs_length (n : nat) : String.length (xs n) = n.
Proof. induction n; simpl; congruence. Qed.

Lemma parse_size_boundary_witness :
  Forall (fun e => pe_code e <> INPUT_TOO_LARGE)
         (pcs_errors (Parser.parse (xs MAX_CONNECTION_STRING_SIZE)))
  /\ (map pe_code (pcs_errors (Parser.parse (xs (S MAX_CONNECTION_STRING_SIZE))))
        = [INPUT_TOO_LARGE]
      /\ pcs_pairs (Parser.parse (xs (S MAX_CONNECTION_STRING_SIZE))) = []).
Proof.
  split.
  - apply (proj1 (parse_size_boundary (xs MAX_CONNECTION_STRING_SIZE))).
    rewrite xs_length. exact max_size_value.
  - apply (proj2 (parse_size_boundary (xs (S MAX_CONNECTION_STRING_SIZE)))).
    rewrite xs_length, Nat2N.inj_succ, max_size_value. discriminate.
Defined.

(** ** The orchestrator *)

(** C1.  When parsing reports an error, [translate] returns [success = false],
    an empty connection string, empty keyword lists and a non-empty error
    list; when parsing reports none, it returns [success = true] with an
    empty error list. *)
Theorem translate_short_circuit
  (localeCompare : string -> string -> Z)
  (input : string) (target : DriverType) (options : TranslationOptions) :
  let r := Translator.translate localeCompare input target options in
  (pcs_errors (Parser.parse input) <> [] ->
     success r = false
     /\ connectionString r = ""
     /\ tr_translatedKeywords r = []
     /\ tr_untranslatableKeywords r = []
     /\ tr_errors r <> [])
  /\ (pcs_errors (Parser.parse input) = [] ->
        success r = true /\ tr_errors r = []).
Proof.
  cbv zeta. unfold Translator.translate.
  destruct (pcs_errors (Parser.parse input)) as [|e es] eqn:E.
  - split; [intros H; contradiction H; reflexivity|].
    intros _. cbn. split; reflexivity.
  - split; [|discriminate].
    intros _. cbn. repeat split. discriminate.
Qed.

Example translate_short_circuit_failure (lc : string -> string -> Z) :
  pcs_errors (Parser.parse "Server=localhost;Password={unclosed") <> []
  /\ success (Translator.translate lc "Server=localhost;Password={unclosed" odbc noOptions) = false.
Proof. split; [vm_compute; discriminate | vm_compute; reflexivity]. Qed.

Example translate_short_circuit_success (lc : string -> string -> Z) :
  pcs_errors (Parser.parse "Server=localhost;Database=mydb") = []
  /\ success (Translator.translate lc "Server=localhost;Database=mydb" odbc noOptions) = true.
Proof. split; vm_compute; reflexivity. Qed.

(** C10.  A failed translation carries one [PARSE_FAILED] error per parse
    error, with the message of the parse error and not its code. *)
Theorem translate_failure_codes
  (localeCompare : string -> string -> Z)
  (input : string) (target : DriverType) (options : TranslationOptions) :
  success (Translator.translate localeCompare input target options) = false ->
  tr_errors (Translator.translate localeCompare input target options)
    = map (fun e => {| te_code := PARSE_FAILED; te_message := pe_message e |})
          (pcs_errors (Parser.parse input))
  /\ Forall (fun e => te_code e = PARSE_FAILED)
            (tr_errors (Translator.translate localeCompare input target options)).
Proof.
  unfold Translator.translate.
  destruct (0 <? List.length (pcs_errors (Parser.parse input)))%nat; cbn; [|discriminate].
  intros _. split; [reflexivity|].
  induction (pcs_errors (Parser.parse input)); cbn; constructor; auto.
Qed.

Lemma translate_failure_codes_witness :
  tr_errors (Translator.translate (fun _ _ => 0%Z) "Server=localhost;Password={unclosed" odbc noOptions)
    = [ {| te_code := PARSE_FAILED; te_message := "Unclosed brace starting at position 26" |} ].
Proof.
  rewrite (proj1 (translate_failure_codes (fun _ _ => 0%Z)
                    "Server=localhost;Password={unclosed" odbc noOptions eq_refl)).
  vm_compute. reflexivity.
Defined.

(** ** Escaping *)

Lemma replaceDoubled_replaceChar (c : ascii) (s : string) :
  JS.replaceDoubled c (JS.replaceChar c (String c (String c EmptyString)) s) = s.
Proof.
  induction s as [|d s IH]; [reflexivity|].
  cbn [JS.replaceChar]. destruct (Ascii.eqb c d) eqn:E.
  - apply Ascii.eqb_eq in E. subst d. cbn [append JS.replaceDoubled].
    rewrite Ascii.eqb_refl. cbn [andb]. rewrite IH. reflexivity.
  - cbn [JS.replaceDoubled]. rewrite E. cbn [andb].
    destruct (JS.replaceChar c (String c (String c EmptyString)) s) eqn:R.
    + rewrite <- IH. reflexivity.
    + rewrite IH. reflexivity.
Qed.

Lemma last_char_snoc (s : string) (d : ascii) :
  JS.last_char (s ++ String d EmptyString) = Some d.
Proof.
  induction s as [|c s IH]; [reflexivity|].
  cbn [append JS.last_char]. rewrite IH.
  destruct (s ++ String d EmptyString) eqn:E; [|reflexivity].
  destruct s; discriminate E.
Qed.

Lemma removeLast_snoc (s : string) (d : ascii) :
  JS.removeLast (s ++ String d EmptyString) = s.
Proof.
  induction s as [|c s IH]; [reflexivity|].
  cbn [append JS.removeLast]. rewrite IH.
  destruct (s ++ String d EmptyString) eqn:E; [|reflexivity].
  destruct s; discriminate E.
Qed.

Lemma trimEnd_fixed (s : string) (d : ascii) :
  JS.last_char s = Some d -> JS.is_space d = false -> JS.trimEnd s = s.
Proof.
  induction s as [|c s IH]; intros HL HS; [discriminate HL|].
  cbn [JS.trimEnd]. destruct s as [|c' s'].
  - cbn in HL. injection HL as ->. cbn. rewrite HS. reflexivity.
  - rewrite IH; [reflexivity | exact HL | exact HS].
Qed.

Lemma trim_wrapped (o cl : ascii) (body : string) :
  JS.is_space o = false -> JS.is_space cl = false ->
  JS.trim (String o (body ++ String cl EmptyString)) = String o (body ++ String cl EmptyString).
Proof.
  intros Ho Hc. unfold JS.trim. cbn [JS.trimStart]. rewrite Ho.
  apply (trimEnd_fixed _ cl); [|exact Hc].
  change (String o (body ++ String cl EmptyString))
    with ((String o body) ++ String cl EmptyString).
  apply last_char_snoc.
Qed.

Lemma endsWithChar_wrapped (c o cl : ascii) (body : string) :
  JS.endsWithChar c (String o (body ++ String cl EmptyString)) = Ascii.eqb c cl.
Proof.
  unfold JS.endsWithChar.
  change (String o (body ++ String cl EmptyString))
    with ((String o body) ++ String cl EmptyString).
  rewrite last_char_snoc. reflexivity.
Qed.

Lemma unescape_double_quoted (v : string) :
  Escaping.unescapeValue
    (JS.dq ++ JS.replaceChar JS.DQ (JS.dq ++ JS.dq) v ++ JS.dq) = v.
Proof.
  unfold Escaping.unescapeValue, JS.dq. cbn [append JS.truthy negb].
  rewrite trim_wrapped by reflexivity.
  rewrite !endsWithChar_wrapped. unfold JS.startsWithChar.
  rewrite Ascii.eqb_refl. cbn [andb JS.slice_1_m1].
  rewrite removeLast_snoc. apply replaceDoubled_replaceChar.
Qed.

Lemma unescape_braced (v : string) :
  Escaping.unescapeValue ("{" ++ JS.replaceChar "}" "}}" v ++ "}") = v.
Proof.
  unfold Escaping.unescapeValue. cbn [append JS.truthy negb].
  rewrite trim_wrapped by reflexivity.
  rewrite !endsWithChar_wrapped. unfold JS.startsWithChar.
  replace (Ascii.eqb JS.DQ "{") with false by reflexivity.
  replace (Ascii.eqb "'" "{") with false by reflexivity.
  replace (Ascii.eqb "{" "{") with true by reflexivity.
  replace (Ascii.eqb "}" "}") with true by reflexivity.
  cbn [andb JS.slice_1_m1].
  rewrite removeLast_snoc. apply replaceDoubled_replaceChar.
Qed.

Lemma last_char_in (s : string) (d : ascii) :
  JS.last_char s = Some d -> JS.includesChar d s = true.
Proof.
  induction s as [|c s IH]; [discriminate|].
  cbn [JS.last_char JS.includesChar]. destruct s as [|c' s'].
  - intros H. injection H as ->. rewrite Ascii.eqb_refl. reflexivity.
  - intros H. rewrite (IH H). apply orb_true_r.
Qed.

Lemma unescape_plain (v : string) :
  Escaping.needsEscaping v = false -> Escaping.unescapeValue v = v.
Proof.
  intros H. unfold Escaping.needsEscaping, Escaping.SPECIAL_CHARS in H.
  cbn [existsb] in H.
  repeat (apply orb_false_elim in H; destruct H as [? H]).
  unfold Escaping.unescapeValue.
  destruct (negb (JS.truthy v)); [reflexivity|].
  assert (Hend : forall c, JS.includesChar c v = false ->
                           JS.endsWithChar c (JS.trim v) = false).
  { intros c Hc. unfold JS.endsWithChar.
    destruct (JS.last_char (JS.trim v)) as [d|] eqn:L; [|reflexivity].
    destruct (Ascii.eqb c d) eqn:E; [|reflexivity].
    apply Ascii.eqb_eq in E. subst d. exfalso.
    apply last_char_in in L.
    assert (Hsub : forall s, JS.includesChar c (JS.trimEnd s) = true ->
                             JS.includesChar c s = true).
    { induction s as [|a s IHs]; [discriminate|].
      cbn [JS.trimEnd JS.includesChar].
      destruct (JS.trimEnd s) eqn:T.
      - destruct (JS.is_space a); [discriminate|]. cbn.
        intros Ha. apply orb_true_iff in Ha. destruct Ha as [Ha|Ha]; [|discriminate].
        rewrite Ha. reflexivity.
      - cbn [JS.includesChar]. intros Ha. apply orb_true_iff in Ha.
        destruct Ha as [Ha|Ha]; [rewrite Ha; reflexivity|].
        rewrite IHs; [apply orb_true_r | exact Ha]. }
    assert (Hsub2 : forall s, JS.includesChar c (JS.trimStart s) = true ->
                              JS.includesChar c s = true).
    { induction s as [|a s IHs]; [discriminate|].
      cbn [JS.trimStart]. destruct (JS.is_space a); [|auto].
      intros Ha. cbn. rewrite (IHs Ha). apply orb_true_r. }
    unfold JS.trim in L. apply Hsub in L. apply Hsub2 in L. congruence. }
  rewrite (Hend JS.DQ) by assumption.
  rewrite (Hend "'"%char) by assumption.
  rewrite (Hend "}"%char) by assumption.
  rewrite !andb_false_r. reflexivity.
Qed.

(** C2, as the code has it.  For the six drivers other than Rust, escaping
    a value and de-escaping the result gives the value back. *)
Theorem escape_roundtrip_non_rust (value : string) (driver : DriverType) :
  driver <> rust ->
  Escaping.unescapeValue (Escaping.escapeValue value driver) = value.
Proof.
  intros Hd. unfold Escaping.escapeValue.
  destruct (Escaping.needsEscaping value) eqn:N; cbn [negb].
  - destruct driver; try apply unescape_double_quoted; try apply unescape_braced.
    contradiction Hd. reflexivity.
  - apply unescape_plain. exact N.
Qed.

(** The value made of the six special characters. *)
Definition allSpecial : string := ";={}" ++ JS.dq ++ "'".

Lemma escape_roundtrip_non_rust_witness :
  Escaping.unescapeValue (Escaping.escapeValue allSpecial odbc) = allSpecial.
Proof.
  apply (escape_roundtrip_non_rust allSpecial odbc). discriminate.
Defined.

(** C2 fails for Rust: the value of the six special characters comes back
    with a backslash ahead of its double quote. *)
Lemma escape_roundtrip_rust_counterexample :
  forallb (fun c => JS.includesChar c allSpecial) Escaping.SPECIAL_CHARS = true
  /\ Escaping.unescapeValue (Escaping.escapeValue allSpecial rust)
       = ";={}\" ++ JS.dq ++ "'"
  /\ Escaping.unescapeValue (Escaping.escapeValue allSpecial rust) <> allSpecial.
Proof.
  split; [vm_compute; reflexivity|].
  split; [vm_compute; reflexivity|].
  vm_compute. discriminate.
Qed.

(** ** The mapper: what the loop over the pairs records *)

Lemma insertSorted_In {A : Type} (cmp : A -> A -> Z) (x y : A) (l : list A) :
  In y (insertSorted cmp x l) <-> y = x \/ In y l.
Proof.
  induction l as [|z l IH]; cbn [insertSorted].
  - cbn. intuition.
  - destruct (cmp x z <=? 0)%Z; cbn [In]; [intuition|].
    rewrite IH. cbn. intuition.
Qed.

Lemma sortBy_In {A : Type} (cmp : A -> A -> Z) (y : A) (l : list A) :
  In y (sortBy cmp l) <-> In y l.
Proof.
  induction l as [|x l IH]; cbn [sortBy fold_right]; [reflexivity|].
  fold (sortBy cmp l). rewrite insertSorted_In, IH. cbn. intuition.
Qed.

Lemma applyOrder_In (lc : string -> string -> Z) (options : TranslationOptions)
  (y : TranslatedKeyword) (l : list TranslatedKeyword) :
  In y (applyOrder lc options l) <-> In y l.
Proof.
  unfold applyOrder.
  destruct (keywordOrder_opt options) as [[| |]|]; try reflexivity; apply sortBy_In.
Qed.

(** The entry a translatable pair adds to [translatedKeywords]. *)
Definition translatedEntry (targetDriver : DriverType) (c : DriverKeyword) (name : string)
  (canonicalId : string) (pv : ParsedValue) : TranslatedKeyword :=
  {| sourceKeyword := keywordText pv canonicalId;
     sourceValue := normalized pv;
     targetKeyword := name;
     targetValue := fst (transformValue c targetDriver (normalized pv));
     valueTransformed := snd (transformValue c targetDriver (normalized pv)) |}.

Lemma mapPair_translated_incl src tgt opts acc e x :
  In x (translatedKeywords acc) -> In x (translatedKeywords (mapPair src tgt opts acc e)).
Proof.
  intros H. unfold mapPair. destruct e as [id pv].
  destruct (Keywords.getKeywordById id) as [kw|].
  - destruct (driversGet tgt (kw_drivers kw)) as [c|].
    + destruct (dk_name c) as [n|].
      * destruct (transformValue c tgt (normalized pv)). cbn. apply in_or_app. left. exact H.
      * destruct (DriverType_eqb tgt jdbc && String.eqb id "server"); exact H.
    + destruct (DriverType_eqb tgt jdbc && String.eqb id "server"); exact H.
  - destruct (preserveUnknown opts); cbn; [apply in_or_app; left|]; exact H.
Qed.

Lemma mapPair_untranslatable_incl src tgt opts acc e x :
  In x (untranslatableKeywords acc) -> In x (untranslatableKeywords (mapPair src tgt opts acc e)).
Proof.
  intros H. unfold mapPair. destruct e as [id pv].
  destruct (Keywords.getKeywordById id) as [kw|].
  - destruct (driversGet tgt (kw_drivers kw)) as [c|].
    + destruct (dk_name c) as [n|].
      * destruct (transformValue c tgt (normalized pv)). exact H.
      * destruct (DriverType_eqb tgt jdbc && String.eqb id "server");
          cbn; [|apply in_or_app; left]; exact H.
    + destruct (DriverType_eqb tgt jdbc && String.eqb id "server");
        cbn; [|apply in_or_app; left]; exact H.
  - destruct (preserveUnknown opts); cbn; [|apply in_or_app; left]; exact H.
Qed.

Lemma fold_translated_incl src tgt opts l : forall acc x,
  In x (translatedKeywords acc) ->
  In x (translatedKeywords (fold_left (mapPair src tgt opts) l acc)).
Proof.
  induction l as [|e l IH]; intros acc x H; [exact H|].
  cbn [fold_left]. apply IH. apply mapPair_translated_incl. exact H.
Qed.

Lemma fold_untranslatable_incl src tgt opts l : forall acc x,
  In x (untranslatableKeywords acc) ->
  In x (untranslatableKeywords (fold_left (mapPair src tgt opts) l acc)).
Proof.
  induction l as [|e l IH]; intros acc x H; [exact H|].
  cbn [fold_left]. apply IH. apply mapPair_untranslatable_incl. exact H.
Qed.

Lemma mapPair_translates src tgt opts acc id pv kw c n :
  Keywords.getKeywordById id = Some kw ->
  driversGet tgt (kw_drivers kw) = Some c ->
  dk_name c = Some n ->
  In (translatedEntry tgt c n id pv) (translatedKeywords (mapPair src tgt opts acc (id, pv))).
Proof.
  intros Hk Hc Hn. unfold mapPair. rewrite Hk, Hc, Hn.
  unfold translatedEntry.
  destruct (transformValue c tgt (normalized pv)) as [tv tr]. cbn.
  apply in_or_app. right. left. reflexivity.
Qed.

(** The entry an untranslatable pair adds to [untranslatableKeywords]. *)
Definition untranslatableEntry (src tgt : DriverType) (kw : Keyword)
  (canonicalId : string) (pv : ParsedValue) : UntranslatableKeyword :=
  {| uk_keyword := keywordText pv canonicalId;
     uk_value := normalized pv;
     uk_reason := getUntranslatableReason kw tgt src |}.

(** The target representation is absent or has a null name. *)
Definition noTargetName (tgt : DriverType) (kw : Keyword) : Prop :=
  match driversGet tgt (kw_drivers kw) with
  | Some c => dk_name c = None
  | None => True
  end.

Lemma mapPair_untranslatable src tgt opts acc id pv kw :
  Keywords.getKeywordById id = Some kw ->
  noTargetName tgt kw ->
  ~ (tgt = jdbc /\ id = "server") ->
  In (untranslatableEntry src tgt kw id pv)
     (untranslatableKeywords (mapPair src tgt opts acc (id, pv))).
Proof.
  intros Hk Hn Hs. unfold mapPair, noTargetName in *. rewrite Hk.
  assert (Hb : DriverType_eqb tgt jdbc && String.eqb id "server" = false).
  { destruct (DriverType_eqb tgt jdbc) eqn:E1; [|reflexivity].
    destruct (String.eqb id "server") eqn:E2; [|reflexivity].
    exfalso. apply Hs. split; [destruct tgt; try discriminate E1; reflexivity|].
    apply String.eqb_eq. exact E2. }
  destruct (driversGet tgt (kw_drivers kw)) as [c|].
  - rewrite Hn, Hb. cbn. apply in_or_app. right. left. reflexivity.
  - rewrite Hb. cbn. apply in_or_app. right. left. reflexivity.
Qed.

Lemma fold_translates src tgt opts l : forall acc id pv kw c n,
  In (id, pv) l ->
  Keywords.getKeywordById id = Some kw ->
  driversGet tgt (kw_drivers kw) = Some c ->
  dk_name c = Some n ->
  In (translatedEntry tgt c n id pv)
     (translatedKeywords (fold_left (mapPair src tgt opts) l acc)).
Proof.
  induction l as [|e l IH]; intros acc id pv kw c n Hin Hk Hc Hn; [destruct Hin|].
  cbn [fold_left]. destruct Hin as [-> | Hin].
  - apply fold_translated_incl. eapply mapPair_translates; eassumption.
  - eapply IH; eassumption.
Qed.

Lemma fold_untranslatable src tgt opts l : forall acc id pv kw,
  In (id, pv) l ->
  Keywords.getKeywordById id = Some kw ->
  noTargetName tgt kw ->
  ~ (tgt = jdbc /\ id = "server") ->
  In (untranslatableEntry src tgt kw id pv)
     (untranslatableKeywords (fold_left (mapPair src tgt opts) l acc)).
Proof.
  induction l as [|e l IH]; intros acc id pv kw Hin Hk Hn Hs; [destruct Hin|].
  cbn [fold_left]. destruct Hin as [-> | Hin].
  - apply fold_untranslatable_incl. apply mapPair_untranslatable; assumption.
  - apply IH; assumption.
Qed.

Lemma mapKeywords_translates lc parsed tgt opts id pv kw c n :
  In (id, pv) (pcs_pairs parsed) ->
  Keywords.getKeywordById id = Some kw ->
  driversGet tgt (kw_drivers kw) = Some c ->
  dk_name c = Some n ->
  In (translatedEntry tgt c n id pv) (translatedKeywords (mapKeywords lc parsed tgt opts)).
Proof.
  intros. unfold mapKeywords. cbn [translatedKeywords].
  apply applyOrder_In. eapply fold_translates; eassumption.
Qed.

(** ** Boolean normalisation and enum coercion *)

(** The spellings of the specification. *)
Definition trueSpellings : list string :=
  ["True"; "true"; "TRUE"; "Yes"; "yes"; "1"; "on"; "SSPI"].

Definition falseSpellings : list string :=
  ["False"; "false"; "No"; "no"; "0"; "off"].

(** The canonical spellings of the specification: True/False for sqlclient
    and python, Yes/No for odbc, true/false for jdbc, php and rust.  The
    specification's sentence leaves oledb out; the code gives it True/False. *)
Definition canonicalSpelling (b : bool) (d : DriverType) : string :=
  match d with
  | sqlclient | python | oledb => if b then "True" else "False"
  | odbc => if b then "Yes" else "No"
  | jdbc | php | rust => if b then "true" else "false"
  end.

Lemma transformValue_boolean (c : DriverKeyword) (tgt : DriverType) (v : string) (b : bool) :
  dk_type c = TBoolean ->
  In v (if b then trueSpellings else falseSpellings) ->
  transformValue c tgt v
    = (canonicalSpelling b tgt,
       negb (String.eqb (JS.toLowerCase (canonicalSpelling b tgt)) (JS.toLowerCase v))).
Proof.
  intros Ht Hin. unfold transformValue. rewrite Ht.
  destruct b; cbn in Hin;
    repeat (destruct Hin as [<- | Hin]; [destruct tgt; reflexivity|]);
    destruct Hin.
Qed.

(** C4, as the code has it.  For a pair whose target representation is
    boolean-typed and has a name, a source value among the true spellings
    is emitted as the canonical true-spelling of the target driver, a
    source value among the false spellings as the canonical false-spelling,
    and [valueTransformed] holds exactly when the emitted text and the
    source value differ after lowercasing. *)
Theorem boolean_normalization
  (localeCompare : string -> string -> Z)
  (parsed : ParsedConnectionString) (target : DriverType) (options : TranslationOptions)
  (id : string) (pv : ParsedValue) (kw : Keyword) (c : DriverKeyword) (name : string)
  (b : bool) :
  In (id, pv) (pcs_pairs parsed) ->
  Keywords.getKeywordById id = Some kw ->
  driversGet target (kw_drivers kw) = Some c ->
  dk_name c = Some name ->
  dk_type c = TBoolean ->
  In (normalized pv) (if b then trueSpellings else falseSpellings) ->
  In {| sourceKeyword := keywordText pv id;
        sourceValue := normalized pv;
        targetKeyword := name;
        targetValue := canonicalSpelling b target;
        valueTransformed :=
          negb (String.eqb (JS.toLowerCase (canonicalSpelling b target))
                           (JS.toLowerCase (normalized pv))) |}
     (translatedKeywords (mapKeywords localeCompare parsed target options))
  /\ canonicalSpelling b target = Defaults.formatBooleanForDriver b target.
Proof.
  intros Hin Hk Hc Hn Ht Hv. split.
  - pose proof (mapKeywords_translates localeCompare parsed target options
                  id pv kw c name Hin Hk Hc Hn) as H.
    unfold translatedEntry in H.
    rewrite (transformValue_boolean c target (normalized pv) b Ht Hv) in H.
    exact H.
  - destruct b, target; reflexivity.
Qed.

Lemma boolean_normalization_witness :
  In {| sourceKeyword := "MultiSubnetFailover";
        sourceValue := "Yes";
        targetKeyword := "multiSubnetFailover";
        targetValue := "true";
        valueTransformed := true |}
     (translatedKeywords
        (mapKeywords (fun _ _ => 0%Z)
           (Parser.parse "Server=localhost;MultiSubnetFailover=Yes") jdbc noOptions))
  /\ canonicalSpelling true jdbc = Defaults.formatBooleanForDriver true jdbc.
Proof.
  apply (boolean_normalization (fun _ _ => 0%Z)
           (Parser.parse "Server=localhost;MultiSubnetFailover=Yes") jdbc noOptions
           "multisubnetfailover"
           {| raw := "Yes"; normalized := "Yes";
              position := {| p_start := 17; p_end := 40 |};
              wasQuoted := false;
              originalKeyword := Some "MultiSubnetFailover" |}
           (KW "multisubnetfailover" "MultiSubnetFailover" cat_hadr
             [ (sqlclient, DK (Some "MultiSubnetFailover") [] TBoolean (Some (VBool false)) false false []);
               (odbc, DK (Some "MultiSubnetFailover") [] TBoolean (Some (VBool false)) false false ["Yes"; "No"]);
               (oledb, DK (Some "MultiSubnetFailover") [] TBoolean (Some (VBool false)) false false []);
               (jdbc, DK (Some "multiSubnetFailover") [] TBoolean (Some (VBool false)) false false []);
               (php, DK (Some "MultiSubnetFailover") [] TBoolean (Some (VBool false)) false false []);
               (python, DK None [] TBoolean None false false []);
               (rust, DK None [] TBoolean None false false []) ])
           (DK (Some "multiSubnetFailover") [] TBoolean (Some (VBool false)) false false [])
           "multiSubnetFailover" true).
  - vm_compute. right. left. reflexivity.
  - vm_compute. reflexivity.
  - vm_compute. reflexivity.
  - reflexivity.
  - reflexivity.
  - vm_compute. right. right. right. left. reflexivity.
Defined.

(** C4 fails as stated for a boolean-typed representation without a name:
    Python's representation of MultiSubnetFailover is boolean-typed and
    nameless, and the pair is recorded as untranslatable, no spelling being
    emitted. *)
Lemma boolean_normalization_counterexample :
  option_map (fun kw => option_map (fun c => (dk_type c, dk_name c))
                                   (driversGet python (kw_drivers kw)))
             (Keywords.getKeywordById "multisubnetfailover")
    = Some (Some (TBoolean, None))
  /\ map (fun e => (fst e, normalized (snd e)))
         (pcs_pairs (Parser.parse "MultiSubnetFailover=True"))
     = [("multisubnetfailover", "True")]
  /\ In "True" trueSpellings
  /\ translatedKeywords
       (mapKeywords (fun _ _ => 0%Z) (Parser.parse "MultiSubnetFailover=True") python noOptions)
     = []
  /\ untranslatableKeywords
       (mapKeywords (fun _ _ => 0%Z) (Parser.parse "MultiSubnetFailover=True") python noOptions)
     = [ {| uk_keyword := "MultiSubnetFailover";
            uk_value := "True";
            uk_reason := BLOCKED_ALLOWLIST |} ].
Proof.
  split; [vm_compute; reflexivity|].
  split; [vm_compute; reflexivity|].
  split; [left; reflexivity|].
  split; vm_compute; reflexivity.
Qed.

Lemma transformValue_enum (c : DriverKeyword) (tgt : DriverType) (v first : string)
  (others : list string) :
  dk_type c = TEnum ->
  dk_enumValues c = first :: others ->
  Defaults.normalizeBooleanValue (VStr v) = Some true ->
  transformValue c tgt v = (first, true).
Proof.
  intros Ht He Hb. unfold transformValue. rewrite Ht, He, Hb. reflexivity.
Qed.

(** In the registry, every enum-typed representation that lists enum
    values has a name. *)
Definition enumWithValuesNamed (c : DriverKeyword) : bool :=
  match dk_type c, dk_enumValues c with
  | TEnum, _ :: _ => hasName c
  | _, _ => true
  end.

Lemma registry_enums_named :
  forallb (fun kw => forallb (fun e => enumWithValuesNamed (snd e)) (kw_drivers kw))
          Keywords.keywords = true.
Proof. vm_compute. reflexivity. Qed.

Lemma getKeywordById_In (id : string) (kw : Keyword) :
  Keywords.getKeywordById id = Some kw -> In kw Keywords.keywords.
Proof. unfold Keywords.getKeywordById. intros H. apply find_some in H. apply H. Qed.

Lemma driversGet_In (d : DriverType) (l : list (DriverType * DriverKeyword)) (c : DriverKeyword) :
  driversGet d l = Some c -> In (d, c) l.
Proof.
  induction l as [|[d' c'] l IH]; cbn [driversGet]; [discriminate|].
  destruct (DriverType_eqb d d') eqn:E.
  - intros H. injection H as ->. left.
    destruct d, d'; try discriminate E; reflexivity.
  - intros H. right. apply IH. exact H.
Qed.

Lemma enum_representation_named (id : string) (kw : Keyword) (target : DriverType)
  (c : DriverKeyword) (first : string) (others : list string) :
  Keywords.getKeywordById id = Some kw ->
  driversGet target (kw_drivers kw) = Some c ->
  dk_type c = TEnum ->
  dk_enumValues c = first :: others ->
  exists name, dk_name c = Some name.
Proof.
  intros Hk Hc Ht He.
  pose proof registry_enums_named as R. rewrite forallb_forall in R.
  specialize (R kw (getKeywordById_In id kw Hk)). rewrite forallb_forall in R.
  specialize (R (target, c) (driversGet_In target _ c Hc)).
  cbn [snd] in R. unfold enumWithValuesNamed, hasName in R. rewrite Ht, He in R.
  destruct (dk_name c) as [n|]; [exists n; reflexivity | discriminate R].
Qed.

(** C8.  [Integrated Security=True], translated to OLEDB, becomes
    [Integrated Security=SSPI] with [valueTransformed = true]; in general a
    pair whose target representation is enum-typed with a non-empty
    [enumValues], and whose source value normalises to the boolean true,
    is emitted under the name of the representation with the first enum
    value, and marked as transformed. *)
Theorem enum_coercion (localeCompare : string -> string -> Z) :
  (tr_translatedKeywords
     (Translator.translate localeCompare "Integrated Security=True" oledb noOptions)
   = [ {| sourceKeyword := "Integrated Security";
          sourceValue := "True";
          targetKeyword := "Integrated Security";
          targetValue := "SSPI";
          valueTransformed := true |} ]
   /\ connectionString
        (Translator.translate localeCompare "Integrated Security=True" oledb noOptions)
      = "Integrated Security=SSPI;")
  /\ (forall (parsed : ParsedConnectionString) (target : DriverType)
             (options : TranslationOptions) (id : string) (pv : ParsedValue)
             (kw : Keyword) (c : DriverKeyword) (first : string)
             (others : list string),
        In (id, pv) (pcs_pairs parsed) ->
        Keywords.getKeywordById id = Some kw ->
        driversGet target (kw_drivers kw) = Some c ->
        dk_type c = TEnum ->
        dk_enumValues c = first :: others ->
        Defaults.normalizeBooleanValue (VStr (normalized pv)) = Some true ->
        exists name,
          dk_name c = Some name
          /\ In {| sourceKeyword := keywordText pv id;
                   sourceValue := normalized pv;
                   targetKeyword := name;
                   targetValue := first;
                   valueTransformed := true |}
                (translatedKeywords (mapKeywords localeCompare parsed target options))).
Proof.
  split.
  - split; vm_compute; reflexivity.
  - intros parsed target options id pv kw c first others Hin Hk Hc Ht He Hb.
    destruct (enum_representation_named id kw target c first others Hk Hc Ht He) as [name Hn].
    exists name. split; [exact Hn|].
    pose proof (mapKeywords_translates localeCompare parsed target options
                  id pv kw c name Hin Hk Hc Hn) as H.
    unfold translatedEntry in H.
    rewrite (transformValue_enum c target (normalized pv) first others Ht He Hb) in H.
    exact H.
Qed.

(** ** The taxonomy of untranslatable keywords *)

Lemma mapKeywords_untranslatable lc parsed tgt opts id pv kw :
  In (id, pv) (pcs_pairs parsed) ->
  Keywords.getKeywordById id = Some kw ->
  noTargetName tgt kw ->
  ~ (tgt = jdbc /\ id = "server") ->
  In (untranslatableEntry (pcs_driver parsed) tgt kw id pv)
     (untranslatableKeywords (mapKeywords lc parsed tgt opts)).
Proof.
  intros. unfold mapKeywords. cbn [untranslatableKeywords].
  apply fold_untranslatable; assumption.
Qed.

(** The conditions of the taxonomy. *)
Definition pythonBlocked (target : DriverType) (kw : Keyword) : Prop :=
  target = python /\ Python.isPythonBlockedKeyword (kw_id kw) = true.

Definition targetDeprecated (target : DriverType) (kw : Keyword) : Prop :=
  exists c, driversGet target (kw_drivers kw) = Some c /\ dk_deprecated c = true.

(** Exactly one driver has a name for the keyword, and it is [source]. *)
Definition soleDriver (source : DriverType) (kw : Keyword) : Prop :=
  supportedDrivers kw = [source].

Lemma DriverType_eqb_eq (a b : DriverType) : DriverType_eqb a b = true <-> a = b.
Proof. destruct a, b; cbn; split; intros H; try reflexivity; discriminate H. Qed.

Lemma reason_cases (kw : Keyword) (target source : DriverType) :
  (pythonBlocked target kw ->
     getUntranslatableReason kw target source = BLOCKED_ALLOWLIST)
  /\ (~ pythonBlocked target kw -> targetDeprecated target kw ->
        getUntranslatableReason kw target source = DEPRECATED)
  /\ (~ pythonBlocked target kw -> ~ targetDeprecated target kw -> soleDriver source kw ->
        getUntranslatableReason kw target source = DRIVER_SPECIFIC)
  /\ (~ pythonBlocked target kw -> ~ targetDeprecated target kw -> ~ soleDriver source kw ->
        getUntranslatableReason kw target source = NOT_SUPPORTED).
Proof.
  unfold pythonBlocked, targetDeprecated, soleDriver, getUntranslatableReason.
  destruct (DriverType_eqb target python && Python.isPythonBlockedKeyword (kw_id kw)) eqn:B.
  - apply andb_true_iff in B. destruct B as [B1 B2]. apply DriverType_eqb_eq in B1.
    repeat split; intros; try reflexivity; exfalso; auto.
  - assert (NB : ~ (target = python /\ Python.isPythonBlockedKeyword (kw_id kw) = true)).
    { intros [E1 E2]. apply DriverType_eqb_eq in E1. rewrite E1, E2 in B. discriminate B. }
    split; [intros H; contradiction|].
    destruct (driversGet target (kw_drivers kw)) as [c|] eqn:C.
    + destruct (dk_deprecated c) eqn:D.
      * repeat split; intros; try reflexivity.
        -- exfalso. apply H0. exists c. split; [reflexivity | exact D].
        -- exfalso. apply H0. exists c. split; [reflexivity | exact D].
      * split; [intros _ [c' [E1 E2]]; injection E1 as <-; congruence|].
        split.
        -- intros _ _ ->. rewrite (proj2 (DriverType_eqb_eq source source) eq_refl).
           reflexivity.
        -- intros _ _ Hs. destruct (supportedDrivers kw) as [|d [|d' l]]; try reflexivity.
           destruct (DriverType_eqb d source) eqn:E; [|reflexivity].
           apply DriverType_eqb_eq in E. subst d. contradiction Hs. reflexivity.
    + split; [intros _ [c' [E1 E2]]; discriminate E1|].
      split.
      * intros _ _ ->. rewrite (proj2 (DriverType_eqb_eq source source) eq_refl).
        reflexivity.
      * intros _ _ Hs. destruct (supportedDrivers kw) as [|d [|d' l]]; try reflexivity.
        destruct (DriverType_eqb d source) eqn:E; [|reflexivity].
        apply DriverType_eqb_eq in E. subst d. contradiction Hs. reflexivity.
Qed.

(** C3, as the code has it.  A pair whose keyword is in the registry and
    whose target representation is absent or nameless (the JDBC server case
    apart) is recorded as untranslatable, with the reason given by the first
    match of: BLOCKED_ALLOWLIST (target python and id on the allowlist of
    blocked keywords), DEPRECATED (target representation deprecated),
    DRIVER_SPECIFIC (exactly one driver names the keyword and it is the
    detected source driver), NOT_SUPPORTED. *)
Theorem untranslatable_reason_priority
  (localeCompare : string -> string -> Z)
  (parsed : ParsedConnectionString) (target : DriverType) (options : TranslationOptions)
  (id : string) (pv : ParsedValue) (kw : Keyword) :
  In (id, pv) (pcs_pairs parsed) ->
  Keywords.getKeywordById id = Some kw ->
  noTargetName target kw ->
  ~ (target = jdbc /\ id = "server") ->
  exists reason : UntranslatableReason,
    In {| uk_keyword := keywordText pv id;
          uk_value := normalized pv;
          uk_reason := reason |}
       (untranslatableKeywords (mapKeywords localeCompare parsed target options))
    /\ (pythonBlocked target kw -> reason = BLOCKED_ALLOWLIST)
    /\ (~ pythonBlocked target kw -> targetDeprecated target kw -> reason = DEPRECATED)
    /\ (~ pythonBlocked target kw -> ~ targetDeprecated target kw ->
          soleDriver (pcs_driver parsed) kw -> reason = DRIVER_SPECIFIC)
    /\ (~ pythonBlocked target kw -> ~ targetDeprecated target kw ->
          ~ soleDriver (pcs_driver parsed) kw -> reason = NOT_SUPPORTED).
Proof.
  intros Hin Hk Hn Hs.
  exists (getUntranslatableReason kw target (pcs_driver parsed)). split.
  - exact (mapKeywords_untranslatable localeCompare parsed target options id pv kw Hin Hk Hn Hs).
  - apply reason_cases.
Qed.

(** The registry entry of [Enlist], which only SqlClient names. *)
Definition enlistKeyword : Keyword :=
  KW "enlist" "Enlist" cat_behavior
    [ (sqlclient, DK (Some "Enlist") [] TBoolean (Some (VBool true)) false false []);
      (odbc, DK None [] TBoolean None false false []);
      (oledb, DK None [] TBoolean None false false []);
      (jdbc, DK None [] TBoolean None false false []);
      (php, DK None [] TBoolean None false false []);
      (python, DK None [] TBoolean None false false []);
      (rust, DK None [] TBoolean None false false []) ].

Definition enlistValue : ParsedValue :=
  {| raw := "true"; normalized := "true";
     position := {| p_start := 0; p_end := 11 |};
     wasQuoted := false;
     originalKeyword := Some "Enlist" |}.

Lemma untranslatable_reason_priority_witness :
  exists reason : UntranslatableReason,
    In {| uk_keyword := "Enlist"; uk_value := "true"; uk_reason := reason |}
       (untranslatableKeywords
          (mapKeywords (fun _ _ => 0%Z) (Parser.parse "Enlist=true") jdbc noOptions))
    /\ (pythonBlocked jdbc enlistKeyword -> reason = BLOCKED_ALLOWLIST)
    /\ (~ pythonBlocked jdbc enlistKeyword -> targetDeprecated jdbc enlistKeyword ->
          reason = DEPRECATED)
    /\ (~ pythonBlocked jdbc enlistKeyword -> ~ targetDeprecated jdbc enlistKeyword ->
          soleDriver (pcs_driver (Parser.parse "Enlist=true")) enlistKeyword ->
          reason = DRIVER_SPECIFIC)
    /\ (~ pythonBlocked jdbc enlistKeyword -> ~ targetDeprecated jdbc enlistKeyword ->
          ~ soleDriver (pcs_driver (Parser.parse "Enlist=true")) enlistKeyword ->
          reason = NOT_SUPPORTED).
Proof.
  apply (untranslatable_reason_priority (fun _ _ => 0%Z) (Parser.parse "Enlist=true")
           jdbc noOptions "enlist" enlistValue enlistKeyword).
  - vm_compute. left. reflexivity.
  - vm_compute. reflexivity.
  - vm_compute. reflexivity.
  - intros [_ H]. discriminate H.
Defined.

(** C3 fails as stated.  [Enlist] is named by exactly one driver
    (SqlClient); in an input detected as ODBC and translated to JDBC it is
    classified NOT_SUPPORTED, and [Min Pool Size], also named by SqlClient
    alone, is classified BLOCKED_ALLOWLIST when translated to Python. *)
Lemma driver_specific_counterexample :
  Keywords.getKeywordById "enlist" = Some enlistKeyword
  /\ supportedDrivers enlistKeyword = [sqlclient]
  /\ untranslatableKeywords
       (mapKeywords (fun _ _ => 0%Z)
          (Parser.parse "Driver={ODBC Driver 18 for SQL Server};Enlist=true") jdbc noOptions)
     = [ {| uk_keyword := "Driver";
            uk_value := "ODBC Driver 18 for SQL Server";
            uk_reason := NOT_SUPPORTED |};
         {| uk_keyword := "Enlist"; uk_value := "true"; uk_reason := NOT_SUPPORTED |} ]
  /\ option_map supportedDrivers (Keywords.getKeywordById "minpoolsize") = Some [sqlclient]
  /\ untranslatableKeywords
       (mapKeywords (fun _ _ => 0%Z) (Parser.parse "Min Pool Size=5") python noOptions)
     = [ {| uk_keyword := "Min Pool Size"; uk_value := "5"; uk_reason := BLOCKED_ALLOWLIST |} ].
Proof. repeat split; vm_compute; reflexivity. Qed.

(** ** Lookups in a [Map] *)

Lemma JSMap_get_set {V : Type} (k k' : string) (v : V) (m : JSMap.t V) :
  JSMap.get k (JSMap.set k' v m) = if String.eqb k k' then Some v else JSMap.get k m.
Proof.
  induction m as [|[k0 v0] m IH]; cbn [JSMap.set JSMap.get].
  - reflexivity.
  - destruct (String.eqb k' k0) eqn:E.
    + apply String.eqb_eq in E. subst k0. cbn [JSMap.get].
      destruct (String.eqb k k'); reflexivity.
    + cbn [JSMap.get]. destruct (String.eqb k k0) eqn:E0.
      * apply String.eqb_eq in E0. subst k0.
        rewrite String.eqb_sym in E. rewrite E. reflexivity.
      * exact IH.
Qed.

Lemma JSMap_get_In {V : Type} (k : string) (m : JSMap.t V) (v : V) :
  JSMap.get k m = Some v -> In v (map snd m).
Proof.
  induction m as [|[k' v'] m IH]; cbn; [discriminate|].
  destruct (String.eqb k k'); [intros H; injection H; auto | auto].
Qed.


(** ** The JDBC generator *)

Lemma span_stops (p : ascii -> bool) (h r : string) :
  JS.all_chars p h = true ->
  (match r with String c _ => p c = false | EmptyString => True end) ->
  Parser.span p (h ++ r) = (h, r).
Proof.
  intros Hh Hr. induction h as [|c h IH].
  - cbn [append]. destruct r as [|c r]; [reflexivity|]. cbn. rewrite Hr. reflexivity.
  - cbn in Hh. apply andb_true_iff in Hh. destruct Hh as [Hc Hh].
    cbn [append Parser.span]. rewrite Hc, (IH Hh). reflexivity.
Qed.


Lemma all_chars_app (p : ascii -> bool) (a b : string) :
  JS.all_chars p (a ++ b) = JS.all_chars p a && JS.all_chars p b.
Proof.
  induction a as [|c a IH]; [reflexivity|].
  cbn [append JS.all_chars]. rewrite IH. apply andb_assoc.
Qed.

Lemma all_chars_impl (p q : ascii -> bool) (s : string) :
  (forall c, p c = true -> q c = true) ->
  JS.all_chars p s = true -> JS.all_chars q s = true.
Proof.
  intros Hpq. induction s as [|c s IH]; [reflexivity|].
  cbn. intros H. apply andb_true_iff in H. destruct H as [Hc Hs].
  rewrite (Hpq c Hc), (IH Hs). reflexivity.
Qed.




Definition notLineTerminator (c : ascii) : bool := negb (JS.is_line_terminator c).





(** The server value [generateJdbc] reads. *)
Definition serverValueOf (parsed : option ParsedConnectionString) : option string :=
  match parsed with
  | Some p => option_map normalized (JSMap.get "server" (pcs_pairs p))
  | None => None
  end.



















Example jdbc_instance_example (lc : string -> string -> Z) :
  connectionString
    (Translator.translate lc "Server=myserver\SQLEXPRESS;Database=mydb;" jdbc noOptions)
  = "jdbc:sqlserver://myserver:1433;instanceName=SQLEXPRESS;databaseName=mydb;".
Proof. vm_compute. reflexivity. Qed.

Example jdbc_port_example (lc : string -> string -> Z) :
  connectionString
    (Translator.translate lc "Data Source=myserver.example.com,5000;Initial Catalog=mydb" jdbc noOptions)
  = "jdbc:sqlserver://myserver.example.com:5000;databaseName=mydb;".
Proof. vm_compute. reflexivity. Qed.

(** ** The detector's keyword analysis *)

Import Regex.

(** The tests of [analyzeKeywords], by the token they look for. *)
Definition userIdTest (s : string) : bool :=
  test (atWord (seq [ilit "user"; ws; ilit "id"; ws; chr "="])) s.
Definition dataSourceTest (s : string) : bool :=
  test (atWord (seq [ilit "data"; ws; ilit "source"; ws; chr "="])) s.
Definition initialCatalogTest (s : string) : bool :=
  test (atWord (seq [ilit "initial"; ws; ilit "catalog"; ws; chr "="])) s.
Definition persistSecurityInfoTest (s : string) : bool :=
  test (atWord (seq [ilit "persist"; ws; ilit "security"; ws; ilit "info"; ws; chr "="])) s.
Definition uidTest (s : string) : bool :=
  test (atWord (seq [ilit "uid"; ws; chr "="])) s.
Definition pwdTest (s : string) : bool :=
  test (atWord (seq [ilit "pwd"; ws; chr "="])) s.
Definition dsnTest (s : string) : bool :=
  test (atWord (seq [ilit "dsn"; ws; chr "="])) s.
Definition oleDbServicesTest (s : string) : bool :=
  test (atWord (seq [ilit "ole"; ws; ilit "db"; ws; ilit "services"; ws; chr "="])) s.

(** [n] when the test holds, [0] otherwise. *)
Definition weight (b : bool) (n : nat) : nat := if b then n else 0.

(** The score of a driver in the [indicators] object. *)
Definition score (d : DriverType) (ind : Detector.Indicators) : nat :=
  match find (fun e => DriverType_eqb d (fst e)) ind with
  | Some e => snd e
  | None => 0
  end.

(** The place of a driver among the keys of [indicators]. *)
Definition driverIndex (d : DriverType) : nat :=
  match d with
  | sqlclient => 0 | odbc => 1 | oledb => 2 | jdbc => 3
  | php => 4 | python => 5 | rust => 6
  end.

Section SevenScores.

Variables a b c d e f g : nat.

Definition sevenScores : Detector.Indicators :=
  [(sqlclient, a); (odbc, b); (oledb, c); (jdbc, d); (php, e); (python, f); (rust, g)].

Lemma bump_sqlclient (t : bool) (n : nat) :
  Detector.bump t sqlclient n sevenScores
  = [(sqlclient, a + weight t n); (odbc, b); (oledb, c); (jdbc, d); (php, e); (python, f); (rust, g)].
Proof. destruct t; cbn; rewrite ?Nat.add_0_r; reflexivity. Qed.

Lemma bump_odbc (t : bool) (n : nat) :
  Detector.bump t odbc n sevenScores
  = [(sqlclient, a); (odbc, b + weight t n); (oledb, c); (jdbc, d); (php, e); (python, f); (rust, g)].
Proof. destruct t; cbn; rewrite ?Nat.add_0_r; reflexivity. Qed.

Lemma bump_oledb (t : bool) (n : nat) :
  Detector.bump t oledb n sevenScores
  = [(sqlclient, a); (odbc, b); (oledb, c + weight t n); (jdbc, d); (php, e); (python, f); (rust, g)].
Proof. destruct t; cbn; rewrite ?Nat.add_0_r; reflexivity. Qed.

Lemma bump_jdbc (t : bool) (n : nat) :
  Detector.bump t jdbc n sevenScores
  = [(sqlclient, a); (odbc, b); (oledb, c); (jdbc, d + weight t n); (php, e); (python, f); (rust, g)].
Proof. destruct t; cbn; rewrite ?Nat.add_0_r; reflexivity. Qed.

Lemma bump_php (t : bool) (n : nat) :
  Detector.bump t php n sevenScores
  = [(sqlclient, a); (odbc, b); (oledb, c); (jdbc, d); (php, e + weight t n); (python, f); (rust, g)].
Proof. destruct t; cbn; rewrite ?Nat.add_0_r; reflexivity. Qed.

Lemma bump_python (t : bool) (n : nat) :
  Detector.bump t python n sevenScores
  = [(sqlclient, a); (odbc, b); (oledb, c); (jdbc, d); (php, e); (python, f + weight t n); (rust, g)].
Proof. destruct t; cbn; rewrite ?Nat.add_0_r; reflexivity. Qed.

Lemma bump_rust (t : bool) (n : nat) :
  Detector.bump t rust n sevenScores
  = [(sqlclient, a); (odbc, b); (oledb, c); (jdbc, d); (php, e); (python, f); (rust, g + weight t n)].
Proof. destruct t; cbn; rewrite ?Nat.add_0_r; reflexivity. Qed.

(** The driver picked has the highest score, and every driver ahead of it
    among the keys has a strictly lower one. *)
Lemma pickHighest_seven :
  let r := Detector.pickHighest sevenScores in
  fst r = score (snd r) sevenScores
  /\ (forall x, score x sevenScores <= fst r)
  /\ (forall x, driverIndex x < driverIndex (snd r) -> score x sevenScores < fst r).
Proof.
  cbv zeta. unfold Detector.pickHighest, sevenScores. cbn [fold_left fst snd].
  repeat match goal with
         | |- context [(?x <? ?y)%nat] =>
             lazymatch x with
             | context [if _ then _ else _] => fail
             | _ => idtac
             end;
             let E := fresh "E" in
             destruct (Nat.ltb_spec x y) as [E|E]; cbn [fst snd]
         end;
    (split; [cbn; lia|]);
    (split; [intros x; destruct x; cbn; lia | intros x; destruct x; cbn; lia]).
Qed.

End SevenScores.

Lemma countIndicators_scores (s : string) :
  Detector.countIndicators s =
  sevenScores
    (0 + weight (userIdTest s) 2 + weight (dataSourceTest s) 1
       + weight (initialCatalogTest s) 1 + weight (persistSecurityInfoTest s) 2)
    (0 + weight (uidTest s) 1 + weight (pwdTest s) 1 + weight (dsnTest s) 3)
    (0 + weight (oleDbServicesTest s) 3)
    (0 + weight (JS.includes "databasename=" (JS.toLowerCase s)) 2
       + weight (JS.includes "logintimeout=" (JS.toLowerCase s)) 1)
    (0 + weight (JS.includes "returnvaluesonnulls=" (JS.toLowerCase s)) 2
       + weight (JS.includes "scrollablecursor=" (JS.toLowerCase s)) 2)
    (0 + weight (JS.includes "mssql+pyodbc" (JS.toLowerCase s)) 3)
    (0 + weight (JS.includes "to_string()" (JS.toLowerCase s)) 3).
Proof.
  unfold Detector.countIndicators. cbv zeta.
  change (map (fun d => (d, 0)) ALL_DRIVERS) with (sevenScores 0 0 0 0 0 0 0).
  fold (userIdTest s) (dataSourceTest s) (initialCatalogTest s)
       (persistSecurityInfoTest s) (uidTest s) (pwdTest s) (dsnTest s)
       (oleDbServicesTest s).
  repeat first
    [ rewrite bump_sqlclient | rewrite bump_odbc | rewrite bump_oledb
    | rewrite bump_jdbc | rewrite bump_php | rewrite bump_python | rewrite bump_rust
    | match goal with
      | |- context [ [(sqlclient, ?a); (odbc, ?b); (oledb, ?c); (jdbc, ?d);
                      (php, ?e); (python, ?f); (rust, ?g)] ] =>
          change [(sqlclient, a); (odbc, b); (oledb, c); (jdbc, d);
                  (php, e); (python, f); (rust, g)]
            with (sevenScores a b c d e f g)
      end ].
  reflexivity.
Qed.
(** C9, as the code has it, on ASCII input (the patterns of the scores
    have [\s], which is embedded on ASCII).  When no signature pattern
    matches, [detect] scores the drivers by the tokens found ([uid=] adds
    1 and [dsn=] adds 3 to ODBC, [persist security info=] adds 2 to
    SqlClient, and so on), picks the first driver, in the order sqlclient,
    odbc, oledb, jdbc, php, python, rust, whose score is the highest, and
    reports the confidence high from 5 on, medium from 3 on and low
    below. *)
Theorem keyword_analysis (input : string) :
  JS.isAscii input = true ->
  find (fun p => test (Detector.dp_pattern p) (JS.trim input)) Detector.DETECTION_PATTERNS
    = None ->
  let s := JS.trim input in
  let ind := Detector.countIndicators s in
  let r := Detector.detect input in
  (score sqlclient ind
     = weight (userIdTest s) 2 + weight (dataSourceTest s) 1
       + weight (initialCatalogTest s) 1 + weight (persistSecurityInfoTest s) 2
   /\ score odbc ind = weight (uidTest s) 1 + weight (pwdTest s) 1 + weight (dsnTest s) 3
   /\ score oledb ind = weight (oleDbServicesTest s) 3
   /\ score jdbc ind
        = weight (JS.includes "databasename=" (JS.toLowerCase s)) 2
          + weight (JS.includes "logintimeout=" (JS.toLowerCase s)) 1
   /\ score php ind
        = weight (JS.includes "returnvaluesonnulls=" (JS.toLowerCase s)) 2
          + weight (JS.includes "scrollablecursor=" (JS.toLowerCase s)) 2
   /\ score python ind = weight (JS.includes "mssql+pyodbc" (JS.toLowerCase s)) 3
   /\ score rust ind = weight (JS.includes "to_string()" (JS.toLowerCase s)) 3)
  /\ (forall x, score x ind <= score (Detector.driver r) ind)
  /\ (forall x, driverIndex x < driverIndex (Detector.driver r) ->
                score x ind < score (Detector.driver r) ind)
  /\ Detector.confidence r
       = (if (5 <=? score (Detector.driver r) ind)%nat then high
          else if (3 <=? score (Detector.driver r) ind)%nat then medium
          else low).
Proof.
  intros _ H. cbv zeta. unfold Detector.detect. rewrite H.
  unfold Detector.analyzeKeywords.
  rewrite countIndicators_scores.
  match goal with
  | |- context [Detector.pickHighest (sevenScores ?a ?b ?c ?d ?e ?f ?g)] =>
      pose proof (pickHighest_seven a b c d e f g) as P;
      destruct (Detector.pickHighest (sevenScores a b c d e f g)) as [m dr]
  end.
  cbv zeta in P. cbn [fst snd] in P. destruct P as [P1 [P2 P3]].
  cbn [Detector.driver Detector.confidence].
  split; [repeat split; reflexivity|].
  rewrite <- P1.
  split; [exact P2|]. split; [exact P3|].
  unfold Detector.confidenceOf.
  destruct (5 <=? m)%nat; reflexivity.
Qed.

Lemma keyword_analysis_witness :
  JS.isAscii "uid=sa;pwd=secret;dsn=mydsn" = true
  /\ Detector.driver (Detector.detect "uid=sa;pwd=secret;dsn=mydsn") = odbc
  /\ Detector.confidence (Detector.detect "uid=sa;pwd=secret;dsn=mydsn") = high.
Proof.
  pose proof (keyword_analysis "uid=sa;pwd=secret;dsn=mydsn" eq_refl eq_refl) as H.
  cbv zeta in H. destruct H as [_ [_ [_ H]]].
  split; [reflexivity|].
  split; [vm_compute; reflexivity|].
  rewrite H. vm_compute. reflexivity.
Defined.

(** C9 fails as stated.  [uid=] adds 1 to the ODBC score, not 2: with
    [dsn=] the score is 4 and the confidence medium, not high.  A tie is
    not resolved to sqlclient: with ODBC and OLEDB both at 3, ODBC is
    picked. *)
Lemma keyword_analysis_counterexample :
  (JS.isAscii "uid=x;dsn=y" = true
   /\ find (fun p => test (Detector.dp_pattern p) (JS.trim "uid=x;dsn=y"))
        Detector.DETECTION_PATTERNS = None
   /\ score odbc (Detector.countIndicators "uid=x;dsn=y") = 4
   /\ Detector.confidence (Detector.detect "uid=x;dsn=y") = medium)
  /\ (JS.isAscii "dsn=x;ole db services=1" = true
      /\ find (fun p => test (Detector.dp_pattern p) (JS.trim "dsn=x;ole db services=1"))
           Detector.DETECTION_PATTERNS = None
      /\ score odbc (Detector.countIndicators "dsn=x;ole db services=1") = 3
      /\ score oledb (Detector.countIndicators "dsn=x;ole db services=1") = 3
      /\ score sqlclient (Detector.countIndicators "dsn=x;ole db services=1") = 0
      /\ Detector.driver (Detector.detect "dsn=x;ole db services=1") = odbc).
Proof. repeat split; vm_compute; reflexivity. Qed.

(** ** The duplicate policy of the parser *)

Lemma mem_app (x : string) (l1 l2 : list string) :
  JS.mem x (l1 ++ l2)%list = JS.mem x l1 || JS.mem x l2.
Proof. unfold JS.mem. apply existsb_app. Qed.

Lemma mem_true_iff (x : string) (l : list string) : JS.mem x l = true <-> In x l.
Proof.
  unfold JS.mem. rewrite existsb_exists. split.
  - intros [y [Hy E]]. apply String.eqb_eq in E. subst y. exact Hy.
  - intros H. exists x. split; [exact H | apply String.eqb_refl].
Qed.

(** The canonical id of a token under the detected driver. *)
Definition tokenId (d : DriverType) (t : Parser.Token) : string :=
  Parser.canonicalOf d (Parser.tokKey t).

Definition isDuplicateWarning (w : ParseWarning) : bool :=
  match pw_code w with DUPLICATE_KEYWORD => true | _ => false end.

(** The later occurrences, in the words of the specification: the tokens
    whose canonical id is the id of a token ahead of them. *)
Fixpoint laterOccurrences (d : DriverType) (earlier rest : list Parser.Token)
  : list Parser.Token :=
  match rest with
  | [] => []
  | t :: rest' =>
      let tail := laterOccurrences d (earlier ++ [t])%list rest' in
      if existsb (fun t' => String.eqb (tokenId d t') (tokenId d t)) earlier
      then t :: tail else tail
  end.

Lemma processPair_seen_mono d st t id :
  JS.mem id (Parser.seenKeys st) = true ->
  JS.mem id (Parser.seenKeys (Parser.processPair d st t)) = true.
Proof.
  intros H. unfold Parser.processPair. destruct t as [[k v] p].
  destruct (JS.mem (Parser.canonicalOf d k) (Parser.seenKeys st)); cbn [Parser.seenKeys].
  - exact H.
  - rewrite mem_app, H. reflexivity.
Qed.

Lemma processPair_keeps d st t id :
  JS.mem id (Parser.seenKeys st) = true ->
  JSMap.get id (Parser.pairs (Parser.processPair d st t)) = JSMap.get id (Parser.pairs st).
Proof.
  intros H. unfold Parser.processPair. destruct t as [[k v] p].
  destruct (JS.mem (Parser.canonicalOf d k) (Parser.seenKeys st)) eqn:E; cbn [Parser.pairs].
  - reflexivity.
  - rewrite JSMap_get_set.
    destruct (String.eqb id (Parser.canonicalOf d k)) eqn:E2; [|reflexivity].
    apply String.eqb_eq in E2. subst id. congruence.
Qed.

Lemma loop_keeps d l : forall st id,
  JS.mem id (Parser.seenKeys st) = true ->
  JSMap.get id (Parser.pairs (fold_left (Parser.processPair d) l st))
  = JSMap.get id (Parser.pairs st).
Proof.
  induction l as [|t l IH]; intros st id H; [reflexivity|].
  cbn [fold_left]. rewrite IH by (apply processPair_seen_mono; exact H).
  apply processPair_keeps. exact H.
Qed.

(** The keys seen are the ids of the tokens processed. *)
Definition seenMatches (d : DriverType) (st : Parser.LoopState)
  (earlier : list Parser.Token) : Prop :=
  forall id, JS.mem id (Parser.seenKeys st) = true
             <-> exists t', In t' earlier /\ tokenId d t' = id.

Lemma seenMatches_step d st earlier t :
  seenMatches d st earlier ->
  seenMatches d (Parser.processPair d st t) (earlier ++ [t])%list.
Proof.
  intros H id. unfold Parser.processPair. destruct t as [[k v] p].
  destruct (JS.mem (Parser.canonicalOf d k) (Parser.seenKeys st)) eqn:E; cbn [Parser.seenKeys].
  - rewrite (H id). split.
    + intros [t' [Hin Ht']]. exists t'. split; [apply in_or_app; left; exact Hin | exact Ht'].
    + intros [t' [Hin Ht']]. apply in_app_or in Hin. destruct Hin as [Hin | [<- | []]].
      * exists t'. split; assumption.
      * apply (H id). unfold tokenId, Parser.tokKey in Ht'. cbn in Ht'. subst id. exact E.
  - rewrite mem_app, orb_true_iff, (H id). split.
    + intros [[t' [Hin Ht']] | Hm].
      * exists t'. split; [apply in_or_app; left; exact Hin | exact Ht'].
      * exists (k, v, p). split; [apply in_or_app; right; left; reflexivity|].
        apply mem_true_iff in Hm. destruct Hm as [Hm | []]. exact Hm.
    + intros [t' [Hin Ht']]. apply in_app_or in Hin. destruct Hin as [Hin | [<- | []]].
      * left. exists t'. split; assumption.
      * right. apply mem_true_iff. left. exact Ht'.
Qed.

Lemma seen_existsb d st earlier t :
  seenMatches d st earlier ->
  JS.mem (tokenId d t) (Parser.seenKeys st)
  = existsb (fun t' => String.eqb (tokenId d t') (tokenId d t)) earlier.
Proof.
  intros H.
  destruct (existsb (fun t' => String.eqb (tokenId d t') (tokenId d t)) earlier) eqn:E.
  - apply existsb_exists in E. destruct E as [t' [Hin Ht']].
    apply String.eqb_eq in Ht'. apply (H (tokenId d t)). exists t'. split; assumption.
  - destruct (JS.mem (tokenId d t) (Parser.seenKeys st)) eqn:M; [|reflexivity].
    apply (H (tokenId d t)) in M. destruct M as [t' [Hin Ht']].
    assert (X : existsb (fun t' => String.eqb (tokenId d t') (tokenId d t)) earlier = true).
    { apply existsb_exists. exists t'. split; [exact Hin | apply String.eqb_eq; exact Ht']. }
    congruence.
Qed.

Lemma filter_app_single {A : Type} (f : A -> bool) (l : list A) (x : A) :
  filter f (l ++ [x])%list = (filter f l ++ (if f x then [x] else []))%list.
Proof. rewrite filter_app. reflexivity. Qed.

(** The first occurrence of an id is stored; nothing that follows replaces it. *)
Lemma loop_first_wins d l1 t l2 : forall st earlier,
  seenMatches d st earlier ->
  (forall t', In t' (earlier ++ l1)%list -> tokenId d t' <> tokenId d t) ->
  JSMap.get (tokenId d t)
            (Parser.pairs (fold_left (Parser.processPair d) (l1 ++ t :: l2)%list st))
  = Some (Parser.parsedValueOf (Parser.tokKey t) (Parser.tokValue t) (Parser.tokPos t)).
Proof.
  induction l1 as [|t1 l1 IH]; intros st earlier Hs Hne.
  - cbn [app fold_left].
    assert (M : JS.mem (tokenId d t) (Parser.seenKeys st) = false).
    { rewrite (seen_existsb d st earlier t Hs).
      destruct (existsb (fun t' => String.eqb (tokenId d t') (tokenId d t)) earlier) eqn:E;
        [|reflexivity].
      apply existsb_exists in E. destruct E as [t' [Hin Ht']].
      apply String.eqb_eq in Ht'. exfalso.
      apply (Hne t'); [rewrite app_nil_r; exact Hin | exact Ht']. }
    rewrite loop_keeps.
    + unfold Parser.processPair. destruct t as [[k v] p].
      unfold tokenId, Parser.tokKey, Parser.tokValue, Parser.tokPos in *. cbn [fst snd] in *.
      rewrite M. cbn [Parser.pairs]. rewrite JSMap_get_set, String.eqb_refl. reflexivity.
    + unfold Parser.processPair. destruct t as [[k v] p].
      unfold tokenId, Parser.tokKey in *. cbn [fst snd] in *.
      rewrite M. cbn [Parser.seenKeys]. rewrite mem_app.
      replace (JS.mem (Parser.canonicalOf d k) [Parser.canonicalOf d k]) with true;
        [apply orb_true_r|].
      symmetry. apply mem_true_iff. left. reflexivity.
  - cbn [app fold_left].
    apply (IH (Parser.processPair d st t1) (earlier ++ [t1])%list).
    + apply seenMatches_step. exact Hs.
    + intros t' Hin. apply Hne. rewrite <- app_assoc in Hin. exact Hin.
Qed.

(** Each later occurrence, and nothing else, adds a duplicate warning. *)
Lemma loop_duplicate_warnings d l : forall st earlier,
  seenMatches d st earlier ->
  filter isDuplicateWarning (Parser.warnings (fold_left (Parser.processPair d) l st))
  = (filter isDuplicateWarning (Parser.warnings st)
     ++ map (fun t => Parser.duplicateWarning (Parser.tokKey t) (Parser.tokPos t))
            (laterOccurrences d earlier l))%list.
Proof.
  induction l as [|t l IH]; intros st earlier Hs.
  - cbn. rewrite app_nil_r. reflexivity.
  - cbn [fold_left laterOccurrences].
    rewrite (IH (Parser.processPair d st t) (earlier ++ [t])%list)
      by (apply seenMatches_step; exact Hs).
    rewrite <- (seen_existsb d st earlier t Hs).
    unfold Parser.processPair. destruct t as [[k v] p].
    unfold tokenId, Parser.tokKey, Parser.tokPos. cbn [fst snd].
    destruct (JS.mem (Parser.canonicalOf d k) (Parser.seenKeys st)); cbn [Parser.warnings].
    + rewrite filter_app_single. cbn [isDuplicateWarning Parser.duplicateWarning pw_code].
      rewrite <- app_assoc. reflexivity.
    + destruct (Synonyms.isKnownKeyword k (Some d)); [reflexivity|].
      rewrite filter_app_single. cbn [isDuplicateWarning Parser.unknownWarning pw_code].
      rewrite app_nil_r. reflexivity.
Qed.

(** What [parse] hands to its loop: the text after the JDBC URL, if the
    input is read as one, else the trimmed input; and the tokens of it. *)
Definition usesJdbcUrl (input : string) : bool :=
  DriverType_eqb (Detector.driver (Detector.detect (JS.trim input))) jdbc
  && JS.startsWith "jdbc:sqlserver://" (JS.toLowerCase (JS.trim input)).

Definition propertyStringOf (input : string) : string :=
  if usesJdbcUrl input then snd (fst (Parser.parseJdbcUrl (JS.trim input)))
  else JS.trim input.

Definition tokensOf (input : string) : list Parser.Token :=
  fst (Parser.parseKeyValuePairs (propertyStringOf input)).

(** The input passes the size guard and the empty guard. *)
Definition accepted (input : string) : Prop :=
  (String.length input <= MAX_CONNECTION_STRING_SIZE)%nat
  /\ JS.truthy (JS.trim input) = true.

(** The pairs [parse] holds before its loop: the server value made of the
    host of a JDBC URL (and of its port, when it is not 1433), and nothing
    else.  The id [server] is not entered in [seenKeys] with it. *)
Definition urlPairs (input : string) : JSMap.t ParsedValue :=
  if usesJdbcUrl input then
    let u := fst (fst (Parser.parseJdbcUrl (JS.trim input))) in
    if JS.truthy (host u) then
      let serverValue :=
        if negb (N.eqb (port u) 0) && negb (N.eqb (port u) 1433)
        then host u ++ "," ++ JS.ofN (port u)
        else host u in
      JSMap.set "server"
        {| raw := serverValue;
           normalized := serverValue;
           position := {| p_start := 17; p_end := 17 + String.length serverValue |};
           wasQuoted := false;
           originalKeyword := Some "server" |}
        []
    else []
  else [].

Lemma urlPairs_none (input : string) : usesJdbcUrl input = false -> urlPairs input = [].
Proof. intros H. unfold urlPairs. rewrite H. reflexivity. Qed.

Lemma parse_loop (input : string) :
  accepted input ->
  pcs_driver (Parser.parse input) = Detector.driver (Detector.detect (JS.trim input))
  /\ pcs_errors (Parser.parse input)
     = ((if usesJdbcUrl input then snd (Parser.parseJdbcUrl (JS.trim input)) else [])
        ++ snd (Parser.parseKeyValuePairs (propertyStringOf input)))%list
  /\ pcs_pairs (Parser.parse input)
     = Parser.pairs
         (fold_left (Parser.processPair (Detector.driver (Detector.detect (JS.trim input))))
            (tokensOf input)
            {| Parser.seenKeys := []; Parser.pairs := urlPairs input; Parser.warnings := [] |})
  /\ pcs_warnings (Parser.parse input)
     = Parser.warnings
         (fold_left (Parser.processPair (Detector.driver (Detector.detect (JS.trim input))))
            (tokensOf input)
            {| Parser.seenKeys := []; Parser.pairs := urlPairs input; Parser.warnings := [] |}).
Proof.
  intros [Hlen Hne]. unfold Parser.parse, tokensOf, propertyStringOf, urlPairs, usesJdbcUrl.
  assert (G : (MAX_CONNECTION_STRING_SIZE <? String.length input)%nat = false)
    by (apply Nat.ltb_ge; exact Hlen).
  rewrite G, Hne. cbn [negb].
  destruct (DriverType_eqb (Detector.driver (Detector.detect (JS.trim input))) jdbc
            && JS.startsWith "jdbc:sqlserver://" (JS.toLowerCase (JS.trim input))).
  - destruct (Parser.parseJdbcUrl (JS.trim input)) as [[u ps] es]. cbn [fst snd].
    split; [reflexivity|]. split; [reflexivity|]. split; reflexivity.
  - cbn [fst snd]. split; [reflexivity|]. split; [reflexivity|]. split; reflexivity.
Qed.

(** A blank input has no token. *)
Lemma blank_no_tokens (input : string) :
  JS.truthy (JS.trim input) = false ->
  tokensOf input = []
  /\ pcs_pairs (Parser.parse input) = [] /\ pcs_warnings (Parser.parse input) = [].
Proof.
  intros H. destruct (JS.trim input) as [|c s] eqn:E; [|discriminate H].
  split.
  - unfold tokensOf, propertyStringOf, usesJdbcUrl. rewrite E.
    replace (JS.startsWith "jdbc:sqlserver://" (JS.toLowerCase "")) with false
      by reflexivity.
    rewrite andb_false_r. reflexivity.
  - unfold Parser.parse. rewrite E. cbn [JS.truthy negb].
    destruct (MAX_CONNECTION_STRING_SIZE <? String.length input)%nat; split; reflexivity.
Qed.

Lemma seenMatches_start (d : DriverType) (seed : JSMap.t ParsedValue) :
  seenMatches d {| Parser.seenKeys := []; Parser.pairs := seed; Parser.warnings := [] |} [].
Proof.
  intros id. cbn. split; [discriminate|]. intros [t' [[] _]].
Qed.

(** *** Positions of the tokens *)

Lemma push_fst_Forall (P : Parser.Token -> Prop) (k : string) (t : Parser.Token)
  (r : list Parser.Token * list ParseError) :
  P t -> Forall P (fst r) -> Forall P (fst (Parser.push k t r)).
Proof.
  intros Ht Hr. unfold Parser.push. destruct (JS.truthy k); cbn [fst]; [constructor|]; assumption.
Qed.

Definition endsFrom (i : nat) (t : Parser.Token) : Prop := i <= p_end (Parser.tokPos t).

Lemma endsFrom_weaken (i j : nat) (l : list Parser.Token) :
  i <= j -> Forall (endsFrom j) l -> Forall (endsFrom i) l.
Proof.
  intros Hij. apply Forall_impl. intros t Ht. unfold endsFrom in *. lia.
Qed.

Lemma finish_positions st ck cv ks vs qc bd i :
  Forall (endsFrom i) (fst (Parser.finish st ck cv ks vs qc bd i)).
Proof.
  destruct st; unfold Parser.finish; try (constructor; fail).
  - apply push_fst_Forall; [unfold endsFrom; cbn; lia | constructor].
  - apply push_fst_Forall; [unfold endsFrom; cbn; lia | constructor].
  - destruct (0 <? bd)%nat; [|constructor].
    apply push_fst_Forall; [unfold endsFrom; cbn; lia | constructor].
Qed.

Lemma scan_positions_bounded :
  forall n rest, (String.length rest <= n)%nat ->
  forall st ck cv ks vs qc bd i,
    Forall (endsFrom i) (fst (Parser.scan st ck cv ks vs qc bd i rest)).
Proof.
  induction n as [|n IH]; intros rest Hlen st ck cv ks vs qc bd i.
  - destruct rest; [apply finish_positions | simpl in Hlen; lia].
  - destruct rest as [|c rest']; [apply finish_positions|].
    simpl in Hlen.
    assert (Hr : (String.length rest' <= n)%nat) by lia.
    assert (Step : forall st ck cv ks vs qc bd,
               Forall (endsFrom i) (fst (Parser.scan st ck cv ks vs qc bd (S i) rest'))).
    { intros. apply (endsFrom_weaken i (S i)); [lia | apply IH; exact Hr]. }
    destruct st; cbn [Parser.scan].
    + destruct (Ascii.eqb c "="); [apply Step|].
      destruct (Ascii.eqb c ";"); apply Step.
    + destruct (Ascii.eqb c JS.DQ || Ascii.eqb c "'"); [apply Step|].
      destruct (Ascii.eqb c "{"); [apply Step|].
      destruct (Ascii.eqb c ";"); [|apply Step].
      apply push_fst_Forall; [unfold endsFrom; cbn; lia | apply Step].
    + destruct (String.eqb (Parser.str1 c) qc); [|apply Step].
      destruct rest' as [|c2 rest'']; [apply Step|].
      destruct (String.eqb (Parser.str1 c2) qc); [|apply Step].
      apply (endsFrom_weaken i (S (S i))); [lia | apply IH; simpl in *; lia].
    + destruct (Ascii.eqb c "{"); [apply Step|].
      destruct (Ascii.eqb c "}"); [|apply Step].
      destruct rest' as [|c2 rest''].
      * destruct (bd - 1 =? 0)%nat; apply Step.
      * destruct (Ascii.eqb c2 "}") eqn:E.
        -- apply Ascii.eqb_eq in E. subst c2.
           apply (endsFrom_weaken i (S (S i))); [lia | apply IH; simpl in *; lia].
        -- assert (Hgoal :
             Forall (endsFrom i)
               (fst (if (bd - 1 =? 0)%nat
                     then Parser.scan Parser.VALUE ck (cv ++ Parser.str1 c) ks vs qc (bd - 1) (S i) (String c2 rest'')
                     else Parser.scan Parser.BRACED ck (cv ++ Parser.str1 c) ks vs qc (bd - 1) (S i) (String c2 rest''))))
             by (destruct (bd - 1 =? 0)%nat; apply Step).
           destruct c2 as [[] [] [] [] [] [] [] []]; try exact Hgoal.
           discriminate E.
    + apply Step.
Qed.

Lemma scan_positions st ck cv ks vs qc bd i rest :
  Forall (endsFrom i) (fst (Parser.scan st ck cv ks vs qc bd i rest)).
Proof. apply (scan_positions_bounded (String.length rest)). lia. Qed.

(** The loop only appends warnings, each about one of its tokens. *)
Lemma loop_warnings_extend d l : forall st,
  exists extra,
    Parser.warnings (fold_left (Parser.processPair d) l st)
    = (Parser.warnings st ++ extra)%list
    /\ forall w, In w extra -> exists t, In t l /\ pw_position w = Some (Parser.tokPos t).
Proof.
  induction l as [|t l IH]; intros st.
  - exists []. split; [cbn; rewrite app_nil_r; reflexivity | intros w []].
  - cbn [fold_left]. destruct (IH (Parser.processPair d st t)) as [extra [E H]].
    assert (S1 : exists e1,
               Parser.warnings (Parser.processPair d st t) = (Parser.warnings st ++ e1)%list
               /\ forall w, In w e1 -> pw_position w = Some (Parser.tokPos t)).
    { unfold Parser.processPair. destruct t as [[k v] p].
      destruct (JS.mem (Parser.canonicalOf d k) (Parser.seenKeys st)); cbn [Parser.warnings].
      - eexists. split; [reflexivity|]. intros w [<- | []]. reflexivity.
      - destruct (Synonyms.isKnownKeyword k (Some d)).
        + exists []. split; [rewrite app_nil_r; reflexivity | intros w []].
        + eexists. split; [reflexivity|]. intros w [<- | []]. reflexivity. }
    destruct S1 as [e1 [E1 H1]].
    exists (e1 ++ extra)%list. split.
    + rewrite E, E1, app_assoc. reflexivity.
    + intros w Hw. apply in_app_or in Hw. destruct Hw as [Hw | Hw].
      * exists t. split; [left; reflexivity | apply H1; exact Hw].
      * destruct (H w Hw) as [t' [Hin Hp]]. exists t'. split; [right; exact Hin | exact Hp].
Qed.

Lemma trimEnd_app_keep (a b : string) (c : ascii) :
  JS.last_char a = Some c -> JS.is_space c = false ->
  JS.trimEnd (a ++ b) = a ++ JS.trimEnd b.
Proof.
  induction a as [|x a IH]; intros HL HS; [discriminate HL|].
  cbn [append JS.trimEnd]. destruct a as [|y a'].
  - cbn in HL. injection HL as ->. cbn [append]. rewrite HS.
    destruct (JS.trimEnd b); reflexivity.
  - rewrite IH by assumption. reflexivity.
Qed.

Lemma length_app (a b : string) :
  String.length (a ++ b) = String.length a + String.length b.
Proof. induction a as [|c a IH]; cbn; [reflexivity | rewrite IH; reflexivity]. Qed.

(** The input of the scenario, and its second occurrence of [Server]. *)
Definition serverTwice : string := "Server=first;Server=second;".

Definition secondOccurrence : Position := {| p_start := 13; p_end := 26 |}.

Definition refersTo (pos : Position) (w : ParseWarning) : bool :=
  match pw_position w with
  | Some p => Nat.eqb (p_start p) (p_start pos) && Nat.eqb (p_end p) (p_end pos)
  | None => false
  end.

Lemma serverTwice_trim (rest : string) :
  JS.trim (serverTwice ++ rest) = serverTwice ++ JS.trimEnd rest.
Proof.
  unfold JS.trim. change (JS.trimStart (serverTwice ++ rest)) with (serverTwice ++ rest).
  apply (trimEnd_app_keep serverTwice rest ";"); reflexivity.
Qed.

Lemma serverTwice_tokens (r : string) :
  fst (Parser.parseKeyValuePairs (serverTwice ++ r))
  = ("Server", "first", {| p_start := 0; p_end := 12 |})
    :: ("Server", "second", secondOccurrence)
    :: fst (Parser.scan Parser.KEY "" "" 27 20 "" 0 27 r).
Proof. reflexivity. Qed.

Lemma server_canonical (d : DriverType) :
  Parser.canonicalOf d "Server" = "server"
  /\ Synonyms.isKnownKeyword "Server" (Some d) = true.
Proof. destruct d; split; vm_compute; reflexivity. Qed.

Lemma server_twice_state (d : DriverType) (v1 v2 : string) (p1 p2 : Position) :
  Parser.processPair d
    (Parser.processPair d
       {| Parser.seenKeys := []; Parser.pairs := []; Parser.warnings := [] |}
       ("Server", v1, p1))
    ("Server", v2, p2)
  = {| Parser.seenKeys := ["server"];
       Parser.pairs := [("server", Parser.parsedValueOf "Server" v1 p1)];
       Parser.warnings := [Parser.duplicateWarning "Server" p2] |}.
Proof.
  destruct (server_canonical d) as [Hc Hk].
  unfold Parser.processPair. rewrite Hc, Hk. reflexivity.
Qed.

Lemma serverTwice_parse (rest : string) :
  (String.length (serverTwice ++ rest) <= MAX_CONNECTION_STRING_SIZE)%nat ->
  (exists pv,
      JSMap.get "server" (pcs_pairs (Parser.parse (serverTwice ++ rest))) = Some pv
      /\ normalized pv = "first")
  /\ filter (fun w => isDuplicateWarning w && refersTo secondOccurrence w)
            (pcs_warnings (Parser.parse (serverTwice ++ rest)))
     = [Parser.duplicateWarning "Server" secondOccurrence].
Proof.
  intros Hlen.
  assert (Hacc : accepted (serverTwice ++ rest)).
  { split; [exact Hlen|]. rewrite serverTwice_trim. reflexivity. }
  assert (Hj : usesJdbcUrl (serverTwice ++ rest) = false).
  { unfold usesJdbcUrl. rewrite serverTwice_trim.
    replace (JS.startsWith "jdbc:sqlserver://" (JS.toLowerCase (serverTwice ++ JS.trimEnd rest)))
      with false by reflexivity.
    apply andb_false_r. }
  destruct (parse_loop _ Hacc) as [_ [_ [Hp Hw]]].
  rewrite (urlPairs_none _ Hj) in Hp, Hw.
  unfold tokensOf, propertyStringOf in Hp, Hw. rewrite Hj in Hp, Hw.
  rewrite serverTwice_trim, serverTwice_tokens in Hp, Hw.
  set (d := Detector.driver (Detector.detect (serverTwice ++ JS.trimEnd rest))) in *.
  set (T := fst (Parser.scan Parser.KEY "" "" 27 20 "" 0 27 (JS.trimEnd rest))) in *.
  cbn [fold_left] in Hp, Hw.
  rewrite (server_twice_state d) in Hp, Hw.
  split.
  - rewrite Hp. rewrite loop_keeps by reflexivity.
    cbn [Parser.pairs]. eexists. split; [reflexivity|]. reflexivity.
  - rewrite Hw.
    match goal with
    | |- context [fold_left (Parser.processPair d) T ?st] =>
        destruct (loop_warnings_extend d T st) as [extra [E Hx]]; rewrite E
    end.
    cbn [Parser.warnings]. rewrite filter_app.
    assert (Hnone : filter (fun w => isDuplicateWarning w && refersTo secondOccurrence w) extra = []).
    { assert (HT : Forall (endsFrom 27) T) by apply scan_positions.
      rewrite Forall_forall in HT.
      clear E. induction extra as [|w extra IHe]; [reflexivity|].
      cbn [filter]. destruct (Hx w (or_introl eq_refl)) as [t [Hin Hpos]].
      specialize (HT t Hin). unfold endsFrom in HT.
      unfold refersTo. rewrite Hpos. cbn [secondOccurrence p_end p_start].
      replace (p_end (Parser.tokPos t) =? 26)%nat with false
        by (symmetry; apply Nat.eqb_neq; lia).
      rewrite !andb_false_r. apply IHe. intros w' Hw'. apply Hx. right. exact Hw'. }
    rewrite Hnone, app_nil_r. reflexivity.
Qed.

Lemma filter_andb {A : Type} (f g : A -> bool) (l : list A) :
  filter (fun x => f x && g x) l = filter g (filter f l).
Proof.
  induction l as [|x l IH]; [reflexivity|].
  cbn [filter]. destruct (f x); cbn [andb filter]; rewrite IH; reflexivity.
Qed.

Lemma filter_map_swap {A B : Type} (g : B -> bool) (h : A -> B) (l : list A) :
  filter g (map h l) = map h (filter (fun x => g (h x)) l).
Proof.
  induction l as [|x l IH]; [reflexivity|].
  cbn [map filter]. destruct (g (h x)); cbn [map]; rewrite IH; reflexivity.
Qed.

(** The canonical ids that the URL of the input has filled ahead of the
    loop. *)
Definition fromUrl (input id : string) : bool := JSMap.has id (urlPairs input).

(** The canonical id a warning is about, under the detected driver. *)
Definition warningId (d : DriverType) (w : ParseWarning) : string :=
  match pw_keyword w with
  | Some rawKey => Parser.canonicalOf d rawKey
  | None => EmptyString
  end.

(** C7, as the code has it.  For an input [Server=first;Server=second;...]
    within the size limit, the parsed server value is [first] and exactly
    one duplicate warning refers to the second occurrence.  For every
    ASCII input within the size limit and every canonical id that the host
    of a JDBC URL has not filled: the first token of the id is the one
    stored, and each later token of the id adds one DUPLICATE_KEYWORD
    warning and nothing else; the errors are those of the URL match and of
    the tokenizer alone.  Nothing is said of the id [server] after the
    host of a JDBC URL. *)
Theorem duplicate_policy :
  (forall rest,
      (String.length (serverTwice ++ rest) <= MAX_CONNECTION_STRING_SIZE)%nat ->
      (exists pv,
          JSMap.get "server" (pcs_pairs (Parser.parse (serverTwice ++ rest))) = Some pv
          /\ normalized pv = "first")
      /\ filter (fun w => isDuplicateWarning w && refersTo secondOccurrence w)
                (pcs_warnings (Parser.parse (serverTwice ++ rest)))
         = [Parser.duplicateWarning "Server" secondOccurrence])
  /\ (forall input,
        (String.length input <= MAX_CONNECTION_STRING_SIZE)%nat ->
        JS.isAscii input = true ->
        let p := Parser.parse input in
        let d := pcs_driver p in
        let toks := tokensOf input in
        (forall l1 t l2,
            toks = (l1 ++ t :: l2)%list ->
            (forall t', In t' l1 -> tokenId d t' <> tokenId d t) ->
            fromUrl input (tokenId d t) = false ->
            JSMap.get (tokenId d t) (pcs_pairs p)
            = Some (Parser.parsedValueOf (Parser.tokKey t) (Parser.tokValue t) (Parser.tokPos t)))
        /\ filter (fun w => isDuplicateWarning w && negb (fromUrl input (warningId d w)))
                  (pcs_warnings p)
           = map (fun t => Parser.duplicateWarning (Parser.tokKey t) (Parser.tokPos t))
                 (filter (fun t => negb (fromUrl input (tokenId d t)))
                         (laterOccurrences d [] toks))
        /\ (JS.truthy (JS.trim input) = true ->
            pcs_errors p
            = ((if usesJdbcUrl input then snd (Parser.parseJdbcUrl (JS.trim input)) else [])
               ++ snd (Parser.parseKeyValuePairs (propertyStringOf input)))%list)).
Proof.
  split; [exact serverTwice_parse|].
  intros input Hlen _. cbv zeta.
  destruct (JS.truthy (JS.trim input)) eqn:Hne.
  - destruct (parse_loop input (conj Hlen Hne)) as [Hd [He [Hp Hw]]].
    rewrite Hd. split; [|split].
    + intros l1 t l2 Ht Hne' _. rewrite Hp, Ht.
      apply (loop_first_wins _ l1 t l2 _ []); [apply seenMatches_start | exact Hne'].
    + rewrite filter_andb, Hw.
      rewrite (loop_duplicate_warnings _ (tokensOf input) _ []
                 (seenMatches_start _ (urlPairs input))).
      cbn [Parser.warnings filter app]. rewrite filter_map_swap. reflexivity.
    + intros _. exact He.
  - destruct (blank_no_tokens input Hne) as [Ht [Hp Hw]].
    rewrite Ht, Hw. split; [|split].
    + intros l1 t l2 E. destruct l1; discriminate E.
    + reflexivity.
    + discriminate.
Qed.

(** A JDBC URL followed by two [Database] properties. *)
Definition jdbcDatabaseTwice : string :=
  "jdbc:sqlserver://urlhost:1433;Database=a;database=b".

Lemma duplicate_policy_witness :
  ((exists pv,
       JSMap.get "server"
         (pcs_pairs (Parser.parse (serverTwice ++ "Database=mydb;Server=third"))) = Some pv
       /\ normalized pv = "first")
   /\ filter (fun w => isDuplicateWarning w && refersTo secondOccurrence w)
             (pcs_warnings (Parser.parse (serverTwice ++ "Database=mydb;Server=third")))
      = [Parser.duplicateWarning "Server" secondOccurrence])
  /\ filter (fun w => isDuplicateWarning w
                      && negb (fromUrl jdbcDatabaseTwice
                                 (warningId (pcs_driver (Parser.parse jdbcDatabaseTwice)) w)))
            (pcs_warnings (Parser.parse jdbcDatabaseTwice))
     = [Parser.duplicateWarning "database" {| p_start := 11; p_end := 21 |}].
Proof.
  split.
  - apply (proj1 duplicate_policy "Database=mydb;Server=third").
    apply Nat.leb_le. vm_compute. reflexivity.
  - assert (Hlen : (String.length jdbcDatabaseTwice <= MAX_CONNECTION_STRING_SIZE)%nat)
      by (apply Nat.leb_le; vm_compute; reflexivity).
    pose proof (proj2 duplicate_policy jdbcDatabaseTwice Hlen eq_refl) as H.
    cbv zeta in H. destruct H as [_ [H _]].
    rewrite H. vm_compute. reflexivity.
Defined.

Example duplicate_policy_example :
  map (fun w => (pw_code w, pw_keyword w, pw_position w))
      (pcs_warnings (Parser.parse (serverTwice ++ "Database=mydb;Server=third")))
  = [ (DUPLICATE_KEYWORD, Some "Server", Some secondOccurrence);
      (DUPLICATE_KEYWORD, Some "Server", Some {| p_start := 41; p_end := 53 |}) ].
Proof. vm_compute. reflexivity. Qed.

(** C7 fails as stated for an input beyond the size limit: the pair set is
    empty, so there is no server value, and no warning is emitted. *)
Lemma duplicate_policy_counterexample :
  JSMap.get "server"
    (pcs_pairs (Parser.parse (serverTwice ++ xs MAX_CONNECTION_STRING_SIZE))) = None
  /\ pcs_warnings (Parser.parse (serverTwice ++ xs MAX_CONNECTION_STRING_SIZE)) = [].
Proof.
  assert (G : (MAX_CONNECTION_STRING_SIZE
               <? String.length (serverTwice ++ xs MAX_CONNECTION_STRING_SIZE))%nat = true).
  { apply Nat.ltb_lt. rewrite length_app, xs_length. cbn [serverTwice String.length]. lia. }
  unfold Parser.parse. rewrite G. split; reflexivity.
Qed.

(** The server value taken from a JDBC URL is stored ahead of the loop and
    is not among the keys seen: a [Server] property that follows replaces
    it, and no warning is emitted, whereas the loop says of its check that
    the first occurrence wins.  The theorem above leaves this case out. *)
Example jdbc_url_server_replaced :
  map (fun e => (fst e, normalized (snd e)))
      (pcs_pairs (Parser.parse "jdbc:sqlserver://urlhost:1433;Server=other"))
  = [("server", "other")]
  /\ pcs_warnings (Parser.parse "jdbc:sqlserver://urlhost:1433;Server=other") = [].
Proof. split; vm_compute; reflexivity. Qed.

From Stdlib Require Import Permutation DecimalN.

(* ------------------------------------------------------------------ *)
(** * Further properties of the code *)

(** ** data/defaults.ts: comparing defaults *)

Lemma strictEq_refl (v : JSValue) : Defaults.strictEq v v = true.
Proof.
  destruct v; cbn.
  - apply String.eqb_refl.
  - destruct b; reflexivity.
  - apply N.eqb_refl.
Qed.

Lemma strictEq_sym (a b : JSValue) : Defaults.strictEq a b = Defaults.strictEq b a.
Proof.
  destruct a, b; cbn; try reflexivity.
  - apply String.eqb_sym.
  - destruct b, b0; reflexivity.
  - apply N.eqb_sym.
Qed.

Lemma areValuesFunctionallyEqual_sym (a b : JSValue) :
  Defaults.areValuesFunctionallyEqual a b = Defaults.areValuesFunctionallyEqual b a.
Proof.
  unfold Defaults.areValuesFunctionallyEqual.
  rewrite (strictEq_sym b a).
  destruct (Defaults.strictEq a b); [reflexivity|].
  assert (G : forall x y : string,
    (if String.eqb x y then true
     else if JS.mem x ["undefined"; "notspecified"; "none"; ""]
             && JS.mem y ["undefined"; "notspecified"; "none"; ""] then true
     else if JS.mem x ["0"; "undefined"; ""] && JS.mem y ["0"; "undefined"; ""] then true
     else if JS.mem x ["false"; "no"; "0"; "off"; "undefined"; ""]
             && JS.mem y ["false"; "no"; "0"; "off"; "undefined"; ""] then true
     else match Defaults.normalizeBooleanValue (VStr x),
                Defaults.normalizeBooleanValue (VStr y) with
          | Some bool1, Some bool2 => Bool.eqb bool1 bool2
          | _, _ => String.eqb x y
          end)
    = (if String.eqb y x then true
       else if JS.mem y ["undefined"; "notspecified"; "none"; ""]
               && JS.mem x ["undefined"; "notspecified"; "none"; ""] then true
       else if JS.mem y ["0"; "undefined"; ""] && JS.mem x ["0"; "undefined"; ""] then true
       else if JS.mem y ["false"; "no"; "0"; "off"; "undefined"; ""]
               && JS.mem x ["false"; "no"; "0"; "off"; "undefined"; ""] then true
       else match Defaults.normalizeBooleanValue (VStr y),
                  Defaults.normalizeBooleanValue (VStr x) with
            | Some bool1, Some bool2 => Bool.eqb bool1 bool2
            | _, _ => String.eqb y x
            end)).
  { intros x y. rewrite (String.eqb_sym y x).
    destruct (String.eqb x y); [reflexivity|].
    rewrite (andb_comm (JS.mem y ["undefined"; "notspecified"; "none"; ""])).
    destruct (JS.mem x ["undefined"; "notspecified"; "none"; ""]
              && JS.mem y ["undefined"; "notspecified"; "none"; ""]); [reflexivity|].
    rewrite (andb_comm (JS.mem y ["0"; "undefined"; ""])).
    destruct (JS.mem x ["0"; "undefined"; ""] && JS.mem y ["0"; "undefined"; ""]);
      [reflexivity|].
    rewrite (andb_comm (JS.mem y ["false"; "no"; "0"; "off"; "undefined"; ""])).
    destruct (JS.mem x ["false"; "no"; "0"; "off"; "undefined"; ""]
              && JS.mem y ["false"; "no"; "0"; "off"; "undefined"; ""]); [reflexivity|].
    destruct (Defaults.normalizeBooleanValue (VStr x)) as [[|]|],
             (Defaults.normalizeBooleanValue (VStr y)) as [[|]|]; reflexivity. }
  destruct a as [s1|b1|n1], b as [s2|b2|n2];
    try apply G; try (destruct b1, b2; reflexivity); try apply N.eqb_sym.
Qed.

Lemma doDefaultsDiffer_same (keywordId : string) (d : DriverType) :
  Defaults.doDefaultsDiffer keywordId d d = false.
Proof.
  unfold Defaults.doDefaultsDiffer.
  destruct (Defaults.getDefaultValue keywordId d) as [v|]; [|reflexivity].
  unfold Defaults.areValuesFunctionallyEqual. rewrite strictEq_refl. reflexivity.
Qed.

(** X1.  [doDefaultsDiffer] never reports a difference between a driver and
    itself, and does not depend on the order in which the two drivers are
    given. *)
Theorem doDefaultsDiffer_symmetric (keywordId : string) (d1 d2 : DriverType) :
  Defaults.doDefaultsDiffer keywordId d1 d1 = false
  /\ Defaults.doDefaultsDiffer keywordId d1 d2 = Defaults.doDefaultsDiffer keywordId d2 d1.
Proof.
  split; [apply doDefaultsDiffer_same|].
  unfold Defaults.doDefaultsDiffer.
  destruct (Defaults.getDefaultValue keywordId d1) as [v1|],
           (Defaults.getDefaultValue keywordId d2) as [v2|];
    try reflexivity; f_equal; apply areValuesFunctionallyEqual_sym.
Qed.

(** ** translator/mapper.ts: the warnings of a mapping *)

Lemma defaultWarnings_same (d : DriverType) (specified : list string) :
  defaultWarnings d d specified = [].
Proof.
  unfold defaultWarnings.
  induction Keywords.keywords as [|kw l IH]; [reflexivity|].
  cbn [flat_map]. rewrite IH.
  destruct (JS.mem (kw_id kw) specified); [reflexivity|].
  rewrite doDefaultsDiffer_same. reflexivity.
Qed.

Lemma fold_keywordOrder src tgt opts l : forall acc,
  keywordOrder (fold_left (mapPair src tgt opts) l acc)
  = (keywordOrder acc ++ map fst l)%list.
Proof.
  induction l as [|[id pv] l IH]; intros acc; cbn [fold_left map].
  - rewrite app_nil_r. reflexivity.
  - rewrite IH. cbn [fst].
    assert (E : keywordOrder (mapPair src tgt opts acc (id, pv))
                = (keywordOrder acc ++ [id])%list).
    { unfold mapPair.
      destruct (Keywords.getKeywordById id) as [kw|].
      - destruct (driversGet tgt (kw_drivers kw)) as [c|].
        + destruct (dk_name c) as [n|].
          * destruct (transformValue c tgt (normalized pv)). reflexivity.
          * destruct (DriverType_eqb tgt jdbc && String.eqb id "server"); reflexivity.
        + destruct (DriverType_eqb tgt jdbc && String.eqb id "server"); reflexivity.
      - destruct (preserveUnknown opts); reflexivity. }
    rewrite E, <- app_assoc. reflexivity.
Qed.

(** A warning that the Python allowlist blocks a keyword of the input. *)
Definition blockedWarning (parsed : ParsedConnectionString) (target : DriverType)
  (w : TranslationWarning) : Prop :=
  tw_code w = PYTHON_BLOCKED /\ target = python
  /\ exists id, tw_keyword w = Some id
                /\ In id (map fst (pcs_pairs parsed))
                /\ Python.isPythonBlockedKeyword id = true.

(** A warning that the defaults of a keyword differ between the two
    drivers. *)
Definition defaultWarning (parsed : ParsedConnectionString) (target : DriverType)
  (w : TranslationWarning) : Prop :=
  tw_code w = DEFAULT_DIFFERS
  /\ exists kw, In kw Keywords.keywords
                /\ tw_keyword w = Some (kw_id kw)
                /\ ~ In (kw_id kw) (map fst (pcs_pairs parsed))
                /\ Defaults.doDefaultsDiffer (kw_id kw) (pcs_driver parsed) target = true.

Lemma mapPair_warnings src tgt opts acc id pv :
  warnings (mapPair src tgt opts acc (id, pv)) = warnings acc
  \/ exists w, warnings (mapPair src tgt opts acc (id, pv)) = (warnings acc ++ [w])%list
               /\ tw_code w = PYTHON_BLOCKED /\ tgt = python
               /\ tw_keyword w = Some id /\ Python.isPythonBlockedKeyword id = true.
Proof.
  unfold mapPair.
  destruct (Keywords.getKeywordById id) as [kw|].
  - assert (G : forall W,
      warnings
        {| translatedKeywords := translatedKeywords acc;
           untranslatableKeywords := W;
           warnings :=
             if DriverType_eqb tgt python && Python.isPythonBlockedKeyword id
             then (warnings acc ++
                   [ {| tw_code := PYTHON_BLOCKED;
                        tw_message := "Keyword '" ++ kw_displayName kw
                                      ++ "' is blocked by Python driver's restricted allowlist";
                        tw_keyword := Some id |} ])%list
             else warnings acc;
           keywordOrder := (keywordOrder acc ++ [id])%list;
           mappedPairs := mappedPairs acc |} = warnings acc
      \/ exists w,
           warnings
             {| translatedKeywords := translatedKeywords acc;
                untranslatableKeywords := W;
                warnings :=
                  if DriverType_eqb tgt python && Python.isPythonBlockedKeyword id
                  then (warnings acc ++
                        [ {| tw_code := PYTHON_BLOCKED;
                             tw_message := "Keyword '" ++ kw_displayName kw
                                           ++ "' is blocked by Python driver's restricted allowlist";
                             tw_keyword := Some id |} ])%list
                  else warnings acc;
                keywordOrder := (keywordOrder acc ++ [id])%list;
                mappedPairs := mappedPairs acc |} = (warnings acc ++ [w])%list
           /\ tw_code w = PYTHON_BLOCKED /\ tgt = python
           /\ tw_keyword w = Some id /\ Python.isPythonBlockedKeyword id = true).
    { intros W. cbn [warnings].
      destruct (DriverType_eqb tgt python) eqn:Ep; cbn [andb]; [|left; reflexivity].
      destruct (Python.isPythonBlockedKeyword id) eqn:Eb; [|left; reflexivity].
      right. eexists. split; [reflexivity|]. cbn.
      repeat split; try reflexivity. apply DriverType_eqb_eq; exact Ep. }
    destruct (driversGet tgt (kw_drivers kw)) as [c|].
    + destruct (dk_name c) as [n|].
      * destruct (transformValue c tgt (normalized pv)). left; reflexivity.
      * destruct (DriverType_eqb tgt jdbc && String.eqb id "server");
          [left; reflexivity | apply G].
    + destruct (DriverType_eqb tgt jdbc && String.eqb id "server");
        [left; reflexivity | apply G].
  - destruct (preserveUnknown opts); left; reflexivity.
Qed.

Lemma fold_warnings src tgt opts (P : TranslationWarning -> Prop) l : forall acc,
  Forall P (warnings acc) ->
  (forall w id, In id (map fst l) -> tw_code w = PYTHON_BLOCKED -> tgt = python ->
                tw_keyword w = Some id -> Python.isPythonBlockedKeyword id = true -> P w) ->
  Forall P (warnings (fold_left (mapPair src tgt opts) l acc)).
Proof.
  induction l as [|[id pv] l IH]; intros acc Hacc HP; cbn [fold_left]; [exact Hacc|].
  apply IH.
  - destruct (mapPair_warnings src tgt opts acc id pv) as [E|[w [E [H1 [H2 [H3 H4]]]]]];
      rewrite E; [exact Hacc|].
    apply Forall_app. split; [exact Hacc|].
    constructor; [|constructor].
    apply (HP w id); auto. cbn. left; reflexivity.
  - intros w id' Hin. apply HP. cbn. right; exact Hin.
Qed.

Lemma defaultWarnings_shape (src tgt : DriverType) (specified : list string) :
  Forall (fun w => tw_code w = DEFAULT_DIFFERS
                   /\ exists kw, In kw Keywords.keywords
                                 /\ tw_keyword w = Some (kw_id kw)
                                 /\ JS.mem (kw_id kw) specified = false
                                 /\ Defaults.doDefaultsDiffer (kw_id kw) src tgt = true)
         (defaultWarnings src tgt specified).
Proof.
  unfold defaultWarnings.
  apply Forall_forall. intros w Hw.
  apply in_flat_map in Hw. destruct Hw as [kw [Hkw Hw]].
  destruct (JS.mem (kw_id kw) specified) eqn:Em; [contradiction|].
  destruct (Defaults.doDefaultsDiffer (kw_id kw) src tgt) eqn:Ed; cbn [andb] in Hw;
    [|contradiction].
  destruct (nameNotNull (driversGet src (kw_drivers kw))
            && nameNotNull (driversGet tgt (kw_drivers kw))); [|contradiction].
  destruct Hw as [Hw|[]]. subst w. cbn.
  split; [reflexivity|]. exists kw. auto.
Qed.

(** X2.  Every warning of [mapKeywords] is either a PYTHON_BLOCKED warning,
    issued only for the target python about a keyword of the input that is on
    the restricted allowlist, or a DEFAULT_DIFFERS warning about a registry
    keyword that the input did not specify and whose defaults differ between
    the source and the target driver. *)
Theorem mapKeywords_warnings (lc : string -> string -> Z)
  (parsed : ParsedConnectionString) (target : DriverType) (options : TranslationOptions) :
  Forall (fun w => blockedWarning parsed target w \/ defaultWarning parsed target w)
         (warnings (mapKeywords lc parsed target options)).
Proof.
  unfold mapKeywords. cbn [warnings].
  apply Forall_app. split.
  - apply fold_warnings; [constructor|].
    intros w id Hin H1 H2 H3 H4. left. unfold blockedWarning.
    repeat split; auto. exists id. auto.
  - rewrite fold_keywordOrder. cbn [keywordOrder emptyResult app].
    eapply Forall_impl; [|apply defaultWarnings_shape].
    intros w [H1 [kw [Hk [Hw [Hm Hd]]]]]. right. split; [exact H1|].
    exists kw. repeat split; auto.
    intros Hin. apply mem_true_iff in Hin. congruence.
Qed.

(** X3.  Translating to the driver the input was detected as never yields a
    DEFAULT_DIFFERS warning. *)
Theorem same_driver_no_default_warning (lc : string -> string -> Z)
  (parsed : ParsedConnectionString) (options : TranslationOptions) :
  Forall (fun w => tw_code w = PYTHON_BLOCKED)
         (warnings (mapKeywords lc parsed (pcs_driver parsed) options)).
Proof.
  unfold mapKeywords. cbn [warnings].
  rewrite defaultWarnings_same, app_nil_r.
  apply fold_warnings; [constructor|]. auto.
Qed.

(** ** translator/mapper.ts: what becomes of the pairs *)

(** The pair that [mapKeywords] leaves to the URL of the JDBC generator. *)
Definition goesToUrl (target : DriverType) (e : string * ParsedValue) : bool :=
  DriverType_eqb target jdbc && String.eqb (fst e) "server".

Lemma mapPair_counts src tgt opts acc e :
  List.length (translatedKeywords (mapPair src tgt opts acc e))
  + List.length (untranslatableKeywords (mapPair src tgt opts acc e))
  + (if goesToUrl tgt e then 1 else 0)
  = List.length (translatedKeywords acc) + List.length (untranslatableKeywords acc) + 1.
Proof.
  destruct e as [id pv]. unfold goesToUrl. cbn [fst].
  destruct (DriverType_eqb tgt jdbc && String.eqb id "server") eqn:E.
  - apply andb_prop in E. destruct E as [E1 E2].
    apply DriverType_eqb_eq in E1. apply String.eqb_eq in E2. subst tgt id.
    cbn. lia.
  - unfold mapPair. rewrite E.
    destruct (Keywords.getKeywordById id) as [kw|].
    + destruct (driversGet tgt (kw_drivers kw)) as [c|].
      * destruct (dk_name c) as [n|].
        -- destruct (transformValue c tgt (normalized pv)).
           cbn [translatedKeywords untranslatableKeywords].
           rewrite List.length_app. cbn. lia.
        -- cbn [translatedKeywords untranslatableKeywords].
           rewrite List.length_app. cbn. lia.
      * cbn [translatedKeywords untranslatableKeywords].
        rewrite List.length_app. cbn. lia.
    + destruct (preserveUnknown opts);
        cbn [translatedKeywords untranslatableKeywords];
        rewrite List.length_app; cbn; lia.
Qed.

Lemma fold_counts src tgt opts l : forall acc,
  List.length (translatedKeywords (fold_left (mapPair src tgt opts) l acc))
  + List.length (untranslatableKeywords (fold_left (mapPair src tgt opts) l acc))
  + List.length (filter (goesToUrl tgt) l)
  = List.length (translatedKeywords acc) + List.length (untranslatableKeywords acc)
    + List.length l.
Proof.
  induction l as [|e l IH]; intros acc; cbn [fold_left filter List.length]; [lia|].
  pose proof (mapPair_counts src tgt opts acc e) as H.
  pose proof (IH (mapPair src tgt opts acc e)) as H'.
  destruct (goesToUrl tgt e); cbn [List.length]; lia.
Qed.

Lemma insertSorted_Permutation {A : Type} (cmp : A -> A -> Z) (x : A) (l : list A) :
  Permutation (insertSorted cmp x l) (x :: l).
Proof.
  induction l as [|y l IH]; cbn; [apply Permutation_refl|].
  destruct (cmp x y <=? 0)%Z; [apply Permutation_refl|].
  eapply perm_trans; [apply perm_skip; exact IH|]. apply perm_swap.
Qed.

Lemma sortBy_Permutation {A : Type} (cmp : A -> A -> Z) (l : list A) :
  Permutation (sortBy cmp l) l.
Proof.
  induction l as [|x l IH]; cbn; [constructor|].
  eapply perm_trans; [apply insertSorted_Permutation|]. apply perm_skip. exact IH.
Qed.

Lemma applyOrder_Permutation (lc : string -> string -> Z) (options : TranslationOptions)
  (l : list TranslatedKeyword) :
  Permutation (applyOrder lc options l) l.
Proof.
  unfold applyOrder.
  destruct (keywordOrder_opt options) as [[| |]|];
    try apply Permutation_refl; apply sortBy_Permutation.
Qed.

(** X4.  [mapKeywords] accounts for every parsed pair: [keywordOrder] lists
    the canonical ids of the pairs in their order, and each pair ends up as
    exactly one translated keyword or one untranslatable keyword, except the
    server pair of a JDBC translation, which goes to the URL. *)
Theorem mapKeywords_accounts_for_pairs (lc : string -> string -> Z)
  (parsed : ParsedConnectionString) (target : DriverType) (options : TranslationOptions) :
  keywordOrder (mapKeywords lc parsed target options) = map fst (pcs_pairs parsed)
  /\ List.length (translatedKeywords (mapKeywords lc parsed target options))
     + List.length (untranslatableKeywords (mapKeywords lc parsed target options))
     + List.length (filter (goesToUrl target) (pcs_pairs parsed))
     = List.length (pcs_pairs parsed).
Proof.
  unfold mapKeywords. cbn [keywordOrder translatedKeywords untranslatableKeywords].
  split.
  - rewrite fold_keywordOrder. reflexivity.
  - rewrite (Permutation_length (applyOrder_Permutation lc options _)).
    rewrite fold_counts. reflexivity.
Qed.

Lemma mapPair_options src tgt o1 o2 acc e :
  preserveUnknown o1 = preserveUnknown o2 ->
  mapPair src tgt o1 acc e = mapPair src tgt o2 acc e.
Proof.
  intros H. destruct e as [id pv]. unfold mapPair. rewrite H. reflexivity.
Qed.

Lemma fold_options src tgt o1 o2 l : forall acc,
  preserveUnknown o1 = preserveUnknown o2 ->
  fold_left (mapPair src tgt o1) l acc = fold_left (mapPair src tgt o2) l acc.
Proof.
  induction l as [|e l IH]; intros acc H; cbn [fold_left]; [reflexivity|].
  rewrite (mapPair_options src tgt o1 o2 acc e H). apply IH. exact H.
Qed.

(** X5.  Of the translation options only [preserveUnknown] decides what is
    translated: two option sets that agree on it give the same translated
    keywords up to their order, and the same untranslatable keywords,
    warnings, keyword order and mapped pairs. *)
Theorem options_only_reorder (lc : string -> string -> Z)
  (parsed : ParsedConnectionString) (target : DriverType) (o1 o2 : TranslationOptions) :
  preserveUnknown o1 = preserveUnknown o2 ->
  Permutation (translatedKeywords (mapKeywords lc parsed target o1))
              (translatedKeywords (mapKeywords lc parsed target o2))
  /\ untranslatableKeywords (mapKeywords lc parsed target o1)
     = untranslatableKeywords (mapKeywords lc parsed target o2)
  /\ warnings (mapKeywords lc parsed target o1) = warnings (mapKeywords lc parsed target o2)
  /\ keywordOrder (mapKeywords lc parsed target o1)
     = keywordOrder (mapKeywords lc parsed target o2)
  /\ mappedPairs (mapKeywords lc parsed target o1)
     = mappedPairs (mapKeywords lc parsed target o2).
Proof.
  intros H. unfold mapKeywords.
  cbn [translatedKeywords untranslatableKeywords warnings keywordOrder mappedPairs].
  rewrite (fold_options (pcs_driver parsed) target o1 o2 (pcs_pairs parsed) emptyResult H).
  repeat split.
  eapply perm_trans; [apply applyOrder_Permutation|].
  apply Permutation_sym. apply applyOrder_Permutation.
Qed.

Definition reorderedOptions : TranslationOptions :=
  {| includeDefaults := true; preserveUnknown := false; preferShortNames := true;
     formatting := Some readable; keywordOrder_opt := Some order_canonical |}.

Lemma options_only_reorder_witness :
  Permutation
    (translatedKeywords
       (mapKeywords (fun _ _ => 0%Z) (Parser.parse "Encrypt=yes;Database=app;Server=db1")
                    odbc noOptions))
    (translatedKeywords
       (mapKeywords (fun _ _ => 0%Z) (Parser.parse "Encrypt=yes;Database=app;Server=db1")
                    odbc reorderedOptions)).
Proof.
  apply (options_only_reorder (fun _ _ => 0%Z)
           (Parser.parse "Encrypt=yes;Database=app;Server=db1") odbc
           noOptions reorderedOptions).
  reflexivity.
Defined.

(** ** translator/index.ts: translating to every driver *)

(** X6.  [translateAll] returns seven results, one per driver in the order
    sqlclient, odbc, oledb, jdbc, php, python, rust; the parse of the input
    is the same for all of them, so they all succeed or all fail, with the
    same errors. *)
Theorem translateAll_uniform (lc : string -> string -> Z) (input : string)
  (options : TranslationOptions) :
  map targetDriver (Translator.translateAll lc input options) = ALL_DRIVERS
  /\ Forall (fun r =>
               success r = (List.length (pcs_errors (Parser.parse input)) =? 0)%nat
               /\ tr_errors r
                  = map (fun e => {| te_code := PARSE_FAILED; te_message := pe_message e |})
                        (pcs_errors (Parser.parse input)))
            (Translator.translateAll lc input options).
Proof.
  unfold Translator.translateAll. split.
  - rewrite map_map. rewrite <- (map_id ALL_DRIVERS) at 2.
    apply map_ext. intros d. unfold Translator.translate.
    destruct (0 <? List.length (pcs_errors (Parser.parse input)))%nat; reflexivity.
  - apply Forall_forall. intros r Hr.
    apply in_map_iff in Hr. destruct Hr as [d [Hr _]]. subst r.
    unfold Translator.translate.
    destruct (pcs_errors (Parser.parse input)) as [|e es]; split; reflexivity.
Qed.

(** ** translator/validator.ts: validating a parsed connection string *)

Lemma fold_extends {A : Type} (step : list ParseWarning -> A -> list ParseWarning)
  (l : list A) :
  (forall w a, exists extra, step w a = (w ++ extra)%list) ->
  forall w, exists extra, fold_left step l w = (w ++ extra)%list.
Proof.
  intros Hstep. induction l as [|a l IH]; intros w; cbn [fold_left].
  - exists []. rewrite app_nil_r. reflexivity.
  - destruct (Hstep w a) as [x1 E1]. destruct (IH (step w a)) as [x2 E2].
    exists (x1 ++ x2)%list. rewrite E2, E1, app_assoc. reflexivity.
Qed.

Ltac extends_by :=
  match goal with
  | |- exists extra, (?w ++ ?x)%list = (?w ++ extra)%list => exists x; reflexivity
  | |- exists extra, ?w = (?w ++ extra)%list => exists []; rewrite app_nil_r; reflexivity
  end.

Ltac extends_cases :=
  repeat match goal with
         | |- context [if ?c then _ else _] => destruct c
         end;
  repeat rewrite <- app_assoc; extends_by.

Lemma validateRequiredKeywords_extends parsed es w :
  fst (Validator.validateRequiredKeywords parsed es w) = es
  /\ exists extra, snd (Validator.validateRequiredKeywords parsed es w) = (w ++ extra)%list.
Proof.
  unfold Validator.validateRequiredKeywords. cbn [fst snd]. split; [reflexivity|].
  destruct (pcs_driver parsed); extends_cases.
Qed.

Lemma validateConflictingKeywords_extends parsed w :
  exists extra, Validator.validateConflictingKeywords parsed w = (w ++ extra)%list.
Proof.
  unfold Validator.validateConflictingKeywords.
  destruct (option_map JS.toLowerCase (Validator.normalizedOf parsed "encrypt")) as [ev|];
    extends_cases.
Qed.

Lemma validateDeprecatedKeywords_extends parsed d w :
  exists extra, Validator.validateDeprecatedKeywords parsed d w = (w ++ extra)%list.
Proof.
  unfold Validator.validateDeprecatedKeywords. apply fold_extends.
  intros w' [id pv].
  destruct (Keywords.getKeywordById id) as [kw|]; [|extends_by].
  destruct (driversGet d (kw_drivers kw)) as [c|]; [|extends_by].
  destruct (dk_deprecated c); extends_by.
Qed.

Lemma validateValueTypes_extends parsed d w :
  exists extra, Validator.validateValueTypes parsed d w = (w ++ extra)%list.
Proof.
  unfold Validator.validateValueTypes. apply fold_extends.
  intros w' [id pv].
  destruct (Keywords.getKeywordById id) as [kw|]; [|extends_by].
  destruct (driversGet d (kw_drivers kw)) as [c|]; extends_by.
Qed.

Lemma validateUnknownKeywords_extends parsed w :
  exists extra, Validator.validateUnknownKeywords parsed w = (w ++ extra)%list.
Proof.
  unfold Validator.validateUnknownKeywords. apply fold_extends.
  intros w' [id pv].
  destruct (Keywords.getKeywordById id) as [kw|]; [extends_by|].
  destruct (negb (Synonyms.isKnownKeyword id None)); [|extends_by].
  destruct (negb (existsb (Validator.warnsAbout id) w')); extends_by.
Qed.

Lemma validate_keeps (parsed : ParsedConnectionString) :
  Validator.errors (Validator.validate parsed) = pcs_errors parsed
  /\ Validator.isValid (Validator.validate parsed)
     = (List.length (pcs_errors parsed) =? 0)%nat
  /\ exists extra,
       Validator.warnings (Validator.validate parsed) = (pcs_warnings parsed ++ extra)%list.
Proof.
  unfold Validator.validate.
  destruct (validateRequiredKeywords_extends parsed (pcs_errors parsed) (pcs_warnings parsed))
    as [E0 [x1 E1]].
  destruct (Validator.validateRequiredKeywords parsed (pcs_errors parsed) (pcs_warnings parsed))
    as [es w1].
  cbn [fst snd] in E0, E1. subst es w1.
  cbn [Validator.errors Validator.isValid Validator.warnings].
  split; [reflexivity|]. split; [reflexivity|].
  destruct (validateConflictingKeywords_extends parsed (pcs_warnings parsed ++ x1)%list)
    as [x2 E2]. rewrite E2.
  destruct (validateDeprecatedKeywords_extends parsed (pcs_driver parsed)
              ((pcs_warnings parsed ++ x1) ++ x2)%list) as [x3 E3]. rewrite E3.
  destruct (validateValueTypes_extends parsed (pcs_driver parsed)
              (((pcs_warnings parsed ++ x1) ++ x2) ++ x3)%list) as [x4 E4]. rewrite E4.
  destruct (validateUnknownKeywords_extends parsed
              ((((pcs_warnings parsed ++ x1) ++ x2) ++ x3) ++ x4)%list) as [x5 E5].
  rewrite E5.
  exists (x1 ++ x2 ++ x3 ++ x4 ++ x5)%list.
  repeat rewrite <- app_assoc. reflexivity.
Qed.

(** X7.  [validate] reports the errors of the parse and no other: its
    verdict is negative exactly when the parse has an error, and every check
    of its own only adds warnings behind those of the parse. *)
Theorem validate_adds_only_warnings (parsed : ParsedConnectionString) :
  Validator.errors (Validator.validate parsed) = pcs_errors parsed
  /\ (Validator.isValid (Validator.validate parsed) = true <-> pcs_errors parsed = [])
  /\ exists extra,
       Validator.warnings (Validator.validate parsed) = (pcs_warnings parsed ++ extra)%list.
Proof.
  destruct (validate_keeps parsed) as [H1 [H2 H3]].
  split; [exact H1|]. split; [|exact H3].
  rewrite H2. destruct (pcs_errors parsed); cbn; split; intros; congruence.
Qed.

(** X8.  An input is valid for [validate] exactly when [translate] succeeds
    on it, whatever the target driver and the options. *)
Theorem validate_agrees_with_translate (lc : string -> string -> Z) (input : string)
  (target : DriverType) (options : TranslationOptions) :
  Validator.isValid (Validator.validate (Parser.parse input))
  = success (Translator.translate lc input target options).
Proof.
  destruct (validate_keeps (Parser.parse input)) as [_ [H _]]. rewrite H.
  unfold Translator.translate.
  destruct (pcs_errors (Parser.parse input)); reflexivity.
Qed.

(** ** utils/escaping.ts: what escaping leaves recognisable *)

Lemma startsWithChar_includes (c : ascii) (s : string) :
  JS.startsWithChar c s = true -> JS.includesChar c s = true.
Proof.
  destruct s as [|d s]; cbn; [discriminate|]. intros H. rewrite H. reflexivity.
Qed.

Lemma includesChar_trimStart (c : ascii) (s : string) :
  JS.includesChar c (JS.trimStart s) = true -> JS.includesChar c s = true.
Proof.
  induction s as [|d s IH]; cbn; [auto|].
  destruct (JS.is_space d); [|auto].
  intros H. rewrite (IH H). apply orb_true_r.
Qed.

Lemma includesChar_trimEnd (c : ascii) (s : string) :
  JS.includesChar c (JS.trimEnd s) = true -> JS.includesChar c s = true.
Proof.
  induction s as [|d s IH]; cbn; [auto|].
  destruct (JS.trimEnd s) as [|e t] eqn:E.
  - destruct (JS.is_space d); cbn; [discriminate|].
    rewrite orb_false_r. intros H. rewrite H. reflexivity.
  - cbn [JS.includesChar]. intros H.
    apply orb_true_iff in H. destruct H as [H|H]; [rewrite H; reflexivity|].
    rewrite IH; [apply orb_true_r|]. exact H.
Qed.

Lemma includesChar_trim (c : ascii) (s : string) :
  JS.includesChar c (JS.trim s) = true -> JS.includesChar c s = true.
Proof.
  intros H. apply includesChar_trimStart, includesChar_trimEnd. exact H.
Qed.

Lemma needsEscaping_false (v : string) :
  Escaping.needsEscaping v = false ->
  JS.includesChar JS.DQ v = false /\ JS.includesChar "'" v = false
  /\ JS.includesChar "{" v = false /\ JS.includesChar "}" v = false
  /\ JS.includesChar ";" v = false /\ JS.includesChar "=" v = false.
Proof.
  unfold Escaping.needsEscaping, Escaping.SPECIAL_CHARS. cbn [existsb].
  intros H. repeat (apply orb_false_iff in H; destruct H as [? H]). auto 10.
Qed.

Lemma plain_not_quoted (v : string) :
  Escaping.needsEscaping v = false -> Escaping.isQuotedOrBraced v = false.
Proof.
  intros H. apply needsEscaping_false in H. destruct H as [H1 [H2 [H3 _]]].
  unfold Escaping.isQuotedOrBraced.
  assert (G : forall c, JS.includesChar c v = false -> JS.startsWithChar c (JS.trim v) = false).
  { intros c Hc. destruct (JS.startsWithChar c (JS.trim v)) eqn:E; [|reflexivity].
    apply startsWithChar_includes, includesChar_trim in E. congruence. }
  rewrite (G _ H1), (G _ H2), (G _ H3). reflexivity.
Qed.

Lemma wrapped_quoted (o cl : ascii) (body : string) :
  (o = JS.DQ /\ cl = JS.DQ) \/ (o = "{"%char /\ cl = "}"%char) ->
  Escaping.isQuotedOrBraced (String o (body ++ String cl EmptyString)) = true.
Proof.
  intros H. unfold Escaping.isQuotedOrBraced.
  rewrite trim_wrapped by (destruct H as [[-> ->]|[-> ->]]; reflexivity).
  cbn [JS.startsWithChar]. rewrite !endsWithChar_wrapped.
  destruct H as [[-> ->]|[-> ->]]; reflexivity.
Qed.

Lemma escaped_quoted (value : string) (driver : DriverType) :
  Escaping.needsEscaping value = true ->
  Escaping.isQuotedOrBraced (Escaping.escapeValue value driver) = true.
Proof.
  intros E. unfold Escaping.escapeValue. rewrite E. cbn [negb].
  destruct driver; unfold JS.dq; cbn [append]; apply wrapped_quoted; auto.
Qed.

(** X9.  The escaped form of a value is quoted or braced exactly when the
    value contains a special character, for each of the seven drivers: the
    parser, which unescapes the values that are quoted or braced, treats a
    written value as escaped exactly when the generator escaped it. *)
Theorem escaped_iff_special (value : string) (driver : DriverType) :
  Escaping.isQuotedOrBraced (Escaping.escapeValue value driver)
  = Escaping.needsEscaping value.
Proof.
  unfold Escaping.escapeValue.
  destruct (Escaping.needsEscaping value) eqn:E; cbn [negb].
  - destruct driver; unfold JS.dq; cbn [append];
      apply wrapped_quoted; auto.
  - apply plain_not_quoted. exact E.
Qed.

Lemma replaceChar_absent (c : ascii) (r s : string) :
  JS.includesChar c s = false -> JS.replaceChar c r s = s.
Proof.
  induction s as [|d s IH]; cbn; [reflexivity|].
  intros H. apply orb_false_iff in H. destruct H as [H1 H2].
  rewrite H1, IH by exact H2. reflexivity.
Qed.

Lemma stripQuotes_wrapped (o cl : ascii) (body : string) :
  (o = JS.DQ /\ cl = JS.DQ) \/ (o = "{"%char /\ cl = "}"%char) ->
  Escaping.stripQuotes (String o (body ++ String cl EmptyString)) = body.
Proof.
  intros H. pose proof (wrapped_quoted o cl body H) as Q.
  unfold Escaping.isQuotedOrBraced in Q. unfold Escaping.stripQuotes. rewrite Q.
  rewrite trim_wrapped by (destruct H as [[-> ->]|[-> ->]]; reflexivity).
  cbn [JS.slice_1_m1]. apply removeLast_snoc.
Qed.

(** The character that closes an escaped value of the driver: the one
    [escapeValue] doubles inside the value. *)
Definition closingChar (driver : DriverType) : ascii :=
  match driver with
  | odbc | jdbc => "}"%char
  | _ => JS.DQ
  end.

(** X10.  For the six drivers that escape by doubling, [stripQuotes] takes
    off exactly what [escapeValue] puts around a value: a value without the
    closing character of the driver comes back unchanged. *)
Theorem stripQuotes_escapeValue (value : string) (driver : DriverType) :
  driver <> rust ->
  JS.includesChar (closingChar driver) value = false ->
  Escaping.stripQuotes (Escaping.escapeValue value driver) = value.
Proof.
  intros Hd Hc. unfold Escaping.escapeValue.
  destruct (Escaping.needsEscaping value) eqn:E; cbn [negb].
  - destruct driver; try congruence; cbn [closingChar] in Hc;
      rewrite (replaceChar_absent _ _ _ Hc); unfold JS.dq; cbn [append];
      apply stripQuotes_wrapped; auto.
  - pose proof (plain_not_quoted value E) as Q.
    unfold Escaping.isQuotedOrBraced in Q. unfold Escaping.stripQuotes.
    rewrite Q. reflexivity.
Qed.

Lemma stripQuotes_escapeValue_witness :
  Escaping.stripQuotes (Escaping.escapeValue "p;w{d" odbc) = "p;w{d".
Proof.
  apply (stripQuotes_escapeValue "p;w{d" odbc).
  - discriminate.
  - reflexivity.
Defined.

(** X11.  The escaping helpers of the two files agree: [escapeForJdbc] and
    the generator's [formatValueForJdbc] give [escapeValue] for jdbc, the
    generator's [formatValue] gives [escapeValue] for every driver, and
    [escapeForRust] is the generator's [escapeRustString]. *)
Theorem escaping_helpers_agree (value : string) :
  Escaping.escapeForJdbc value = Escaping.escapeValue value jdbc
  /\ Generator.formatValueForJdbc value = Escaping.escapeValue value jdbc
  /\ (forall driver, Generator.formatValue value driver = Escaping.escapeValue value driver)
  /\ Escaping.escapeForRust value = Generator.escapeRustString value.
Proof.
  unfold Escaping.escapeForJdbc, Generator.formatValueForJdbc, Generator.formatValue,
         Escaping.escapeValue.
  destruct (Escaping.needsEscaping value); cbn [negb]; repeat split; reflexivity.
Qed.

(** ** data/keywords.ts and data/synonyms.ts: the registry and its index *)

(** The canonical ids that the index of a driver, or the global index when
    no driver is given, can answer. *)
Definition indexedIds (driver : option DriverType) : list string :=
  match driver with
  | Some d =>
      List.app (map snd (Synonyms.driverMapGet d (Synonyms.driverSynonyms Synonyms.synonymMaps)))
               (map snd (Synonyms.globalSynonyms Synonyms.synonymMaps))
  | None => map snd (Synonyms.globalSynonyms Synonyms.synonymMaps)
  end.

Definition registered (id : string) : bool :=
  match Keywords.getKeywordById id with
  | Some kw => String.eqb (kw_id kw) id
  | None => false
  end.

Lemma indexedIds_registered :
  forallb (fun d => forallb registered (indexedIds d))
          (None :: map Some ALL_DRIVERS) = true.
Proof. vm_compute. reflexivity. Qed.

Lemma option_driver_listed (driver : option DriverType) :
  In driver (None :: map Some ALL_DRIVERS).
Proof.
  destruct driver as [[]|]; cbn; auto 10.
Qed.

Lemma resolveKeyword_indexed (name : string) (driver : option DriverType) (id : string) :
  Synonyms.resolveKeyword name driver = Some id -> In id (indexedIds driver).
Proof.
  unfold Synonyms.resolveKeyword, indexedIds.
  destruct driver as [d|].
  - destruct (JSMap.has _ _); intros H; apply JSMap_get_In in H; apply in_or_app; auto.
  - apply JSMap_get_In.
Qed.

(** X12.  The synonym index never answers with an id that the registry
    does not hold: whatever the spelling and the driver context, an id that
    [resolveKeyword] returns is the id of the keyword [getKeywordById] finds
    for it. *)
Theorem resolveKeyword_registered (name : string) (driver : option DriverType) (id : string) :
  Synonyms.resolveKeyword name driver = Some id ->
  exists kw, Keywords.getKeywordById id = Some kw /\ kw_id kw = id.
Proof.
  intros H. apply resolveKeyword_indexed in H.
  pose proof indexedIds_registered as A.
  rewrite forallb_forall in A. specialize (A driver (option_driver_listed driver)).
  rewrite forallb_forall in A. specialize (A id H).
  unfold registered in A.
  destruct (Keywords.getKeywordById id) as [kw|]; [|discriminate].
  exists kw. split; [reflexivity|]. apply String.eqb_eq. exact A.
Qed.

Lemma resolveKeyword_registered_witness :
  exists kw, Keywords.getKeywordById "server" = Some kw /\ kw_id kw = "server".
Proof.
  apply (resolveKeyword_registered "Data Source" (Some sqlclient) "server").
  reflexivity.
Defined.

Lemma lower_lower (c : ascii) : JS.lower (JS.lower c) = JS.lower c.
Proof.
  destruct c as [b0 b1 b2 b3 b4 b5 b6 b7].
  destruct b0, b1, b2, b3, b4, b5, b6, b7; reflexivity.
Qed.

Lemma is_space_lower (c : ascii) : JS.is_space (JS.lower c) = JS.is_space c.
Proof.
  destruct c as [b0 b1 b2 b3 b4 b5 b6 b7].
  destruct b0, b1, b2, b3, b4, b5, b6, b7; reflexivity.
Qed.

Lemma toLowerCase_idem (s : string) : JS.toLowerCase (JS.toLowerCase s) = JS.toLowerCase s.
Proof.
  induction s as [|c s IH]; cbn; [reflexivity|]. rewrite lower_lower, IH. reflexivity.
Qed.

Lemma removeSpaces_idem (s : string) : JS.removeSpaces (JS.removeSpaces s) = JS.removeSpaces s.
Proof.
  induction s as [|c s IH]; cbn; [reflexivity|].
  destruct (JS.is_space c) eqn:E; [exact IH|]. cbn. rewrite E, IH. reflexivity.
Qed.

Lemma toLowerCase_removeSpaces (s : string) :
  JS.toLowerCase (JS.removeSpaces s) = JS.removeSpaces (JS.toLowerCase s).
Proof.
  induction s as [|c s IH]; cbn; [reflexivity|].
  rewrite is_space_lower. destruct (JS.is_space c); [exact IH|].
  cbn. rewrite IH. reflexivity.
Qed.

Lemma toLowerCase_app (a b : string) :
  JS.toLowerCase (a ++ b) = JS.toLowerCase a ++ JS.toLowerCase b.
Proof.
  induction a as [|c a IH]; cbn; [reflexivity|]. rewrite IH. reflexivity.
Qed.

(** Two spellings that differ only in the case of their letters and in
    their white space. *)
Definition sameSpelling (a b : string) : Prop :=
  JS.removeSpaces (JS.toLowerCase a) = JS.removeSpaces (JS.toLowerCase b).

(** X13.  Keyword matching ignores the case of the letters and all white
    space: two spellings that differ only in these resolve alike, in every
    driver context; in particular a spelling resolves like its lower-case
    form, like itself without blanks, and like the canonical form
    [normalizeKeyword] gives it. *)
Theorem resolveKeyword_insensitive (a b : string) (driver : option DriverType) :
  sameSpelling a b ->
  Synonyms.resolveKeyword a driver = Synonyms.resolveKeyword b driver
  /\ Synonyms.resolveKeyword (JS.toLowerCase a) driver = Synonyms.resolveKeyword a driver
  /\ Synonyms.resolveKeyword (JS.removeSpaces a) driver = Synonyms.resolveKeyword a driver
  /\ Synonyms.resolveKeyword (Parser.normalizeKeyword a) driver
     = Synonyms.resolveKeyword a driver.
Proof.
  unfold sameSpelling, Synonyms.resolveKeyword, Parser.normalizeKeyword. intros H.
  repeat split.
  - rewrite H. reflexivity.
  - rewrite toLowerCase_idem. reflexivity.
  - rewrite toLowerCase_removeSpaces, removeSpaces_idem. reflexivity.
  - rewrite toLowerCase_removeSpaces, toLowerCase_idem, removeSpaces_idem. reflexivity.
Qed.

Lemma resolveKeyword_insensitive_witness :
  Synonyms.resolveKeyword "DATA  SOURCE" (Some odbc)
  = Synonyms.resolveKeyword "datasource" (Some odbc).
Proof.
  apply (resolveKeyword_insensitive "DATA  SOURCE" "datasource" (Some odbc)).
  reflexivity.
Defined.

(** The spellings of the registry entry of [kw] for the driver [d], or for
    all drivers. *)
Definition registrySpellings (kw : Keyword) (driver : option DriverType) : list string :=
  match driver with
  | Some d =>
      match driversGet d (kw_drivers kw) with
      | Some driverKeyword => Synonyms.spellingsOf driverKeyword
      | None => []
      end
  | None => flat_map (fun e => Synonyms.spellingsOf (snd e)) (kw_drivers kw)
  end.

Lemma registry_spellings_resolve :
  forallb (fun kw =>
    forallb (fun d =>
      forallb (fun s =>
        match Synonyms.resolveKeyword s d with
        | Some id => String.eqb id (kw_id kw)
        | None => false
        end) (registrySpellings kw d))
      (None :: map Some ALL_DRIVERS))
    Keywords.keywords = true.
Proof. vm_compute. reflexivity. Qed.

Lemma dedupe_In (x : string) (l : list string) : forall seen,
  In x (Synonyms.dedupe seen l) -> In x l.
Proof.
  induction l as [|y l IH]; intros seen; cbn; [auto|].
  destruct (JS.mem y seen); [intros H; right; eapply IH; exact H|].
  cbn. intros [H|H]; [auto|right; eapply IH; exact H].
Qed.

(** X14.  Every spelling that [getSynonymsForKeyword] lists for a canonical
    id, for one driver or across all drivers, is resolved by [resolveKeyword]
    in the same driver context to that id: no spelling of the registry is
    shadowed by another keyword. *)
Theorem synonyms_resolve_back (canonicalId : string) (driver : option DriverType)
  (spelling : string) :
  In spelling (Synonyms.getSynonymsForKeyword canonicalId driver) ->
  Synonyms.resolveKeyword spelling driver = Some canonicalId.
Proof.
  unfold Synonyms.getSynonymsForKeyword.
  destruct (find (fun k => String.eqb (kw_id k) canonicalId) Keywords.keywords) as [kw|] eqn:F;
    [|intros []].
  apply find_some in F. destruct F as [Hin Hid]. apply String.eqb_eq in Hid.
  intros H. apply dedupe_In in H.
  pose proof registry_spellings_resolve as A.
  rewrite forallb_forall in A. specialize (A kw Hin).
  rewrite forallb_forall in A. specialize (A driver (option_driver_listed driver)).
  rewrite forallb_forall in A. specialize (A spelling).
  unfold registrySpellings in A.
  assert (B : match Synonyms.resolveKeyword spelling driver with
              | Some id => String.eqb id (kw_id kw)
              | None => false
              end = true).
  { apply A. destruct driver as [d|]; exact H. }
  destruct (Synonyms.resolveKeyword spelling driver) as [id|]; [|discriminate].
  apply String.eqb_eq in B. congruence.
Qed.

Lemma synonyms_resolve_back_witness :
  Synonyms.resolveKeyword "UID" (Some odbc) = Some "userid".
Proof.
  apply (synonyms_resolve_back "userid" (Some odbc) "UID").
  cbn. auto.
Defined.

(** ** translator/mapper.ts: the supported keywords of a driver *)

Lemma registry_ids_distinct : NoDup (map kw_id Keywords.keywords).
Proof.
  assert (G : forall l : list string,
            (fix distinct (l : list string) : bool :=
               match l with
               | [] => true
               | x :: l' => negb (JS.mem x l') && distinct l'
               end) l = true -> NoDup l).
  { induction l as [|x l IH]; intros H; constructor.
    - apply andb_prop in H. destruct H as [H _].
      intros Hin. apply mem_true_iff in Hin. rewrite Hin in H. discriminate.
    - apply IH. apply andb_prop in H. apply H. }
  apply G. vm_compute. reflexivity.
Qed.

Lemma find_by_id (l : list Keyword) (kw : Keyword) :
  NoDup (map kw_id l) -> In kw l ->
  find (fun k => String.eqb (kw_id k) (kw_id kw)) l = Some kw.
Proof.
  induction l as [|k l IH]; intros Hnd Hin; [destruct Hin|].
  cbn [map] in Hnd. inversion Hnd as [|x xs Hx Hnd']; subst.
  cbn [find]. destruct Hin as [->|Hin].
  - rewrite String.eqb_refl. reflexivity.
  - destruct (String.eqb (kw_id k) (kw_id kw)) eqn:E.
    + apply String.eqb_eq in E. exfalso. apply Hx. rewrite E.
      apply in_map. exact Hin.
    + apply IH; assumption.
Qed.

Lemma getKeywordById_id (id : string) (kw : Keyword) :
  Keywords.getKeywordById id = Some kw -> kw_id kw = JS.toLowerCase id.
Proof.
  unfold Keywords.getKeywordById. intros H. apply find_some in H.
  apply String.eqb_eq. apply H.
Qed.

(** X15.  The three queries of the mapper about a driver agree:
    [isKeywordSupported] holds of an id exactly when its lower-case form is
    in the list of [getSupportedKeywords], and exactly when
    [getTargetKeywordName] returns a name. *)
Theorem supported_queries_agree (keywordId : string) (driver : DriverType) :
  (isKeywordSupported keywordId driver = true
   <-> In (JS.toLowerCase keywordId) (getSupportedKeywords driver))
  /\ (isKeywordSupported keywordId driver = true
      <-> getTargetKeywordName keywordId driver <> None).
Proof.
  unfold isKeywordSupported, getSupportedKeywords, getTargetKeywordName. split.
  - split.
    + destruct (Keywords.getKeywordById keywordId) as [kw|] eqn:E; [|discriminate].
      intros H. rewrite <- (getKeywordById_id _ _ E).
      apply in_map. apply filter_In. split; [|exact H].
      apply getKeywordById_In with (id := keywordId). exact E.
    + intros H. apply in_map_iff in H. destruct H as [kw [Hid Hf]].
      apply filter_In in Hf. destruct Hf as [Hin Hn].
      unfold Keywords.getKeywordById. rewrite <- Hid.
      rewrite (find_by_id _ kw registry_ids_distinct Hin). exact Hn.
  - destruct (Keywords.getKeywordById keywordId) as [kw|]; [|split; [discriminate|congruence]].
    destruct (driversGet driver (kw_drivers kw)) as [c|]; [|split; [discriminate|congruence]].
    unfold hasName. destruct (dk_name c); split; congruence.
Qed.

Lemma target_names_resolve :
  forallb (fun kw =>
    forallb (fun d =>
      match driversGet d (kw_drivers kw) with
      | Some c =>
          match dk_name c with
          | Some n =>
              match Synonyms.resolveKeyword n (Some d) with
              | Some id => String.eqb id (kw_id kw)
              | None => false
              end
          | None => true
          end
      | None => true
      end) ALL_DRIVERS)
    Keywords.keywords = true.
Proof. vm_compute. reflexivity. Qed.

Lemma driver_listed (d : DriverType) : In d ALL_DRIVERS.
Proof. destruct d; cbn; auto 10. Qed.

(** X16.  The name under which a keyword is written for a driver is read
    back as that keyword: when [getTargetKeywordName] gives a name for an id
    and a driver, the parser's [canonicalOf] resolves that name, in the
    context of that driver, to the id in lower case. *)
Theorem target_name_reads_back (keywordId : string) (driver : DriverType) (name : string) :
  getTargetKeywordName keywordId driver = Some name ->
  Synonyms.resolveKeyword name (Some driver) = Some (JS.toLowerCase keywordId)
  /\ Parser.canonicalOf driver name = JS.toLowerCase keywordId.
Proof.
  unfold getTargetKeywordName, Parser.canonicalOf.
  destruct (Keywords.getKeywordById keywordId) as [kw|] eqn:E; [|discriminate].
  destruct (driversGet driver (kw_drivers kw)) as [c|] eqn:Ec; [|discriminate].
  intros Hn.
  pose proof target_names_resolve as A.
  rewrite forallb_forall in A.
  specialize (A kw (getKeywordById_In _ _ E)).
  rewrite forallb_forall in A. specialize (A driver (driver_listed driver)).
  rewrite Ec, Hn in A.
  destruct (Synonyms.resolveKeyword name (Some driver)) as [id|]; [|discriminate].
  apply String.eqb_eq in A. rewrite A, (getKeywordById_id _ _ E). auto.
Qed.

Lemma target_name_reads_back_witness :
  Synonyms.resolveKeyword "databaseName" (Some jdbc) = Some (JS.toLowerCase "Database")
  /\ Parser.canonicalOf jdbc "databaseName" = JS.toLowerCase "Database".
Proof.
  apply (target_name_reads_back "Database" jdbc "databaseName").
  reflexivity.
Defined.

(** ** drivers/python.ts and drivers/rust.ts against the registry *)

Lemma registry_ids_compact :
  forallb (fun kw => String.eqb (JS.removeSpaces (kw_id kw)) (kw_id kw))
          Keywords.keywords = true.
Proof. vm_compute. reflexivity. Qed.

Lemma getKeywordById_compact (id : string) (kw : Keyword) :
  Keywords.getKeywordById id = Some kw ->
  JS.removeSpaces (JS.toLowerCase id) = kw_id kw.
Proof.
  intros E. pose proof registry_ids_compact as A.
  rewrite forallb_forall in A. specialize (A kw (getKeywordById_In _ _ E)).
  apply String.eqb_eq in A. rewrite <- (getKeywordById_id _ _ E). exact A.
Qed.

Lemma blocked_have_no_python_name :
  forallb (fun kw =>
    negb (JS.mem (kw_id kw) Python.PYTHON_BLOCKED_KEYWORDS)
    || match driversGet python (kw_drivers kw) with
       | Some c => negb (hasName c)
       | None => true
       end)
    Keywords.keywords = true.
Proof. vm_compute. reflexivity. Qed.

(** X17.  A keyword of the registry that the restricted allowlist of the
    Python driver blocks has no Python name: for an id that
    [getKeywordById] finds and [isPythonBlockedKeyword] blocks, the python
    entry of the registry is nameless, so that neither
    [getTargetKeywordName] nor [isKeywordSupported] offers it for python.
    Thirteen of the entries of [PYTHON_BLOCKED_KEYWORDS] are ids of the
    registry; the other nine are not, and nothing is said of them. *)
Theorem python_blocked_never_named (keywordId : string) (kw : Keyword) :
  Keywords.getKeywordById keywordId = Some kw ->
  Python.isPythonBlockedKeyword keywordId = true ->
  (match driversGet python (kw_drivers kw) with
   | Some c => dk_name c = None
   | None => True
   end)
  /\ getTargetKeywordName keywordId python = None
  /\ isKeywordSupported keywordId python = false
  /\ filter (fun id => match Keywords.getKeywordById id with
                       | Some _ => true
                       | None => false
                       end) Python.PYTHON_BLOCKED_KEYWORDS
     = ["attachdbfilename"; "enlist"; "failoverpartner"; "minpoolsize";
        "maxpoolsize"; "multisubnetfailover"; "packetsize";
        "persistsecurityinfo"; "pooling"; "replication"; "transactionbinding";
        "userinstance"; "workstationid"].
Proof.
  unfold Python.isPythonBlockedKeyword, getTargetKeywordName, isKeywordSupported.
  intros E H. rewrite E.
  rewrite (getKeywordById_compact _ _ E) in H.
  pose proof blocked_have_no_python_name as A.
  rewrite forallb_forall in A. specialize (A kw (getKeywordById_In _ _ E)).
  rewrite H in A. cbn [negb orb] in A.
  assert (L : filter (fun id => match Keywords.getKeywordById id with
                                | Some _ => true
                                | None => false
                                end) Python.PYTHON_BLOCKED_KEYWORDS
              = ["attachdbfilename"; "enlist"; "failoverpartner"; "minpoolsize";
                 "maxpoolsize"; "multisubnetfailover"; "packetsize";
                 "persistsecurityinfo"; "pooling"; "replication"; "transactionbinding";
                 "userinstance"; "workstationid"])
    by (vm_compute; reflexivity).
  destruct (driversGet python (kw_drivers kw)) as [c|]; [|auto].
  unfold hasName in *. destruct (dk_name c); [discriminate|auto].
Qed.

(** The registry entry of [Min Pool Size]. *)
Definition minPoolSizeKeyword : Keyword :=
  Eval vm_compute in
    match Keywords.getKeywordById "MinPoolSize" with
    | Some kw => kw
    | None => KW "" "" cat_other []
    end.

Lemma python_blocked_never_named_witness :
  Keywords.getKeywordById "MinPoolSize" = Some minPoolSizeKeyword
  /\ Python.isPythonBlockedKeyword "MinPoolSize" = true
  /\ kw_id minPoolSizeKeyword = "minpoolsize"
  /\ getTargetKeywordName "MinPoolSize" python = None
  /\ isKeywordSupported "MinPoolSize" python = false.
Proof.
  assert (E : Keywords.getKeywordById "MinPoolSize" = Some minPoolSizeKeyword)
    by (vm_compute; reflexivity).
  assert (B : Python.isPythonBlockedKeyword "MinPoolSize" = true)
    by (vm_compute; reflexivity).
  destruct (python_blocked_never_named "MinPoolSize" minPoolSizeKeyword E B)
    as [_ [N [S _]]].
  split; [exact E|]. split; [exact B|]. split; [reflexivity|].
  split; [exact N | exact S].
Defined.

Lemma rust_names_are_paths :
  forallb (fun kw =>
    match driversGet rust (kw_drivers kw) with
    | Some c =>
        match dk_name c with
        | Some n =>
            match Rust.getRustFieldPath (kw_id kw) with
            | Some p => String.eqb p n
            | None => String.eqb (kw_id kw) "userid"
            end
        | None => true
        end
    | None => true
    end)
    Keywords.keywords = true.
Proof. vm_compute. reflexivity. Qed.

(** X18.  The field path that the Rust generator looks up for a keyword is
    the Rust name the registry gives it: for every id with a Rust name,
    [getRustFieldPath] returns that name, with the one exception of userid,
    for which it returns nothing. *)
Theorem rust_path_is_registry_name (keywordId : string) (name : string) :
  getTargetKeywordName keywordId rust = Some name ->
  Rust.getRustFieldPath keywordId = Some name
  \/ (JS.toLowerCase keywordId = "userid" /\ Rust.getRustFieldPath keywordId = None).
Proof.
  unfold getTargetKeywordName, Rust.getRustFieldPath.
  destruct (Keywords.getKeywordById keywordId) as [kw|] eqn:E; [|discriminate].
  destruct (driversGet rust (kw_drivers kw)) as [c|] eqn:Ec; [|discriminate].
  intros Hn. rewrite (getKeywordById_compact _ _ E).
  pose proof rust_names_are_paths as A.
  rewrite forallb_forall in A. specialize (A kw (getKeywordById_In _ _ E)).
  rewrite Ec, Hn in A. unfold Rust.getRustFieldPath in A.
  pose proof registry_ids_compact as B.
  rewrite forallb_forall in B. specialize (B kw (getKeywordById_In _ _ E)).
  apply String.eqb_eq in B.
  assert (L : JS.removeSpaces (JS.toLowerCase (kw_id kw)) = kw_id kw).
  { rewrite (getKeywordById_id _ _ E), toLowerCase_idem.
    rewrite <- (getKeywordById_id _ _ E). exact B. }
  rewrite L in A.
  destruct (JSMap.get (kw_id kw) Rust.RUST_FIELD_MAPPINGS) as [p|].
  - left. apply String.eqb_eq in A. congruence.
  - right. apply String.eqb_eq in A. rewrite <- (getKeywordById_id _ _ E). auto.
Qed.

Lemma rust_path_is_registry_name_witness :
  Rust.getRustFieldPath "Encrypt" = Some "encryption_options.mode"
  \/ (JS.toLowerCase "Encrypt" = "userid" /\ Rust.getRustFieldPath "Encrypt" = None).
Proof.
  apply (rust_path_is_registry_name "Encrypt" "encryption_options.mode").
  reflexivity.
Defined.

(** ** translator/parser.ts: the tokenizer *)

Lemma trimEnd_last (s : string) :
  JS.trimEnd s = EmptyString
  \/ exists d, JS.last_char (JS.trimEnd s) = Some d /\ JS.is_space d = false.
Proof.
  induction s as [|c s IH]; cbn; [left; reflexivity|].
  destruct (JS.trimEnd s) as [|e t] eqn:E.
  - destruct (JS.is_space c) eqn:Ec; [left; reflexivity|].
    right. exists c. split; [reflexivity | exact Ec].
  - right. destruct IH as [IH|[d [Hd Hs]]]; [discriminate|].
    exists d. split; [|exact Hs]. cbn [JS.last_char]. exact Hd.
Qed.

Lemma trimEnd_idem (s : string) : JS.trimEnd (JS.trimEnd s) = JS.trimEnd s.
Proof.
  destruct (trimEnd_last s) as [E|[d [Hd Hs]]].
  - rewrite E. reflexivity.
  - apply (trimEnd_fixed _ d); assumption.
Qed.

Lemma trimEnd_head (c : ascii) (s : string) :
  JS.is_space c = false -> exists t, JS.trimEnd (String c s) = String c t.
Proof.
  intros Hc. cbn. destruct (JS.trimEnd s) as [|e t].
  - rewrite Hc. eexists; reflexivity.
  - eexists; reflexivity.
Qed.

Lemma trimStart_head (s : string) :
  JS.trimStart s = EmptyString
  \/ exists c t, JS.trimStart s = String c t /\ JS.is_space c = false.
Proof.
  induction s as [|c s IH]; cbn; [left; reflexivity|].
  destruct (JS.is_space c) eqn:E; [exact IH|].
  right. exists c, s. auto.
Qed.

Lemma trim_idem (s : string) : JS.trim (JS.trim s) = JS.trim s.
Proof.
  unfold JS.trim.
  destruct (trimStart_head s) as [E|[c [t [E Hc]]]]; rewrite E; [reflexivity|].
  destruct (trimEnd_head c t Hc) as [t' E'].
  rewrite E'. cbn [JS.trimStart]. rewrite Hc. rewrite <- E'. apply trimEnd_idem.
Qed.

Lemma all_chars_trimStart (p : ascii -> bool) (s : string) :
  JS.all_chars p s = true -> JS.all_chars p (JS.trimStart s) = true.
Proof.
  induction s as [|c s IH]; cbn; [auto|].
  intros H. apply andb_prop in H. destruct H as [H1 H2].
  destruct (JS.is_space c); [auto|]. cbn. rewrite H1, H2. reflexivity.
Qed.

Lemma all_chars_trimEnd (p : ascii -> bool) (s : string) :
  JS.all_chars p s = true -> JS.all_chars p (JS.trimEnd s) = true.
Proof.
  induction s as [|c s IH]; cbn; [auto|].
  intros H. apply andb_prop in H. destruct H as [H1 H2].
  specialize (IH H2).
  destruct (JS.trimEnd s) as [|e t].
  - destruct (JS.is_space c); cbn; [reflexivity|]. rewrite H1. reflexivity.
  - cbn [JS.all_chars] in *. rewrite H1, IH. reflexivity.
Qed.

Lemma all_chars_trim (p : ascii -> bool) (s : string) :
  JS.all_chars p s = true -> JS.all_chars p (JS.trim s) = true.
Proof.
  intros H. apply all_chars_trimEnd, all_chars_trimStart. exact H.
Qed.

Lemma all_chars_snoc (p : ascii -> bool) (s : string) (c : ascii) :
  JS.all_chars p (s ++ Parser.str1 c) = JS.all_chars p s && p c.
Proof.
  rewrite all_chars_app. cbn. rewrite andb_true_r. reflexivity.
Qed.

(** How the scan goes on after a closing brace that another character
    follows. *)
Lemma scan_braced_close ck cv ks vs qc bd i (c2 : ascii) (rest : string) :
  Parser.scan Parser.BRACED ck cv ks vs qc bd i (String "}" (String c2 rest))
  = if Ascii.eqb c2 "}"
    then Parser.scan Parser.BRACED ck ((cv ++ "}") ++ "}") ks vs qc bd (S (S i)) rest
    else if (bd - 1 =? 0)%nat
         then Parser.scan Parser.VALUE ck (cv ++ "}") ks vs qc (bd - 1) (S i) (String c2 rest)
         else Parser.scan Parser.BRACED ck (cv ++ "}") ks vs qc (bd - 1) (S i) (String c2 rest).
Proof.
  destruct (Ascii.eqb c2 "}") eqn:E.
  - apply Ascii.eqb_eq in E. subst c2. reflexivity.
  - destruct c2 as [[] [] [] [] [] [] [] []]; try reflexivity. discriminate E.
Qed.

Lemma scan_braced_end ck cv ks vs qc bd i :
  Parser.scan Parser.BRACED ck cv ks vs qc bd i (String "}" EmptyString)
  = if (bd - 1 =? 0)%nat
    then Parser.scan Parser.VALUE ck (cv ++ "}") ks vs qc (bd - 1) (S i) EmptyString
    else Parser.scan Parser.BRACED ck (cv ++ "}") ks vs qc (bd - 1) (S i) EmptyString.
Proof. reflexivity. Qed.

(** An induction principle for the scan.  [Inv] is an invariant of the
    state and of [currentKey]; [P i rest r] is a property of the result [r]
    of scanning [rest] from the offset [i].  A property that holds of what
    the end of the input gives, that a pushed token preserves and that
    passes from the scan of the rest to the scan of the whole, holds of
    every scan that starts in the invariant. *)
Section ScanInduction.

Variable Inv : Parser.ParserState -> string -> Prop.
Variable P : nat -> string -> list Parser.Token * list ParseError -> Prop.

Hypothesis P_finish : forall st ck cv ks vs qc bd i,
  Inv st ck -> P i EmptyString (Parser.finish st ck cv ks vs qc bd i).
Hypothesis P_push : forall ck cv ks i rest r,
  Inv Parser.VALUE ck -> P (S i) rest r ->
  P i (String ";" rest) (Parser.push ck (ck, JS.trim cv, {| p_start := ks; p_end := i |}) r).
Hypothesis P_step : forall i c rest r, P (S i) rest r -> P i (String c rest) r.
Hypothesis Inv_value : forall ck, Inv Parser.KEY ck -> Inv Parser.VALUE (JS.trim ck).
Hypothesis Inv_key_empty : Inv Parser.KEY "".
Hypothesis Inv_key_char : forall ck c,
  Inv Parser.KEY ck -> Ascii.eqb c "=" = false -> Ascii.eqb c ";" = false ->
  Inv Parser.KEY (ck ++ Parser.str1 c).
Hypothesis Inv_inside : forall st st' ck,
  st <> Parser.KEY -> st' <> Parser.KEY -> Inv st ck -> Inv st' ck.

Lemma scan_induction_bounded :
  forall n rest, (String.length rest <= n)%nat ->
  forall st ck cv ks vs qc bd i,
    Inv st ck -> P i rest (Parser.scan st ck cv ks vs qc bd i rest).
Proof.
  induction n as [|n IH]; intros rest Hlen st ck cv ks vs qc bd i HI.
  - destruct rest; [apply P_finish; exact HI | simpl in Hlen; lia].
  - destruct rest as [|c rest']; [apply P_finish; exact HI|].
    simpl in Hlen.
    assert (Hr : (String.length rest' <= n)%nat) by lia.
    assert (Step : forall st' cv' ks' vs' qc' bd',
               st <> Parser.KEY -> st' <> Parser.KEY ->
               P i (String c rest') (Parser.scan st' ck cv' ks' vs' qc' bd' (S i) rest')).
    { intros. apply P_step. apply IH; [exact Hr|].
      apply (Inv_inside st); assumption. }
    assert (Step2 : forall st' cv' ks' vs' qc' bd' c2 rest'',
               rest' = String c2 rest'' ->
               st <> Parser.KEY -> st' <> Parser.KEY ->
               P i (String c rest') (Parser.scan st' ck cv' ks' vs' qc' bd' (S (S i)) rest'')).
    { intros st' cv' ks' vs' qc' bd' c2 rest'' E H1 H2. subst rest'.
      apply P_step, P_step. apply IH; [simpl in Hr; lia|].
      apply (Inv_inside st); assumption. }
    destruct st.
    + cbn [Parser.scan].
      destruct (Ascii.eqb c "=") eqn:E1.
      { apply P_step. apply IH; [exact Hr|]. apply Inv_value. exact HI. }
      destruct (Ascii.eqb c ";") eqn:E2.
      { apply P_step. apply IH; [exact Hr|]. apply Inv_key_empty. }
      apply P_step. apply IH; [exact Hr|]. apply Inv_key_char; assumption.
    + cbn [Parser.scan].
      destruct (Ascii.eqb c JS.DQ || Ascii.eqb c "'"); [apply Step; discriminate|].
      destruct (Ascii.eqb c "{"); [apply Step; discriminate|].
      destruct (Ascii.eqb c ";") eqn:E; [|apply Step; discriminate].
      apply Ascii.eqb_eq in E. subst c.
      apply P_push; [exact HI|]. apply IH; [exact Hr|]. apply Inv_key_empty.
    + cbn [Parser.scan].
      destruct (String.eqb (Parser.str1 c) qc); [|apply Step; discriminate].
      destruct rest' as [|c2 rest'']; [apply Step; discriminate|].
      destruct (String.eqb (Parser.str1 c2) qc); [|apply Step; discriminate].
      apply (Step2 _ _ _ _ _ _ c2 rest''); [reflexivity | discriminate | discriminate].
    + destruct (Ascii.eqb c "{") eqn:E1.
      { cbn [Parser.scan]. rewrite E1. apply Step; discriminate. }
      destruct (Ascii.eqb c "}") eqn:E2.
      * apply Ascii.eqb_eq in E2. subst c.
        destruct rest' as [|c2 rest''].
        -- rewrite scan_braced_end.
           destruct (bd - 1 =? 0)%nat; apply Step; discriminate.
        -- rewrite scan_braced_close.
           destruct (Ascii.eqb c2 "}").
           ++ apply (Step2 _ _ _ _ _ _ c2 rest''); [reflexivity | discriminate | discriminate].
           ++ destruct (bd - 1 =? 0)%nat; apply Step; discriminate.
      * cbn [Parser.scan]. rewrite E1, E2. apply Step; discriminate.
    + cbn [Parser.scan]. apply Step; discriminate.
Qed.

Lemma scan_induction (rest : string) :
  P 0 rest (Parser.parseKeyValuePairs rest).
Proof.
  unfold Parser.parseKeyValuePairs.
  apply (scan_induction_bounded (String.length rest)); [lia | apply Inv_key_empty].
Qed.

End ScanInduction.

(** A character that can stand in a key: any but [=] and [;]. *)
Definition keyChar (c : ascii) : bool := negb (Ascii.eqb c "=" || Ascii.eqb c ";").

(** A key as the tokenizer delivers it. *)
Definition cleanKey (k : string) : Prop :=
  JS.truthy k = true /\ JS.trim k = k /\ JS.all_chars keyChar k = true.

Definition keyInvariant (st : Parser.ParserState) (ck : string) : Prop :=
  match st with
  | Parser.KEY => JS.all_chars keyChar ck = true
  | _ => JS.trim ck = ck /\ JS.all_chars keyChar ck = true
  end.

Lemma push_fst_clean (P : Parser.Token -> Prop) (k : string) (t : Parser.Token)
  (r : list Parser.Token * list ParseError) :
  (JS.truthy k = true -> P t) -> Forall P (fst r) -> Forall P (fst (Parser.push k t r)).
Proof.
  intros Ht Hr. unfold Parser.push.
  destruct (JS.truthy k); cbn [fst]; [constructor; auto | assumption].
Qed.

(** X19.  Every key the tokenizer delivers is non-empty, has no white
    space around it, and contains neither [=] nor [;]: a pair without a key
    is never produced. *)
Theorem tokenizer_keys_clean (input : string) :
  Forall (fun t => cleanKey (Parser.tokKey t)) (fst (Parser.parseKeyValuePairs input)).
Proof.
  apply (scan_induction keyInvariant
           (fun _ _ r => Forall (fun t => cleanKey (Parser.tokKey t)) (fst r))).
  - intros st ck cv ks vs qc bd i HI.
    destruct st; unfold Parser.finish; cbn [keyInvariant] in HI; try constructor.
    + apply push_fst_clean; [|constructor].
      intros Ht. unfold cleanKey. cbn. tauto.
    + apply push_fst_clean; [|constructor].
      intros Ht. unfold cleanKey. cbn. tauto.
    + destruct (0 <? bd)%nat; [|constructor].
      apply push_fst_clean; [|constructor].
      intros Ht. unfold cleanKey. cbn. tauto.
  - intros ck cv ks i rest r HI Hr. cbn [keyInvariant] in HI.
    apply push_fst_clean; [|exact Hr].
    intros Ht. unfold cleanKey. cbn. tauto.
  - auto.
  - intros ck HI. cbn [keyInvariant] in *. split; [apply trim_idem|].
    apply all_chars_trim. exact HI.
  - reflexivity.
  - intros ck c HI E1 E2. cbn [keyInvariant] in *.
    rewrite all_chars_snoc, HI. unfold keyChar. rewrite E1, E2. reflexivity.
  - intros st st' ck H1 H2 HI. destruct st, st'; try congruence; exact HI.
Qed.

(** X20.  The tokenizer reports at most one error; it is an unclosed quote
    or an unclosed brace, found when the input ends, and its position ends
    where the input ends. *)
Theorem tokenizer_single_error (input : string) :
  (List.length (snd (Parser.parseKeyValuePairs input)) <= 1)%nat
  /\ Forall (fun e =>
               (pe_code e = UNMATCHED_QUOTE \/ pe_code e = UNMATCHED_BRACE)
               /\ exists pos, pe_position e = Some pos /\ p_end pos = String.length input)
            (snd (Parser.parseKeyValuePairs input)).
Proof.
  assert (G : (List.length (snd (Parser.parseKeyValuePairs input)) <= 1)%nat
              /\ Forall (fun e =>
                   (pe_code e = UNMATCHED_QUOTE \/ pe_code e = UNMATCHED_BRACE)
                   /\ exists pos, pe_position e = Some pos
                                  /\ p_end pos = 0 + String.length input)
                 (snd (Parser.parseKeyValuePairs input))).
  { apply (scan_induction (fun _ _ => True)
             (fun i rest r =>
                (List.length (snd r) <= 1)%nat
                /\ Forall (fun e =>
                     (pe_code e = UNMATCHED_QUOTE \/ pe_code e = UNMATCHED_BRACE)
                     /\ exists pos, pe_position e = Some pos
                                    /\ p_end pos = i + String.length rest)
                   (snd r))); auto.
    - intros st ck cv ks vs qc bd i _.
      destruct st; unfold Parser.finish; cbv zeta; try rewrite push_snd;
        cbn [snd List.length]; try (split; [lia | constructor; fail]).
      + split; [lia|]. constructor; [|constructor]. cbn. split; [auto|].
        eexists. split; [reflexivity|]. cbn. lia.
      + destruct (0 <? bd)%nat; [rewrite push_snd|]; cbn [snd List.length];
          (split; [lia|]); [|constructor].
        constructor; [|constructor]. cbn. split; [auto|].
        eexists. split; [reflexivity|]. cbn. lia.
    - intros ck cv ks i rest r _ [H1 H2]. rewrite push_snd. split; [exact H1|].
      eapply Forall_impl; [|exact H2].
      intros e [Hc [pos [Hp He]]]. split; [exact Hc|]. exists pos. split; [exact Hp|].
      cbn [String.length]. lia.
    - intros i c rest r [H1 H2]. split; [exact H1|].
      eapply Forall_impl; [|exact H2].
      intros e [Hc [pos [Hp He]]]. split; [exact Hc|]. exists pos. split; [exact Hp|].
      cbn [String.length]. lia. }
  exact G.
Qed.

(** ** translator/parser.ts: the parse as a whole *)

Lemma length_trimStart (s : string) : (String.length (JS.trimStart s) <= String.length s)%nat.
Proof.
  induction s as [|c s IH]; cbn; [lia|]. destruct (JS.is_space c); cbn; lia.
Qed.

Lemma length_trimEnd (s : string) : (String.length (JS.trimEnd s) <= String.length s)%nat.
Proof.
  induction s as [|c s IH]; cbn; [lia|].
  destruct (JS.trimEnd s) as [|e t].
  - destruct (JS.is_space c); cbn; lia.
  - cbn in *. lia.
Qed.

Lemma length_trim (s : string) : (String.length (JS.trim s) <= String.length s)%nat.
Proof.
  unfold JS.trim. pose proof (length_trimEnd (JS.trimStart s)).
  pose proof (length_trimStart s). lia.
Qed.

(** X21.  White space around the input does not count: within the size
    limit, the parse of an input and the parse of the trimmed input have the
    same driver, confidence, pairs, errors, warnings and JDBC URL. *)
Theorem parse_ignores_outer_whitespace (input : string) :
  (String.length input <= MAX_CONNECTION_STRING_SIZE)%nat ->
  pcs_driver (Parser.parse input) = pcs_driver (Parser.parse (JS.trim input))
  /\ pcs_confidence (Parser.parse input) = pcs_confidence (Parser.parse (JS.trim input))
  /\ pcs_pairs (Parser.parse input) = pcs_pairs (Parser.parse (JS.trim input))
  /\ pcs_errors (Parser.parse input) = pcs_errors (Parser.parse (JS.trim input))
  /\ pcs_warnings (Parser.parse input) = pcs_warnings (Parser.parse (JS.trim input))
  /\ pcs_jdbcUrl (Parser.parse input) = pcs_jdbcUrl (Parser.parse (JS.trim input)).
Proof.
  intros Hlen. unfold Parser.parse.
  assert (G1 : (MAX_CONNECTION_STRING_SIZE <? String.length input)%nat = false)
    by (apply Nat.ltb_ge; exact Hlen).
  assert (G2 : (MAX_CONNECTION_STRING_SIZE <? String.length (JS.trim input))%nat = false)
    by (apply Nat.ltb_ge; pose proof (length_trim input); lia).
  rewrite G1, G2, trim_idem.
  destruct (JS.truthy (JS.trim input)); cbn [negb]; [|repeat split].
  destruct (DriverType_eqb (Detector.driver (Detector.detect (JS.trim input))) jdbc
            && JS.startsWith "jdbc:sqlserver://" (JS.toLowerCase (JS.trim input))).
  - destruct (Parser.parseJdbcUrl (JS.trim input)) as [[u ps] es]. repeat split.
  - repeat split.
Qed.

Definition paddedInput : string := "  Server=db1;Database=app  ".

Lemma parse_ignores_outer_whitespace_witness :
  pcs_pairs (Parser.parse paddedInput) = pcs_pairs (Parser.parse (JS.trim paddedInput)).
Proof.
  apply (parse_ignores_outer_whitespace paddedInput).
  apply Nat.leb_le. vm_compute. reflexivity.
Defined.

(** X22.  Within the size limit and for ASCII input, EMPTY_INPUT is the
    error of the blank inputs and of no other: an input that is empty or
    made of white space gives this one error, no pair and no warning, and
    the errors of any other input are errors of syntax. *)
Theorem empty_input_iff_blank (input : string) :
  (String.length input <= MAX_CONNECTION_STRING_SIZE)%nat ->
  JS.isAscii input = true ->
  (JS.trim input = EmptyString ->
     map pe_code (pcs_errors (Parser.parse input)) = [EMPTY_INPUT]
     /\ pcs_pairs (Parser.parse input) = []
     /\ pcs_warnings (Parser.parse input) = [])
  /\ (JS.trim input <> EmptyString ->
        Forall (fun e => pe_code e = INVALID_SYNTAX \/ pe_code e = UNMATCHED_QUOTE
                         \/ pe_code e = UNMATCHED_BRACE)
               (pcs_errors (Parser.parse input))).
Proof.
  intros Hlen _. split.
  - intros E. unfold Parser.parse.
    assert (G1 : (MAX_CONNECTION_STRING_SIZE <? String.length input)%nat = false)
      by (apply Nat.ltb_ge; exact Hlen).
    rewrite G1, E. cbn. auto.
  - intros N.
    assert (A : accepted input).
    { split; [exact Hlen|]. destruct (JS.trim input); [congruence | reflexivity]. }
    destruct (parse_loop input A) as [_ [E _]]. rewrite E.
    apply Forall_app. split.
    + destruct (usesJdbcUrl input); [|constructor].
      eapply Forall_impl; [|apply parseJdbcUrl_errors]. intros e He. auto.
    + eapply Forall_impl; [|apply parseKeyValuePairs_errors].
      intros e [He|He]; auto.
Qed.

Lemma empty_input_iff_blank_witness :
  map pe_code (pcs_errors (Parser.parse "   ")) = [EMPTY_INPUT]
  /\ pcs_pairs (Parser.parse "   ") = []
  /\ pcs_warnings (Parser.parse "   ") = [].
Proof.
  apply (empty_input_iff_blank "   ").
  - apply Nat.leb_le. vm_compute. reflexivity.
  - reflexivity.
  - reflexivity.
Defined.

Lemma JSMap_has_set {V : Type} (k k' : string) (v : V) (m : JSMap.t V) :
  JSMap.has k (JSMap.set k' v m) = String.eqb k k' || JSMap.has k m.
Proof.
  unfold JSMap.has. rewrite JSMap_get_set. destruct (String.eqb k k'); reflexivity.
Qed.

Lemma processPair_has_mono d st t id :
  JSMap.has id (Parser.pairs st) = true ->
  JSMap.has id (Parser.pairs (Parser.processPair d st t)) = true.
Proof.
  intros H. unfold Parser.processPair. destruct t as [[k v] p].
  destruct (JS.mem (Parser.canonicalOf d k) (Parser.seenKeys st)); cbn [Parser.pairs];
    [exact H|].
  rewrite JSMap_has_set, H. apply orb_true_r.
Qed.

Lemma loop_has_mono d l : forall st id,
  JSMap.has id (Parser.pairs st) = true ->
  JSMap.has id (Parser.pairs (fold_left (Parser.processPair d) l st)) = true.
Proof.
  induction l as [|t l IH]; intros st id H; cbn [fold_left]; [exact H|].
  apply IH. apply processPair_has_mono. exact H.
Qed.

(** The keys seen so far are keys of the pair set. *)
Definition seenStored (st : Parser.LoopState) : Prop :=
  forall id, JS.mem id (Parser.seenKeys st) = true -> JSMap.has id (Parser.pairs st) = true.

Lemma processPair_stores d st t :
  seenStored st ->
  seenStored (Parser.processPair d st t)
  /\ JSMap.has (tokenId d t) (Parser.pairs (Parser.processPair d st t)) = true.
Proof.
  intros HI. unfold Parser.processPair, tokenId, Parser.tokKey.
  destruct t as [[k v] p]. cbn [fst].
  destruct (JS.mem (Parser.canonicalOf d k) (Parser.seenKeys st)) eqn:E;
    cbn [Parser.pairs Parser.seenKeys].
  - split; [exact HI | apply HI; exact E].
  - split.
    + intros id Hid. cbn [Parser.seenKeys Parser.pairs] in *.
      rewrite mem_app in Hid. rewrite JSMap_has_set.
      apply orb_true_iff in Hid. destruct Hid as [Hid|Hid].
      * rewrite (HI id Hid). apply orb_true_r.
      * cbn in Hid. rewrite orb_false_r in Hid. rewrite Hid. reflexivity.
    + rewrite JSMap_has_set, String.eqb_refl. reflexivity.
Qed.

Lemma loop_stores d l : forall st,
  seenStored st ->
  Forall (fun t => JSMap.has (tokenId d t)
                     (Parser.pairs (fold_left (Parser.processPair d) l st)) = true) l.
Proof.
  induction l as [|t l IH]; intros st HI; cbn [fold_left]; constructor.
  - apply loop_has_mono. apply processPair_stores. exact HI.
  - apply IH. apply processPair_stores. exact HI.
Qed.

(** A warning that names the raw key of the token and its position. *)
Definition warnsOf (t : Parser.Token) (w : ParseWarning) : Prop :=
  pw_keyword w = Some (Parser.tokKey t) /\ pw_position w = Some (Parser.tokPos t)
  /\ (pw_code w = UNKNOWN_KEYWORD \/ pw_code w = DUPLICATE_KEYWORD).

Lemma processPair_warns d st t :
  Synonyms.isKnownKeyword (Parser.tokKey t) (Some d) = false ->
  exists w, In w (Parser.warnings (Parser.processPair d st t)) /\ warnsOf t w.
Proof.
  intros H. unfold Parser.processPair. destruct t as [[k v] p].
  unfold Parser.tokKey in H. cbn [fst] in H.
  destruct (JS.mem (Parser.canonicalOf d k) (Parser.seenKeys st)); cbn [Parser.warnings].
  - exists (Parser.duplicateWarning k p). split.
    + apply in_or_app. right. left. reflexivity.
    + unfold warnsOf. cbn. auto.
  - rewrite H. exists (Parser.unknownWarning k p). split.
    + apply in_or_app. right. left. reflexivity.
    + unfold warnsOf. cbn. auto.
Qed.

Lemma loop_warnings_kept d l st w :
  In w (Parser.warnings st) ->
  In w (Parser.warnings (fold_left (Parser.processPair d) l st)).
Proof.
  intros H. destruct (loop_warnings_extend d l st) as [extra [E _]].
  rewrite E. apply in_or_app. left. exact H.
Qed.

Lemma loop_warns d l : forall st,
  Forall (fun t => Synonyms.isKnownKeyword (Parser.tokKey t) (Some d) = false ->
                   exists w, In w (Parser.warnings (fold_left (Parser.processPair d) l st))
                             /\ warnsOf t w) l.
Proof.
  induction l as [|t l IH]; intros st; cbn [fold_left]; constructor.
  - intros H. destruct (processPair_warns d st t H) as [w [Hin Hw]].
    exists w. split; [|exact Hw]. apply loop_warnings_kept. exact Hin.
  - apply IH.
Qed.

(** X23.  No key of the input is lost or accepted in silence: for an input
    that passes the size guard and the empty guard, the canonical id of every
    token is a key of the pair set, and every token whose key is not a known
    keyword is named, with its position, by a warning of the parse. *)
Theorem parse_keeps_every_key (input : string) :
  accepted input ->
  Forall (fun t =>
            JSMap.has (tokenId (pcs_driver (Parser.parse input)) t)
                      (pcs_pairs (Parser.parse input)) = true
            /\ (Synonyms.isKnownKeyword (Parser.tokKey t)
                  (Some (pcs_driver (Parser.parse input))) = false ->
                exists w, In w (pcs_warnings (Parser.parse input)) /\ warnsOf t w))
         (tokensOf input).
Proof.
  intros A. destruct (parse_loop input A) as [Ed [_ [Ep Ew]]].
  rewrite Ed, Ep, Ew.
  apply Forall_forall. intros t Ht. split.
  - pose proof (loop_stores (Detector.driver (Detector.detect (JS.trim input)))
                  (tokensOf input)
                  {| Parser.seenKeys := []; Parser.pairs := urlPairs input; Parser.warnings := [] |}) as L.
    rewrite Forall_forall in L. apply L; [|exact Ht].
    intros id Hid. cbn in Hid. discriminate.
  - pose proof (loop_warns (Detector.driver (Detector.detect (JS.trim input)))
                  (tokensOf input)
                  {| Parser.seenKeys := []; Parser.pairs := urlPairs input; Parser.warnings := [] |}) as L.
    rewrite Forall_forall in L. apply L. exact Ht.
Qed.

Definition unknownKeyInput : string := "Server=db1;Colour=red;colour=blue".

Lemma parse_keeps_every_key_witness :
  Forall (fun t =>
            JSMap.has (tokenId (pcs_driver (Parser.parse unknownKeyInput)) t)
                      (pcs_pairs (Parser.parse unknownKeyInput)) = true
            /\ (Synonyms.isKnownKeyword (Parser.tokKey t)
                  (Some (pcs_driver (Parser.parse unknownKeyInput))) = false ->
                exists w, In w (pcs_warnings (Parser.parse unknownKeyInput)) /\ warnsOf t w))
         (tokensOf unknownKeyInput).
Proof.
  apply (parse_keeps_every_key unknownKeyInput).
  split; [apply Nat.leb_le; vm_compute; reflexivity | reflexivity].
Defined.

(** ** translator/generator.ts and the parser: the JDBC URL *)

Lemma string_app_assoc (a b c : string) : (a ++ b) ++ c = a ++ (b ++ c).
Proof.
  induction a as [|x a IH]; cbn; [reflexivity|]. rewrite IH. reflexivity.
Qed.

Lemma string_length_app (a b : string) :
  String.length (a ++ b) = (String.length a + String.length b)%nat.
Proof.
  induction a as [|x a IH]; cbn; [reflexivity|]. rewrite IH. reflexivity.
Qed.

Lemma string_app_empty (a : string) : a ++ "" = a.
Proof.
  induction a as [|x a IH]; cbn; [reflexivity|]. rewrite IH. reflexivity.
Qed.

Ltac digit_arith :=
  unfold JS.digit_val;
  match goal with
  | |- context [N_of_ascii ?c] =>
      let v := eval vm_compute in (N_of_ascii c) in change (N_of_ascii c) with v
  end;
  lia.

Lemma parseDigits_acc (d : Decimal.uint) : forall acc : positive,
  fold_left (fun acc c => (acc * 10 + JS.digit_val c)%N)
            (list_ascii_of_string (NilEmpty.string_of_uint d)) (N.pos acc)
  = N.pos (Pos.of_uint_acc d acc).
Proof.
  induction d; intros acc; cbn [NilEmpty.string_of_uint list_ascii_of_string fold_left
                               Pos.of_uint_acc];
    try reflexivity;
    match goal with
    | |- fold_left _ _ ?x = N.pos (Pos.of_uint_acc _ ?y) =>
        replace x with (N.pos y) by digit_arith
    end; apply IHd.
Qed.

Lemma parseDigits_of_uint (d : Decimal.uint) :
  JS.parseDigits (NilEmpty.string_of_uint d) = Pos.of_uint d.
Proof.
  unfold JS.parseDigits.
  induction d; cbn [NilEmpty.string_of_uint list_ascii_of_string fold_left Pos.of_uint];
    try reflexivity; try exact IHd;
    match goal with
    | |- fold_left _ _ ?x = N.pos (Pos.of_uint_acc _ ?y) =>
        replace x with (N.pos y) by digit_arith
    end; apply parseDigits_acc.
Qed.

Lemma parseDigits_ofN (n : N) : JS.parseDigits (JS.ofN n) = n.
Proof.
  unfold JS.ofN. rewrite parseDigits_of_uint. apply DecimalN.Unsigned.of_to.
Qed.

Lemma string_of_uint_digits (d : Decimal.uint) :
  JS.all_chars JS.is_digit (NilEmpty.string_of_uint d) = true.
Proof.
  induction d; cbn [NilEmpty.string_of_uint JS.all_chars]; try reflexivity;
    rewrite IHd; reflexivity.
Qed.

Lemma ofN_digits (n : N) : JS.all_chars JS.is_digit (JS.ofN n) = true.
Proof. apply string_of_uint_digits. Qed.

Lemma ofN_truthy (n : N) : JS.truthy (JS.ofN n) = true.
Proof.
  destruct (JS.ofN n) eqn:E; [|reflexivity].
  pose proof (parseDigits_ofN n) as H. rewrite E in H. cbn in H. subst n.
  discriminate E.
Qed.

(** A character of the host part of a JDBC URL: any but [:] and [;]. *)
Definition urlHostChar (c : ascii) : bool := negb (Ascii.eqb c ":" || Ascii.eqb c ";").

Lemma parseJdbcUrl_written (h : string) (p : N) (tail : string) :
  JS.truthy h = true -> JS.all_chars urlHostChar h = true ->
  JS.all_chars notLineTerminator tail = true ->
  Parser.parseJdbcUrl ("jdbc:sqlserver://" ++ h ++ ":" ++ JS.ofN p ++ ";" ++ tail)
  = ({| host := h; port := p; instanceName := None; properties := [] |}, tail, []).
Proof.
  intros Ht Hh Hl. unfold Parser.parseJdbcUrl, Parser.matchJdbcUrl.
  change (Parser.stripPrefixCI "jdbc:sqlserver://"
            ("jdbc:sqlserver://" ++ h ++ ":" ++ JS.ofN p ++ ";" ++ tail))
    with (Some (h ++ ":" ++ JS.ofN p ++ ";" ++ tail)).
  cbv beta iota.
  rewrite (span_stops _ h (":" ++ JS.ofN p ++ ";" ++ tail)) by (exact Hh || reflexivity).
  rewrite Ht. cbn [negb append].
  rewrite (span_stops _ (JS.ofN p) (";" ++ tail)) by (apply ofN_digits || reflexivity).
  rewrite ofN_truthy. cbn [append].
  unfold notLineTerminator in Hl. rewrite Hl. rewrite parseDigits_ofN. reflexivity.
Qed.

Lemma generateJdbc_shape (mapped : MappingResult) (parsed : option ParsedConnectionString)
  (options : TranslationOptions) :
  exists h p inst,
    Generator.serverParts (serverValueOf parsed) = (h, p, inst)
    /\ Generator.generateJdbc mapped parsed options
       = "jdbc:sqlserver://" ++ h ++ ":" ++ JS.ofN p ++ ";"
         ++ JS.join (Generator.separatorOf options) (Generator.jdbcProps mapped inst)
         ++ (if JS.truthy (JS.join (Generator.separatorOf options)
                                   (Generator.jdbcProps mapped inst))
             then ";" else "").
Proof.
  unfold Generator.generateJdbc.
  change (match parsed with
          | Some p => option_map normalized (JSMap.get "server" (pcs_pairs p))
          | None => None
          end) with (serverValueOf parsed).
  destruct (Generator.serverParts (serverValueOf parsed)) as [[h p] inst].
  exists h, p, inst. split; reflexivity.
Qed.

Lemma matchesPrefix_nullable (r : Regex.re) (s : string) :
  Regex.nullable r = true -> Regex.matchesPrefix r s = true.
Proof. intros H. destruct s; cbn; rewrite H; reflexivity. Qed.

Lemma jdbc_prefix_matches (x : string) :
  find (fun p => Regex.test (Detector.dp_pattern p) ("jdbc:sqlserver://" ++ x))
       Detector.DETECTION_PATTERNS
  = Some (Detector.DP (Regex.atStart (Regex.ilit "jdbc:sqlserver://")) jdbc high
                      "JDBC URL prefix").
Proof.
  assert (T : Regex.test (Regex.atStart (Regex.ilit "jdbc:sqlserver://"))
                         ("jdbc:sqlserver://" ++ x) = true).
  { unfold Regex.test. cbn [Regex.anchored Regex.atStart Regex.body].
    cbn. apply matchesPrefix_nullable. reflexivity. }
  unfold Detector.DETECTION_PATTERNS.
  cbn [find Detector.DP Detector.dp_pattern]. rewrite T. reflexivity.
Qed.

Lemma detect_jdbc_prefix (tail : string) :
  Detector.detect ("jdbc:sqlserver://" ++ tail)
  = {| Detector.driver := jdbc; Detector.confidence := high;
       Detector.matchedPattern := Some "JDBC URL prefix" |}.
Proof.
  unfold Detector.detect, JS.trim.
  change (JS.trimStart ("jdbc:sqlserver://" ++ tail)) with ("jdbc:sqlserver://" ++ tail).
  rewrite (trimEnd_app_keep "jdbc:sqlserver://" tail "/") by reflexivity.
  rewrite (jdbc_prefix_matches (JS.trimEnd tail)). reflexivity.
Qed.

(** X24.  What the JDBC generator writes is detected as JDBC: [detect]
    answers jdbc with high confidence, by the URL prefix, on every output of
    [generateJdbc], and [isDriverFormat] accepts it as JDBC. *)
Theorem generated_jdbc_is_detected (mapped : MappingResult)
  (parsed : option ParsedConnectionString) (options : TranslationOptions) :
  Detector.detect (Generator.generateJdbc mapped parsed options)
  = {| Detector.driver := jdbc; Detector.confidence := high;
       Detector.matchedPattern := Some "JDBC URL prefix" |}
  /\ Detector.isDriverFormat (Generator.generateJdbc mapped parsed options) jdbc = true.
Proof.
  destruct (generateJdbc_shape mapped parsed options) as [h [p [inst [_ E]]]].
  rewrite E. unfold Detector.isDriverFormat. rewrite detect_jdbc_prefix.
  split; reflexivity.
Qed.

Lemma parseJdbcUrl_generated (h : string) (p : N) (props : string) :
  JS.truthy h = true -> JS.all_chars urlHostChar h = true ->
  JS.all_chars notLineTerminator props = true ->
  Parser.parseJdbcUrl ("jdbc:sqlserver://" ++ h ++ ":" ++ JS.ofN p ++ ";" ++ props
                       ++ (if JS.truthy props then ";" else ""))
  = ({| host := h; port := p; instanceName := None; properties := [] |},
     props ++ (if JS.truthy props then ";" else ""), []).
Proof.
  intros Ht Hh Hl. apply parseJdbcUrl_written; [exact Ht | exact Hh |].
  rewrite all_chars_app, Hl. destruct (JS.truthy props); reflexivity.
Qed.

(** X25.  The URL that the JDBC generator writes is read back by
    [parseJdbcUrl]: when the source keywords and the properties are ASCII,
    the port is a safe integer (which [String] prints in digits and
    [parseInt] reads back), the host is not empty and has neither [:] nor
    [;], and the properties have no line break, the URL parses without
    error to the host and the port that were written, and what follows
    them is the property string. *)
Theorem generated_jdbc_url_reads_back (mapped : MappingResult)
  (parsed : option ParsedConnectionString) (options : TranslationOptions)
  (h : string) (p : N) (inst : option string) :
  Forall (fun kw => JS.isAscii (sourceKeyword kw) = true) (translatedKeywords mapped) ->
  Generator.serverParts (serverValueOf parsed) = (h, p, inst) ->
  JS.isSafeInteger p = true ->
  JS.truthy h = true -> JS.all_chars urlHostChar h = true ->
  JS.isAscii
    (JS.join (Generator.separatorOf options) (Generator.jdbcProps mapped inst)) = true ->
  JS.all_chars notLineTerminator
    (JS.join (Generator.separatorOf options) (Generator.jdbcProps mapped inst)) = true ->
  Parser.parseJdbcUrl (Generator.generateJdbc mapped parsed options)
  = ({| host := h; port := p; instanceName := None; properties := [] |},
     JS.join (Generator.separatorOf options) (Generator.jdbcProps mapped inst)
     ++ (if JS.truthy (JS.join (Generator.separatorOf options)
                               (Generator.jdbcProps mapped inst))
         then ";" else ""),
     []).
Proof.
  intros _ Hs _ Ht Hh _ Hl.
  destruct (generateJdbc_shape mapped parsed options) as [h' [p' [inst' [Hs' E]]]].
  rewrite Hs in Hs'. injection Hs' as E1 E2 E3. subst h' p' inst'. rewrite E.
  apply parseJdbcUrl_generated; assumption.
Qed.

Definition jdbcExampleParsed : ParsedConnectionString :=
  Parser.parse "Server=db1,1444;Database=app".

Definition jdbcExampleMapped : MappingResult :=
  mapKeywords (fun _ _ => 0%Z) jdbcExampleParsed jdbc noOptions.

Lemma generated_jdbc_url_reads_back_witness :
  Parser.parseJdbcUrl
    (Generator.generateJdbc jdbcExampleMapped (Some jdbcExampleParsed) noOptions)
  = ({| host := "db1"; port := 1444; instanceName := None; properties := [] |},
     "databaseName=app;", []).
Proof.
  apply (generated_jdbc_url_reads_back jdbcExampleMapped (Some jdbcExampleParsed) noOptions
           "db1" 1444%N None); try (vm_compute; reflexivity).
  vm_compute. repeat constructor.
Defined.

Lemma last_char_app_r (a b : string) :
  JS.truthy b = true -> JS.last_char (a ++ b) = JS.last_char b.
Proof.
  intros Hb. induction a as [|c a IH]; [reflexivity|].
  cbn [append JS.last_char]. rewrite IH.
  destruct (a ++ b) eqn:E; [|reflexivity].
  destruct a; [cbn in E; subst b; discriminate | discriminate].
Qed.

Lemma startsWith_app (a b : string) : JS.startsWith a (a ++ b) = true.
Proof.
  unfold JS.startsWith. induction a as [|c a IH]; cbn; [destruct b; reflexivity|].
  destruct (ascii_dec c c); [exact IH | congruence].
Qed.

Lemma trim_fixed (s : string) (c d : ascii) :
  JS.startsWithChar c s = true -> JS.is_space c = false ->
  JS.last_char s = Some d -> JS.is_space d = false ->
  JS.trim s = s.
Proof.
  intros Hs Hc Hl Hd. destruct s as [|x t]; [discriminate|].
  cbn in Hs. apply Ascii.eqb_eq in Hs. subst x.
  unfold JS.trim. cbn [JS.trimStart]. rewrite Hc.
  apply (trimEnd_fixed _ d); assumption.
Qed.

Lemma written_url_trimmed (h : string) (p : N) (props : string) :
  JS.trim ("jdbc:sqlserver://" ++ h ++ ":" ++ JS.ofN p ++ ";" ++ props
           ++ (if JS.truthy props then ";" else ""))
  = "jdbc:sqlserver://" ++ h ++ ":" ++ JS.ofN p ++ ";" ++ props
    ++ (if JS.truthy props then ";" else "").
Proof.
  apply (trim_fixed _ "j" ";"); try reflexivity.
  rewrite (last_char_app_r "jdbc:sqlserver://") by
    (destruct h; [reflexivity | reflexivity]).
  rewrite (last_char_app_r h) by reflexivity.
  rewrite (last_char_app_r ":") by (destruct (JS.ofN p); reflexivity).
  rewrite (last_char_app_r (JS.ofN p)) by reflexivity.
  destruct props as [|c props]; [reflexivity|].
  rewrite (last_char_app_r ";") by reflexivity.
  cbn [JS.truthy]. apply last_char_snoc.
Qed.

(** X26.  What the JDBC generator writes parses back as a JDBC URL: under
    the conditions of the previous property (ASCII source keywords and
    properties, a port that is a safe integer, a host without [:] and [;],
    no line break) and within the size limit, [parse] detects the output
    as jdbc and records the host and the port that were written as its
    JDBC URL. *)
Theorem generated_jdbc_parses_back (mapped : MappingResult)
  (parsed : option ParsedConnectionString) (options : TranslationOptions)
  (h : string) (p : N) (inst : option string) :
  Forall (fun kw => JS.isAscii (sourceKeyword kw) = true) (translatedKeywords mapped) ->
  Generator.serverParts (serverValueOf parsed) = (h, p, inst) ->
  JS.isSafeInteger p = true ->
  JS.truthy h = true -> JS.all_chars urlHostChar h = true ->
  JS.isAscii
    (JS.join (Generator.separatorOf options) (Generator.jdbcProps mapped inst)) = true ->
  JS.all_chars notLineTerminator
    (JS.join (Generator.separatorOf options) (Generator.jdbcProps mapped inst)) = true ->
  (String.length (Generator.generateJdbc mapped parsed options)
   <= MAX_CONNECTION_STRING_SIZE)%nat ->
  pcs_driver (Parser.parse (Generator.generateJdbc mapped parsed options)) = jdbc
  /\ pcs_confidence (Parser.parse (Generator.generateJdbc mapped parsed options)) = high
  /\ pcs_jdbcUrl (Parser.parse (Generator.generateJdbc mapped parsed options))
     = Some {| host := h; port := p; instanceName := None; properties := [] |}.
Proof.
  intros _ Hs _ Ht Hh _ Hl Hlen.
  destruct (generateJdbc_shape mapped parsed options) as [h' [p' [inst' [Hs' E]]]].
  rewrite Hs in Hs'. injection Hs' as E1 E2 E3. subst h' p' inst'.
  assert (R : Parser.parseJdbcUrl (Generator.generateJdbc mapped parsed options)
              = ({| host := h; port := p; instanceName := None; properties := [] |},
                 JS.join (Generator.separatorOf options) (Generator.jdbcProps mapped inst)
                 ++ (if JS.truthy (JS.join (Generator.separatorOf options)
                                           (Generator.jdbcProps mapped inst))
                     then ";" else ""),
                 []))
    by (rewrite E; apply parseJdbcUrl_generated; assumption).
  unfold Parser.parse.
  assert (G : (MAX_CONNECTION_STRING_SIZE
               <? String.length (Generator.generateJdbc mapped parsed options))%nat = false)
    by (apply Nat.ltb_ge; exact Hlen).
  rewrite G.
  assert (T : JS.trim (Generator.generateJdbc mapped parsed options)
              = Generator.generateJdbc mapped parsed options)
    by (rewrite E; apply written_url_trimmed).
  rewrite T, R.
  assert (D : Detector.detect (Generator.generateJdbc mapped parsed options)
              = {| Detector.driver := jdbc; Detector.confidence := high;
                   Detector.matchedPattern := Some "JDBC URL prefix" |})
    by (rewrite E; apply detect_jdbc_prefix).
  rewrite D. cbn [Detector.driver Detector.confidence DriverType_eqb andb].
  assert (S1 : JS.truthy (Generator.generateJdbc mapped parsed options) = true)
    by (rewrite E; reflexivity).
  assert (S2 : JS.startsWith "jdbc:sqlserver://"
                 (JS.toLowerCase (Generator.generateJdbc mapped parsed options)) = true)
    by (rewrite E, toLowerCase_app; apply startsWith_app).
  rewrite S1, S2. cbn [negb]. auto.
Qed.

Lemma generated_jdbc_parses_back_witness :
  pcs_driver (Parser.parse
                (Generator.generateJdbc jdbcExampleMapped (Some jdbcExampleParsed) noOptions))
  = jdbc.
Proof.
  apply (generated_jdbc_parses_back jdbcExampleMapped (Some jdbcExampleParsed) noOptions
           "db1" 1444%N None); try (vm_compute; reflexivity).
  - vm_compute. repeat constructor.
  - apply Nat.leb_le. vm_compute. reflexivity.
Defined.

(** ** translator/generator.ts and the tokenizer: key=value output *)

(** A character that a value can hold without quoting. *)
Definition plainChar (c : ascii) : bool :=
  negb (Ascii.eqb c JS.DQ || Ascii.eqb c "'" || Ascii.eqb c "{" || Ascii.eqb c ";").

Lemma includesChar_false_all (c : ascii) (s : string) :
  JS.includesChar c s = false -> JS.all_chars (fun x => negb (Ascii.eqb x c)) s = true.
Proof.
  induction s as [|d s IH]; cbn; [reflexivity|].
  intros H. apply orb_false_iff in H. destruct H as [H1 H2].
  rewrite (Ascii.eqb_sym d c), H1, IH by exact H2. reflexivity.
Qed.

Lemma plain_value_chars (v : string) :
  Escaping.needsEscaping v = false -> JS.all_chars plainChar v = true.
Proof.
  intros H. apply needsEscaping_false in H.
  destruct H as [H1 [H2 [H3 [_ [H5 _]]]]].
  apply includesChar_false_all in H1, H2, H3, H5.
  induction v as [|c v IH]; [reflexivity|].
  cbn [JS.all_chars] in *.
  apply andb_prop in H1, H2, H3, H5.
  destruct H1 as [A1 B1], H2 as [A2 B2], H3 as [A3 B3], H5 as [A5 B5].
  rewrite IH by assumption.
  apply negb_true_iff in A1, A2, A3, A5.
  unfold plainChar. rewrite A1, A2, A3, A5. reflexivity.
Qed.

Lemma scan_value_end k cv ks vs qc bd i rest :
  Parser.scan Parser.VALUE k cv ks vs qc bd i (String ";" rest)
  = Parser.push k (k, JS.trim cv, {| p_start := ks; p_end := i |})
      (Parser.scan Parser.KEY "" "" (i + 1) vs qc bd (S i) rest).
Proof. reflexivity. Qed.

Lemma scan_plain_value k ks vs qc bd rest : forall v cv i,
  JS.all_chars plainChar v = true ->
  exists pos ks' i',
    Parser.scan Parser.VALUE k cv ks vs qc bd i (v ++ String ";" rest)
    = Parser.push k (k, JS.trim (cv ++ v), pos)
        (Parser.scan Parser.KEY "" "" ks' vs qc bd i' rest).
Proof.
  induction v as [|c v IH]; intros cv i H.
  - cbn [append]. rewrite scan_value_end, string_app_empty. eauto.
  - cbn [JS.all_chars] in H. apply andb_prop in H. destruct H as [Hc Hv].
    unfold plainChar in Hc. apply negb_true_iff in Hc.
    apply orb_false_iff in Hc. destruct Hc as [Hc C4].
    apply orb_false_iff in Hc. destruct Hc as [Hc C3].
    cbn [append Parser.scan]. rewrite Hc, C3, C4.
    destruct (IH (cv ++ Parser.str1 c) (S i) Hv) as [pos [ks' [i' E]]].
    rewrite E. unfold Parser.str1. rewrite string_app_assoc. cbn [append]. eauto.
Qed.

Lemma str1_is_quote (c : ascii) :
  String.eqb (Parser.str1 c) JS.dq = Ascii.eqb c JS.DQ.
Proof.
  unfold Parser.str1, JS.dq. cbn [String.eqb].
  destruct (Ascii.eqb c JS.DQ); reflexivity.
Qed.

Lemma scan_quoted_body k ks vs bd rest : forall v cv i,
  exists i',
    Parser.scan Parser.QUOTED k cv ks vs JS.dq bd i
      (JS.replaceChar JS.DQ (JS.dq ++ JS.dq) v ++ String JS.DQ (String ";" rest))
    = Parser.scan Parser.VALUE k (cv ++ JS.replaceChar JS.DQ (JS.dq ++ JS.dq) v ++ JS.dq)
        ks vs JS.dq bd i' (String ";" rest).
Proof.
  induction v as [|c v IH]; intros cv i.
  - cbn [JS.replaceChar append Parser.scan].
    rewrite !str1_is_quote, Ascii.eqb_refl.
    change (Ascii.eqb ";" JS.DQ) with false. cbv iota. eauto.
  - cbn [JS.replaceChar]. destruct (Ascii.eqb JS.DQ c) eqn:E.
    + apply Ascii.eqb_eq in E. subst c.
      change ((JS.dq ++ JS.dq) ++ JS.replaceChar JS.DQ (JS.dq ++ JS.dq) v)
        with (String JS.DQ (String JS.DQ (JS.replaceChar JS.DQ (JS.dq ++ JS.dq) v))).
      cbn [append Parser.scan]. rewrite !str1_is_quote, Ascii.eqb_refl. cbv iota.
      destruct (IH ((cv ++ Parser.str1 JS.DQ) ++ Parser.str1 JS.DQ) (S (S i))) as [i' E].
      rewrite E. exists i'. f_equal.
      unfold Parser.str1. rewrite !string_app_assoc. reflexivity.
    + cbn [append Parser.scan]. rewrite str1_is_quote, (Ascii.eqb_sym c JS.DQ), E.
      cbv iota.
      destruct (IH (cv ++ Parser.str1 c) (S i)) as [i' E'].
      rewrite E'. exists i'. f_equal.
      unfold Parser.str1. rewrite !string_app_assoc. reflexivity.
Qed.

Lemma scan_key (rest : string) (vs : nat) (qc : string) (bd : nat) : forall s ck ks i,
  JS.all_chars keyChar s = true ->
  exists ks' vs' i',
    Parser.scan Parser.KEY ck "" ks vs qc bd i (s ++ String "=" rest)
    = Parser.scan Parser.VALUE (JS.trim (ck ++ s)) "" ks' vs' qc bd i' rest.
Proof.
  induction s as [|c s IH]; intros ck ks i H.
  - cbn [append Parser.scan]. cbn [Ascii.eqb Bool.eqb andb].
    rewrite string_app_empty. eauto.
  - cbn [JS.all_chars] in H. apply andb_prop in H. destruct H as [Hc Hs].
    unfold keyChar in Hc. apply negb_true_iff in Hc.
    apply orb_false_iff in Hc. destruct Hc as [C1 C2].
    cbn [append Parser.scan]. rewrite C1, C2.
    destruct (IH (ck ++ Parser.str1 c) (if JS.truthy ck then ks else i) (S i) Hs)
      as [ks' [vs' [i' E]]].
    rewrite E. unfold Parser.str1. rewrite string_app_assoc. cbn [append]. eauto.
Qed.

Lemma space_is_keyChar (c : ascii) : JS.is_space c = true -> keyChar c = true.
Proof.
  destruct c as [[] [] [] [] [] [] [] []]; intros H; try reflexivity; discriminate H.
Qed.

Lemma trimStart_spaces (ws s : string) :
  JS.all_chars JS.is_space ws = true -> JS.trimStart (ws ++ s) = JS.trimStart s.
Proof.
  induction ws as [|c ws IH]; cbn; [reflexivity|].
  intros H. apply andb_prop in H. destruct H as [H1 H2]. rewrite H1. auto.
Qed.

(** The text of one pair as the generator of a quoting driver writes it. *)
Definition written (driver : DriverType) (kw : TranslatedKeyword) : string :=
  targetKeyword kw ++ "=" ++ Generator.formatValue (targetValue kw) driver.

(** The sqlclient, oledb and python formats: key=value pairs without a
    prefix, values in double quotes. *)
Definition quotingDriver (driver : DriverType) : Prop :=
  driver = sqlclient \/ driver = oledb \/ driver = python.

(** The shape of a translated keyword that is read back as written: its
    name is a key as the tokenizer delivers keys, and its value, if it
    needs no quoting, has no white space around it. *)
Definition readsBack (kw : TranslatedKeyword) : Prop :=
  cleanKey (targetKeyword kw)
  /\ (Escaping.needsEscaping (targetValue kw) = false ->
      JS.trim (targetValue kw) = targetValue kw).

(** A translated keyword that can be written and read back: its name and
    its value are ASCII, and it has the shape above. *)
Definition writable (kw : TranslatedKeyword) : Prop :=
  JS.isAscii (targetKeyword kw) = true
  /\ JS.isAscii (targetValue kw) = true
  /\ readsBack kw.

Lemma scan_written driver kw ws rest ks vs qc bd i :
  quotingDriver driver -> readsBack kw -> JS.all_chars JS.is_space ws = true ->
  exists pos ks' vs' qc' i',
    Parser.scan Parser.KEY "" "" ks vs qc bd i (ws ++ written driver kw ++ String ";" rest)
    = Parser.push (targetKeyword kw)
        (targetKeyword kw, Generator.formatValue (targetValue kw) driver, pos)
        (Parser.scan Parser.KEY "" "" ks' vs' qc' bd i' rest).
Proof.
  intros Hd [[Kt [Ktrim Kc]] Hv] Hws. unfold written.
  assert (S1 : ws ++ (targetKeyword kw ++ "=" ++ Generator.formatValue (targetValue kw) driver)
                     ++ String ";" rest
               = (ws ++ targetKeyword kw)
                 ++ String "=" (Generator.formatValue (targetValue kw) driver
                                ++ String ";" rest)).
  { rewrite !string_app_assoc. reflexivity. }
  rewrite S1.
  assert (Hk : JS.all_chars keyChar (ws ++ targetKeyword kw) = true).
  { rewrite all_chars_app, Kc, andb_true_r.
    eapply all_chars_impl; [|exact Hws]. apply space_is_keyChar. }
  destruct (scan_key
              (Generator.formatValue (targetValue kw) driver ++ String ";" rest)
              vs qc bd (ws ++ targetKeyword kw) "" ks i Hk) as [ks1 [vs1 [i1 E1]]].
  rewrite E1. cbn [append].
  assert (T : JS.trim (ws ++ targetKeyword kw) = targetKeyword kw).
  { unfold JS.trim. rewrite trimStart_spaces by exact Hws. exact Ktrim. }
  rewrite T. unfold Generator.formatValue.
  destruct (Escaping.needsEscaping (targetValue kw)) eqn:En.
  - unfold Escaping.escapeValue. rewrite En. cbn [negb].
    assert (Q : (match driver with
                 | sqlclient | oledb | php | python =>
                     JS.dq ++ JS.replaceChar JS.DQ (JS.dq ++ JS.dq) (targetValue kw) ++ JS.dq
                 | odbc | jdbc => "{" ++ JS.replaceChar "}" "}}" (targetValue kw) ++ "}"
                 | rust =>
                     JS.dq ++ JS.replaceChar JS.DQ ("\" ++ JS.dq)
                                (JS.replaceChar "\" "\\" (targetValue kw)) ++ JS.dq
                 end)
                = String JS.DQ (JS.replaceChar JS.DQ (JS.dq ++ JS.dq) (targetValue kw) ++ JS.dq))
      by (destruct Hd as [->|[->| ->]]; reflexivity).
    rewrite Q. cbn [append]. rewrite string_app_assoc. cbn [append].
    cbn [Parser.scan]. rewrite Ascii.eqb_refl. cbn [orb].
    destruct (scan_quoted_body (targetKeyword kw) ks1 vs1 bd rest (targetValue kw)
                ("" ++ Parser.str1 JS.DQ) (S i1)) as [i2 E2].
    change (Parser.str1 JS.DQ) with JS.dq in *.
    change (JS.dq ++ String ";" rest) with (String JS.DQ (String ";" rest)).
    rewrite E2, scan_value_end.
    change ("" ++ JS.dq) with JS.dq.
    change (JS.dq ++ JS.replaceChar JS.DQ (JS.dq ++ JS.dq) (targetValue kw) ++ JS.dq)
      with (String JS.DQ (JS.replaceChar JS.DQ (JS.dq ++ JS.dq) (targetValue kw)
                          ++ String JS.DQ EmptyString)).
    rewrite trim_wrapped by reflexivity. eauto 10.
  - destruct (scan_plain_value (targetKeyword kw) ks1 vs1 qc bd rest (targetValue kw) "" i1
                (plain_value_chars _ En)) as [pos [ks2 [i2 E2]]].
    rewrite E2. cbn [append]. rewrite (Hv eq_refl). eauto 10.
Qed.

(** The pairs one after the other, each closed by [;], the pairs after the
    first one behind the blank of the readable format, if any. *)
Fixpoint writtenAll (driver : DriverType) (sp : string) (l : list TranslatedKeyword) : string :=
  match l with
  | [] => ""
  | kw :: l' => sp ++ written driver kw ++ String ";" (writtenAll driver sp l')
  end.

Definition keyValue (t : Parser.Token) : string * string :=
  (Parser.tokKey t, Parser.tokValue t).

Lemma scan_writtenAll driver sp l : forall ks vs qc bd i,
  quotingDriver driver -> Forall readsBack l -> JS.all_chars JS.is_space sp = true ->
  snd (Parser.scan Parser.KEY "" "" ks vs qc bd i (writtenAll driver sp l)) = []
  /\ map keyValue (fst (Parser.scan Parser.KEY "" "" ks vs qc bd i (writtenAll driver sp l)))
     = map (fun kw => (targetKeyword kw, Generator.formatValue (targetValue kw) driver)) l.
Proof.
  induction l as [|kw l IH]; intros ks vs qc bd i Hd Hl Hsp.
  - cbn. auto.
  - inversion Hl as [|x xs Hkw Hl']; subst. cbn [writtenAll].
    destruct (scan_written driver kw sp (writtenAll driver sp l) ks vs qc bd i Hd Hkw Hsp)
      as [pos [ks' [vs' [qc' [i' E]]]]].
    rewrite E. unfold Parser.push.
    destruct Hkw as [[Kt _] _]. rewrite Kt. cbn [fst snd map].
    destruct (IH ks' vs' qc' bd i' Hd Hl' Hsp) as [I1 I2].
    rewrite I1, I2. split; reflexivity.
Qed.

Lemma join_written (sp : string) (l : list string) : forall p,
  JS.join (String ";" sp) (p :: l) ++ ";"
  = p ++ String ";" (fold_right (fun q acc => sp ++ q ++ String ";" acc) "" l).
Proof.
  unfold JS.join. induction l as [|q l IH]; intros p.
  - reflexivity.
  - specialize (IH q).
    change (String.concat (String ";" sp) (p :: q :: l))
      with (p ++ String ";" sp ++ String.concat (String ";" sp) (q :: l)).
    cbn [fold_right]. rewrite string_app_assoc. cbn [append].
    rewrite string_app_assoc, IH. reflexivity.
Qed.

Lemma writtenAll_fold driver sp l :
  writtenAll driver sp l
  = fold_right (fun q acc => sp ++ q ++ String ";" acc) "" (map (written driver) l).
Proof.
  induction l as [|kw l IH]; cbn; [reflexivity|]. rewrite IH. reflexivity.
Qed.

Lemma generateKeyValue_written mapped driver options :
  quotingDriver driver ->
  exists sp, JS.all_chars JS.is_space sp = true
    /\ Generator.generateKeyValue mapped driver options
       = match translatedKeywords mapped with
         | [] => ""
         | kw :: l => written driver kw ++ String ";" (writtenAll driver sp l)
         end.
Proof.
  intros Hd. unfold Generator.generateKeyValue.
  assert (E1 : DriverType_eqb driver odbc = false) by (destruct Hd as [->|[->| ->]]; reflexivity).
  assert (E2 : DriverType_eqb driver php = false) by (destruct Hd as [->|[->| ->]]; reflexivity).
  rewrite E1, E2. cbn [List.app append].
  exists (match formatting options with Some readable => " " | _ => "" end).
  split; [destruct (formatting options) as [[]|]; reflexivity|].
  change (fun kw : TranslatedKeyword =>
            targetKeyword kw ++ "=" ++ Generator.formatValue (targetValue kw) driver)
    with (written driver).
  assert (S : Generator.separatorOf options
              = String ";" (match formatting options with Some readable => " " | _ => "" end)).
  { unfold Generator.separatorOf. destruct (formatting options) as [[]|]; reflexivity. }
  rewrite S.
  destruct (translatedKeywords mapped) as [|kw l]; [reflexivity|].
  cbn [map List.length Nat.ltb Nat.leb].
  rewrite join_written, writtenAll_fold. reflexivity.
Qed.

(** X27.  What the generator writes for sqlclient, oledb and python is read
    back by the tokenizer, in the compact and in the readable format: when
    every translated keyword is writable (an ASCII name that is a clean
    key, an ASCII value that needs quoting or has no white space around
    it), the output has no syntax error, it yields one token per translated
    keyword, in order, under the keyword's name, and the value the parser
    makes of each token is the keyword's value. *)
Theorem generated_key_values_read_back (mapped : MappingResult) (driver : DriverType)
  (options : TranslationOptions) :
  quotingDriver driver ->
  Forall writable (translatedKeywords mapped) ->
  snd (Parser.parseKeyValuePairs (Generator.generateKeyValue mapped driver options)) = []
  /\ map (fun t => (Parser.tokKey t,
                    normalized (Parser.parsedValueOf (Parser.tokKey t) (Parser.tokValue t)
                                                     (Parser.tokPos t))))
         (fst (Parser.parseKeyValuePairs (Generator.generateKeyValue mapped driver options)))
     = map (fun kw => (targetKeyword kw, targetValue kw)) (translatedKeywords mapped).
Proof.
  intros Hd Hw0.
  assert (Hw : Forall readsBack (translatedKeywords mapped)).
  { eapply Forall_impl; [|exact Hw0]. intros kw [_ [_ H]]. exact H. }
  clear Hw0.
  destruct (generateKeyValue_written mapped driver options Hd) as [sp [Hsp E]].
  rewrite E. unfold Parser.parseKeyValuePairs.
  assert (G : forall l, Forall readsBack l ->
    forall ts : list Parser.Token,
    map keyValue ts
    = map (fun kw => (targetKeyword kw, Generator.formatValue (targetValue kw) driver)) l ->
    map (fun t => (Parser.tokKey t,
                   normalized (Parser.parsedValueOf (Parser.tokKey t) (Parser.tokValue t)
                                                    (Parser.tokPos t)))) ts
    = map (fun kw => (targetKeyword kw, targetValue kw)) l).
  { intros l Hl.
    induction Hl as [|kw l [_ Hv] Hl IH]; intros ts Hts.
    - destruct ts; [reflexivity | discriminate].
    - destruct ts as [|t ts]; [discriminate|].
      cbn [map] in *. injection Hts as Hk Hval Hts'.
      rewrite (IH ts Hts'). f_equal.
      rewrite Hk. f_equal.
      unfold Parser.parsedValueOf. cbn [normalized]. rewrite Hval.
      unfold Generator.formatValue.
      destruct (Escaping.needsEscaping (targetValue kw)) eqn:En.
      + rewrite escaped_quoted by exact En.
        unfold Escaping.escapeValue. rewrite En. cbn [negb].
        destruct Hd as [->|[->| ->]]; apply unescape_double_quoted.
      + rewrite plain_not_quoted by exact En. apply Hv. reflexivity. }
  destruct (translatedKeywords mapped) as [|kw l] eqn:El.
  - cbn. auto.
  - inversion Hw as [|x xs Hkw Hl']; subst.
    destruct (scan_written driver kw "" (writtenAll driver sp l) 0 0 "" 0 0 Hd Hkw eq_refl)
      as [pos [ks' [vs' [qc' [i' E1]]]]].
    cbn [append] in E1. rewrite E1.
    destruct (scan_writtenAll driver sp l ks' vs' qc' 0 i' Hd Hl' Hsp) as [I1 I2].
    unfold Parser.push. destruct Hkw as [[Kt Kr] Hv]. rewrite Kt. cbn [fst snd].
    split; [exact I1|].
    apply (G (kw :: l)); [constructor; [split; [split|]; assumption | exact Hl']|].
    cbn [map]. rewrite I2. reflexivity.
Qed.

Definition quotedExample : MappingResult :=
  mapKeywords (fun _ _ => 0%Z)
    (Parser.parse (String.append "Data Source=db1;Pwd=" (JS.dq ++ "p;w" ++ JS.dq)))
    sqlclient noOptions.

Lemma generated_key_values_read_back_witness :
  snd (Parser.parseKeyValuePairs (Generator.generateKeyValue quotedExample sqlclient noOptions))
  = []
  /\ map (fun t => (Parser.tokKey t,
                    normalized (Parser.parsedValueOf (Parser.tokKey t) (Parser.tokValue t)
                                                     (Parser.tokPos t))))
         (fst (Parser.parseKeyValuePairs
                 (Generator.generateKeyValue quotedExample sqlclient noOptions)))
     = map (fun kw => (targetKeyword kw, targetValue kw)) (translatedKeywords quotedExample).
Proof.
  apply (generated_key_values_read_back quotedExample sqlclient noOptions).
  - left. reflexivity.
  - vm_compute. repeat (constructor || intro).
Defined.

(** ** translator/generator.ts: the options of the generator *)

Definition isReadable (options : TranslationOptions) : bool :=
  match formatting options with Some readable => true | _ => false end.

(** X28.  Of the translation options the generator reads only whether the
    format is the readable one: two option sets that agree on this give the
    same output for every driver; in particular [generateFormatted] without
    [pretty] is [generate] without options, and each entry of [generateAll]
    is the output of [generate] for its driver. *)
Theorem generate_reads_only_formatting (mapped : MappingResult) (driver : DriverType)
  (o1 o2 : TranslationOptions) (parsed : option ParsedConnectionString) :
  isReadable o1 = isReadable o2 ->
  Generator.generate mapped driver o1 parsed = Generator.generate mapped driver o2 parsed
  /\ Generator.generateFormatted mapped driver (isReadable o1) parsed
     = Generator.generate mapped driver o1 parsed
  /\ map fst (Generator.generateAll mapped o1 parsed) = ALL_DRIVERS
  /\ In (driver, Generator.generate mapped driver o1 parsed)
        (Generator.generateAll mapped o1 parsed).
Proof.
  intros H.
  assert (G : forall a b, isReadable a = isReadable b ->
                forall d, Generator.generate mapped d a parsed
                          = Generator.generate mapped d b parsed).
  { intros a b Hab d. unfold isReadable in Hab.
    unfold Generator.generate, Generator.generateJdbc, Generator.generateRust,
           Generator.generateRustStruct, Generator.generateKeyValue, Generator.separatorOf.
    destruct (formatting a) as [[]|], (formatting b) as [[]|];
      try discriminate Hab; reflexivity. }
  split; [apply G; exact H|].
  split.
  - unfold Generator.generateFormatted. apply G.
    unfold isReadable. cbn [formatting]. destruct (formatting o1) as [[]|]; reflexivity.
  - split; [reflexivity|].
    unfold Generator.generateAll.
    apply (in_map (fun d => (d, Generator.generate mapped d o1 parsed))).
    apply driver_listed.
Qed.

Lemma generate_reads_only_formatting_witness :
  Generator.generate quotedExample odbc noOptions None
  = Generator.generate quotedExample odbc
      {| includeDefaults := true; preserveUnknown := true; preferShortNames := true;
         formatting := Some compact; keywordOrder_opt := Some order_alphabetical |} None.
Proof.
  apply (generate_reads_only_formatting quotedExample odbc noOptions
           {| includeDefaults := true; preserveUnknown := true; preferShortNames := true;
              formatting := Some compact; keywordOrder_opt := Some order_alphabetical |} None).
  reflexivity.
Defined.

(** ** translator/validator.ts: the syntax check of the raw input *)

(** A character that opens neither a quote nor a brace. *)
Definition opensNothing (c : ascii) : bool :=
  negb (Ascii.eqb c JS.DQ || Ascii.eqb c "'" || Ascii.eqb c "{").

Lemma quoteScan_closed (rest : string) : forall qc qs i,
  JS.all_chars opensNothing rest = true ->
  fst (fst (Validator.quoteScan false qc qs i rest)) = false.
Proof.
  induction rest as [|c rest IH]; intros qc qs i H; [reflexivity|].
  cbn [JS.all_chars] in H. apply andb_prop in H. destruct H as [Hc Hr].
  unfold opensNothing in Hc. apply negb_true_iff in Hc.
  apply orb_false_iff in Hc. destruct Hc as [Hc _].
  cbn [Validator.quoteScan negb andb]. rewrite Hc. apply IH. exact Hr.
Qed.

Lemma braceScan_close depth start i (c2 : ascii) (rest : string) :
  Validator.braceScan depth start i (String "}" (String c2 rest))
  = if Ascii.eqb c2 "}"
    then Validator.braceScan depth start (S (S i)) rest
    else Validator.braceScan (depth - 1) start (S i) (String c2 rest).
Proof.
  destruct (Ascii.eqb c2 "}") eqn:E.
  - apply Ascii.eqb_eq in E. subst c2. reflexivity.
  - destruct c2 as [[] [] [] [] [] [] [] []]; try reflexivity. discriminate E.
Qed.

Lemma braceScan_never_open :
  forall n rest, (String.length rest <= n)%nat ->
  forall depth start i,
    JS.all_chars opensNothing rest = true -> (depth <= 0)%Z ->
    (fst (Validator.braceScan depth start i rest) <= 0)%Z.
Proof.
  induction n as [|n IH]; intros rest Hlen depth start i H Hd.
  - destruct rest; [exact Hd | simpl in Hlen; lia].
  - destruct rest as [|c rest]; [exact Hd|].
    simpl in Hlen.
    cbn [JS.all_chars] in H. apply andb_prop in H. destruct H as [Hc Hr].
    assert (Hc' := Hc). unfold opensNothing in Hc'. apply negb_true_iff in Hc'.
    apply orb_false_iff in Hc'. destruct Hc' as [_ C3].
    destruct (Ascii.eqb c "}") eqn:E.
    + apply Ascii.eqb_eq in E. subst c.
      destruct rest as [|c2 rest'].
      * cbn. lia.
      * rewrite braceScan_close. destruct (Ascii.eqb c2 "}").
        -- cbn [JS.all_chars] in Hr. apply andb_prop in Hr.
           apply IH; [simpl in Hlen; lia | apply Hr | exact Hd].
        -- apply IH; [lia | exact Hr | lia].
    + cbn [Validator.braceScan]. rewrite C3, E. apply IH; [lia | exact Hr | exact Hd].
Qed.

Lemma scan_never_opens (rest : string) : forall st ck cv ks vs qc bd i,
  st = Parser.KEY \/ st = Parser.VALUE ->
  JS.all_chars opensNothing rest = true ->
  snd (Parser.scan st ck cv ks vs qc bd i rest) = [].
Proof.
  induction rest as [|c rest IH]; intros st ck cv ks vs qc bd i Hst H.
  - destruct Hst as [-> | ->]; cbn [Parser.scan Parser.finish]; [reflexivity|].
    rewrite push_snd. reflexivity.
  - cbn [JS.all_chars] in H. apply andb_prop in H. destruct H as [Hc Hr].
    unfold opensNothing in Hc. apply negb_true_iff in Hc.
    apply orb_false_iff in Hc. destruct Hc as [C12 C3].
    destruct Hst as [-> | ->]; cbn [Parser.scan].
    + destruct (Ascii.eqb c "="); [apply IH; auto|].
      destruct (Ascii.eqb c ";"); apply IH; auto.
    + rewrite C12, C3.
      destruct (Ascii.eqb c ";"); [rewrite push_snd|]; apply IH; auto.
Qed.

(** X29.  A text that opens no quote and no brace has no syntax error for
    either checker: [validateSyntax] finds it valid, and the tokenizer of the
    parser reports no error on it. *)
Theorem unquoted_text_has_no_syntax_error (input : string) :
  JS.all_chars opensNothing input = true ->
  Validator.isValid (Validator.validateSyntax input) = true
  /\ Validator.errors (Validator.validateSyntax input) = []
  /\ snd (Parser.parseKeyValuePairs input) = [].
Proof.
  intros H.
  assert (E : Validator.errors (Validator.validateSyntax input) = []).
  { unfold Validator.validateSyntax.
    pose proof (quoteScan_closed input "" (-1) 0 H) as Q.
    destruct (Validator.quoteScan false "" (-1) 0 input) as [[inQ qc] qs].
    cbn [fst] in Q. subst inQ.
    pose proof (braceScan_never_open (String.length input) input (le_n _) 0 (-1) 0 H
                  (Z.le_refl 0)) as B.
    destruct (Validator.braceScan 0 (-1) 0 input) as [depth start].
    cbn [fst] in B.
    assert (L : (0 <? depth)%Z = false) by (apply Z.ltb_ge; exact B).
    rewrite L. reflexivity. }
  split; [|split; [exact E|]].
  - unfold Validator.validateSyntax in *.
    destruct (Validator.quoteScan false "" (-1) 0 input) as [[inQ qc] qs].
    destruct (Validator.braceScan 0 (-1) 0 input) as [depth start].
    cbn [Validator.isValid Validator.errors] in *. rewrite E. reflexivity.
  - apply scan_never_opens; auto.
Qed.

Lemma unquoted_text_has_no_syntax_error_witness :
  Validator.isValid (Validator.validateSyntax "Server=a}b;Database=c;") = true
  /\ Validator.errors (Validator.validateSyntax "Server=a}b;Database=c;") = []
  /\ snd (Parser.parseKeyValuePairs "Server=a}b;Database=c;") = [].
Proof.
  apply (unquoted_text_has_no_syntax_error "Server=a}b;Database=c;").
  reflexivity.
Defined.

(** The offset [start] is an offset of the consumed part [pre] of [input],
    and the character there satisfies [what]. *)
Definition pointsAt (what : ascii -> bool) (input pre : string) (start : Z) : Prop :=
  (0 <= start)%Z /\ (Z.to_nat start < String.length pre)%nat
  /\ exists c, String.get (Z.to_nat start) input = Some c /\ what c = true.

Definition isQuoteChar (c : ascii) : bool := Ascii.eqb c JS.DQ || Ascii.eqb c "'".
Definition isOpenBrace (c : ascii) : bool := Ascii.eqb c "{".

Lemma get_app_length (pre : string) (c : ascii) (rest : string) :
  String.get (String.length pre) (pre ++ String c rest) = Some c.
Proof.
  induction pre as [|x pre IH]; [reflexivity|]. exact IH.
Qed.

Lemma snoc_app (pre : string) (c : ascii) (rest : string) :
  (pre ++ String c EmptyString) ++ rest = pre ++ String c rest.
Proof. rewrite string_app_assoc. reflexivity. Qed.

Lemma length_snoc (pre : string) (c : ascii) :
  String.length (pre ++ String c EmptyString) = S (String.length pre).
Proof. rewrite string_length_app. cbn. lia. Qed.

Lemma pointsAt_snoc what input pre c start :
  pointsAt what input pre start -> pointsAt what input (pre ++ String c EmptyString) start.
Proof.
  intros [H1 [H2 H3]]. split; [exact H1|]. split; [rewrite length_snoc; lia | exact H3].
Qed.

Lemma pointsAt_here what input pre c rest :
  input = pre ++ String c rest -> what c = true ->
  pointsAt what input (pre ++ String c EmptyString) (Z.of_nat (String.length pre)).
Proof.
  intros E Hc. split; [lia|]. rewrite Nat2Z.id. split; [rewrite length_snoc; lia|].
  exists c. split; [|exact Hc]. rewrite E. apply get_app_length.
Qed.

Lemma quoteScan_points (input : string) :
  forall n rest, (String.length rest <= n)%nat ->
  forall pre inQuote qc qs,
    input = pre ++ rest ->
    (inQuote = true -> pointsAt isQuoteChar input pre qs) ->
    fst (fst (Validator.quoteScan inQuote qc qs (String.length pre) rest)) = true ->
    pointsAt isQuoteChar input input
             (snd (Validator.quoteScan inQuote qc qs (String.length pre) rest)).
Proof.
  induction n as [|n IH]; intros rest Hlen pre inQuote qc qs E HI.
  - destruct rest; [|simpl in Hlen; lia].
    rewrite string_app_empty in E. subst pre. cbn. exact HI.
  - destruct rest as [|c rest].
    { rewrite string_app_empty in E. subst pre. cbn. exact HI. }
    simpl in Hlen.
    assert (Step : forall inQ' qc',
               (inQ' = true -> inQuote = true) ->
               fst (fst (Validator.quoteScan inQ' qc' qs (S (String.length pre)) rest)) = true ->
               pointsAt isQuoteChar input input
                 (snd (Validator.quoteScan inQ' qc' qs (S (String.length pre)) rest))).
    { intros inQ' qc' Himp. rewrite <- (length_snoc pre c).
      apply IH; [lia | rewrite snoc_app; exact E |].
      intros H. apply pointsAt_snoc. apply HI. apply Himp. exact H. }
    cbn [Validator.quoteScan].
    destruct (negb inQuote && (Ascii.eqb c JS.DQ || Ascii.eqb c "'")) eqn:C1.
    + apply andb_prop in C1. destruct C1 as [_ C1].
      rewrite <- (length_snoc pre c).
      apply IH; [lia | rewrite snoc_app; exact E |].
      intros _. apply (pointsAt_here _ _ _ _ rest E). exact C1.
    + destruct (inQuote && String.eqb (String c EmptyString) qc) eqn:C2; [|apply Step; auto].
      apply andb_prop in C2. destruct C2 as [C2 _]. subst inQuote.
      destruct rest as [|c2 rest']; [apply Step; discriminate|].
      destruct (String.eqb (String c2 EmptyString) qc); [|apply Step; discriminate].
      replace (S (S (String.length pre)))
        with (String.length ((pre ++ String c EmptyString) ++ String c2 EmptyString))
        by (rewrite !length_snoc; reflexivity).
      apply IH; [simpl in Hlen; lia | rewrite !snoc_app; exact E |].
      intros _. apply pointsAt_snoc, pointsAt_snoc. apply HI. reflexivity.
Qed.

Lemma braceScan_points (input : string) :
  forall n rest, (String.length rest <= n)%nat ->
  forall pre depth start,
    input = pre ++ rest ->
    ((0 < depth)%Z -> pointsAt isOpenBrace input pre start) ->
    (0 < fst (Validator.braceScan depth start (String.length pre) rest))%Z ->
    pointsAt isOpenBrace input input
             (snd (Validator.braceScan depth start (String.length pre) rest)).
Proof.
  induction n as [|n IH]; intros rest Hlen pre depth start E HI.
  - destruct rest; [|simpl in Hlen; lia].
    rewrite string_app_empty in E. subst pre. cbn. exact HI.
  - destruct rest as [|c rest].
    { rewrite string_app_empty in E. subst pre. cbn. exact HI. }
    simpl in Hlen.
    destruct (Ascii.eqb c "{") eqn:C1.
    + cbn [Validator.braceScan]. rewrite C1.
      rewrite <- (length_snoc pre c).
      apply IH; [lia | rewrite snoc_app; exact E |].
      intros Hd. destruct (depth =? 0)%Z eqn:Z0.
      * apply (pointsAt_here _ _ _ _ rest E). exact C1.
      * apply pointsAt_snoc. apply HI. apply Z.eqb_neq in Z0. lia.
    + destruct (Ascii.eqb c "}") eqn:C2.
      * apply Ascii.eqb_eq in C2. subst c.
        destruct rest as [|c2 rest'].
        -- cbn. intros Hd. destruct HI as [H1 [H2 H3]]; [lia|].
           split; [exact H1|]. split; [|exact H3].
           rewrite E, string_length_app. cbn. lia.
        -- rewrite braceScan_close. destruct (Ascii.eqb c2 "}").
           ++ replace (S (S (String.length pre)))
                with (String.length ((pre ++ String "}" EmptyString) ++ String c2 EmptyString))
                by (rewrite !length_snoc; reflexivity).
              apply IH; [simpl in Hlen; lia | rewrite !snoc_app; exact E |].
              intros Hd. apply pointsAt_snoc, pointsAt_snoc. apply HI. exact Hd.
           ++ rewrite <- (length_snoc pre "}").
              apply IH; [lia | rewrite snoc_app; exact E |].
              intros Hd. apply pointsAt_snoc. apply HI. lia.
      * cbn [Validator.braceScan]. rewrite C1, C2.
        rewrite <- (length_snoc pre c).
        apply IH; [lia | rewrite snoc_app; exact E |].
        intros Hd. apply pointsAt_snoc. apply HI. exact Hd.
Qed.

(** An error of [validateSyntax] and the character it points at. *)
Definition pointsAtOpening (input : string) (e : ParseError) : Prop :=
  exists pos c,
    pe_position e = Some pos
    /\ (p_start pos < p_end pos)%nat /\ p_end pos = String.length input
    /\ String.get (p_start pos) input = Some c
    /\ ((pe_code e = UNMATCHED_QUOTE /\ isQuoteChar c = true)
        \/ (pe_code e = UNMATCHED_BRACE /\ isOpenBrace c = true)).

(** X30.  [validateSyntax] reports at most an unmatched quote and then an
    unmatched brace, and each error points at its cause: the position starts
    at an offset of the input that holds an opening quote, respectively an
    opening brace, and ends where the input ends; the verdict is negative
    exactly when there is an error. *)
Theorem validateSyntax_errors_point_at_cause (input : string) :
  Forall (pointsAtOpening input) (Validator.errors (Validator.validateSyntax input))
  /\ (List.length (Validator.errors (Validator.validateSyntax input)) <= 2)%nat
  /\ (Validator.isValid (Validator.validateSyntax input) = true
      <-> Validator.errors (Validator.validateSyntax input) = []).
Proof.
  unfold Validator.validateSyntax.
  pose proof (quoteScan_points input (String.length input) input (le_n _) "" false "" (-1)%Z
                eq_refl) as Q.
  pose proof (braceScan_points input (String.length input) input (le_n _) "" 0%Z (-1)%Z
                eq_refl) as B.
  cbn [String.length] in Q, B.
  destruct (Validator.quoteScan false "" (-1) 0 input) as [[inQ qc] qs].
  destruct (Validator.braceScan 0 (-1) 0 input) as [depth start].
  cbn [fst snd] in Q, B.
  cbn [Validator.errors Validator.isValid].
  assert (PQ : inQ = true ->
               pointsAtOpening input
                 {| pe_code := UNMATCHED_QUOTE;
                    pe_message :=
                      "Syntax error: Unmatched "
                      ++ (if String.eqb qc JS.dq then "double" else "single")
                      ++ " quote at position " ++ Validator.ofZ qs;
                    pe_position :=
                      Some {| p_start := Z.to_nat qs; p_end := String.length input |};
                    pe_suggestion := Some ("Add closing " ++ qc ++ " character") |}).
  { intros H. destruct (Q ltac:(discriminate) H) as [H1 [H2 [c [H3 H4]]]].
    eexists. exists c. cbn. repeat split; auto. }
  assert (PB : (0 < depth)%Z ->
               pointsAtOpening input
                 {| pe_code := UNMATCHED_BRACE;
                    pe_message :=
                      "Syntax error: Unmatched opening brace at position "
                      ++ Validator.ofZ start;
                    pe_position :=
                      Some {| p_start := Z.to_nat start; p_end := String.length input |};
                    pe_suggestion := Some "Add closing } character" |}).
  { intros H. destruct (B ltac:(lia) H) as [H1 [H2 [c [H3 H4]]]].
    eexists. exists c. cbn. repeat split; auto. }
  destruct inQ; destruct (0 <? depth)%Z eqn:D;
    try (apply Z.ltb_lt in D); cbn [List.app List.length Nat.eqb].
  - split; [repeat constructor; auto|]. split; [lia|]. split; discriminate.
  - split; [repeat constructor; auto|]. split; [lia|]. split; discriminate.
  - split; [repeat constructor; auto|]. split; [lia|]. split; discriminate.
  - split; [constructor|]. split; [lia|]. split; reflexivity.
Qed.
